(** * Christmas-for-TOP: particle choreography and gesture-driven modes

    A shallow embedding of the target-transform solver, the integrator, the
    gesture classifier and the mode state machine found in

      - [src/components/Scene.tsx]            (module [SceneA])
      - [src/unnamed/part_002]                (module [SceneB])
      - [src/App.tsx], class [Experience]     (modules [Experience] and
                                               [ExperienceScene])
      - [src/unnamed/part_004], the scene     (module [SceneC])
      - [src/unnamed/part_004], [MediaPipeService] and
        [src/unnamed/part_001], the gesture loop (module [MediaPipe]).

    Modelling conventions.

    - A JavaScript [number] is a real number ([R]); rounding of IEEE doubles
      is outside the model.  Array indices and slot indices are [nat],
      [focusedPhotoIndex] is a [Z] because the code uses [-1] for "unset".
    - [Math.random()] reads the next value of an explicit random source that
      is threaded through the code (module [Random]).
    - [performance.now()] is an explicit argument.
    - A JavaScript object has an identity; [oid] is that identity (a
      particle's allocation number), and [indexOf] compares identities.
    - [onModeChange] is React's [setMode] of the owning [App]: it records
      the requested mode ([requested]) and writes nothing else.  The copy
      the scene reads ([stateRef.current.mode], [modeRef.current]; field
      [mode]) follows when the owner has re-rendered and the effect on
      [mode] has run ([modeEffect]); until then the scene reads the old
      mode.
    - three.js itself is not part of the repository: vectors are modelled
      from their documented arithmetic, the orientation operations
      (quaternion slerp, Euler conversion) are parameters. *)

From Stdlib Require Import Reals Lra Lia List ZArith Bool Psatz.
From Stdlib Require String DecimalString.
Import ListNotations.
Open Scope R_scope.

(** ** JavaScript helpers *)

Module JS.

(** [Math.hypot(a, b)] and [Math.hypot(a, b, c)]. *)
Definition hypot (a b : R) : R := sqrt (a * a + b * b).
Definition hypot3 (a b c : R) : R := sqrt (a * a + b * b + c * c).

(** [Math.floor]. *)
Definition floor (x : R) : Z := Int_part x.

(** [arr[i]] for a number [i]: [undefined] ([None]) outside the array. *)
Definition get {A : Type} (arr : list A) (i : Z) : option A :=
  if (i <? 0)%Z then None else nth_error arr (Z.to_nat i).

(** [arr.forEach((p, idx) => ...)] where the body rewrites [p]. *)
Fixpoint forEach_from {A : Type} (f : A -> nat -> A) (i : nat) (arr : list A)
  : list A :=
  match arr with
  | [] => []
  | p :: rest => f p i :: forEach_from f (S i) rest
  end.

Definition forEach {A : Type} (f : A -> nat -> A) (arr : list A) : list A :=
  forEach_from f 0 arr.

(** [lerp(a, b, t)] of [THREE.MathUtils]. *)
Definition lerp (a b t : R) : R := (1 - t) * a + t * b.

(** [a / b] where it is a finite number: JavaScript yields NaN or an
    infinity, not an exception, when [b] is 0; [None] stands for those. *)
Definition div (a b : R) : option R :=
  if Req_dec_T b 0 then None else Some (a / b).

(** [Math.acos(x)]: NaN ([None]) outside [[-1, 1]]. *)
Definition acos (x : R) : option R :=
  if Rle_dec (-1) x
  then if Rle_dec x 1 then Some (Ratan.acos x) else None
  else None.

End JS.

(** ** The random source behind [Math.random] *)

Module Random.

(** The values the successive calls of [Math.random()] return. *)
Definition source := nat -> R.

Definition M (A : Type) : Type := source -> A * source.

Definition ret {A : Type} (a : A) : M A := fun rs => (a, rs).

Definition bind {A B : Type} (c : M A) (k : A -> M B) : M B :=
  fun rs => let (a, rs') := c rs in k a rs'.

(** One call of [Math.random()]. *)
Definition random : M R := fun rs => (rs 0%nat, fun n => rs (S n)).

(** [Math.random()] is specified to return a number in [[0, 1)]. *)
Definition fair (rs : source) : Prop := forall n, 0 <= rs n < 1.

(** The constant source, for concrete runs. *)
Definition const (r : R) : source := fun _ => r.

(** [for (let i = 0; i < n; i++) body(i)] over an accumulated state. *)
Fixpoint for_range {A : Type} (body : nat -> A -> M A) (i n : nat) (acc : A)
  : M A :=
  match n with
  | O => ret acc
  | S n' => bind (body i acc) (for_range body (S i) n')
  end.

End Random.

Notation "x <- c ;; k" := (Random.bind c (fun x => k))
  (at level 61, c at next level, right associativity).

(** ** three.js values *)

Module Three.

Record Vector3 : Type := vec3 { x : R; y : R; z : R }.

(** [v.multiplyScalar(s)] *)
Definition multiplyScalar (v : Vector3) (s : R) : Vector3 :=
  vec3 (x v * s) (y v * s) (z v * s).

(** [v.lerp(w, alpha)]: [v.x += (w.x - v.x) * alpha] and so on. *)
Definition lerp (v w : Vector3) (alpha : R) : Vector3 :=
  vec3 (x v + (x w - x v) * alpha)
       (y v + (y w - y v) * alpha)
       (z v + (z w - z v) * alpha).

(** [v.distanceTo(w)] *)
Definition distanceTo (v w : Vector3) : R :=
  sqrt ((x v - x w) * (x v - x w)
        + (y v - y w) * (y v - y w)
        + (z v - z w) * (z v - z w)).

Record Euler : Type := euler { ex : R; ey : R; ez : R }.

Record Quaternion : Type := quat { qx : R; qy : R; qz : R; qw : R }.

(** The orientation arithmetic of three.js, taken as given. *)
Class Orientation : Type := {
  setFromEuler : Euler -> Quaternion;
  setFromQuaternion : Quaternion -> Euler;
  slerp : Quaternion -> Quaternion -> R -> Quaternion
}.

(** An [Object3D] as far as the choreography touches it.  [rotation] and
    [quaternion] are kept in step by three.js: writing one rewrites the
    other. *)
Record Mesh : Type := mkMesh {
  position : Vector3;
  rotation : Euler;
  quaternion : Quaternion;
  scale : Vector3
}.

(** [new THREE.Mesh(...)] *)
Definition newMesh : Mesh :=
  mkMesh (vec3 0 0 0) (euler 0 0 0) (quat 0 0 0 1) (vec3 1 1 1).

Definition set_position (m : Mesh) (v : Vector3) : Mesh :=
  mkMesh v (rotation m) (quaternion m) (scale m).

Definition set_scale (m : Mesh) (v : Vector3) : Mesh :=
  mkMesh (position m) (rotation m) (quaternion m) v.

(** [m.quaternion.slerp(q, t)] *)
Definition slerp_quaternion `{Orientation} (m : Mesh) (q : Quaternion) (t : R)
  : Mesh :=
  let q' := slerp (quaternion m) q t in
  mkMesh (position m) (setFromQuaternion q') q' (scale m).

(** [m.rotation.x += dx; m.rotation.y += dy; m.rotation.z += dz] *)
Definition add_rotation `{Orientation} (m : Mesh) (dx dy dz : R) : Mesh :=
  let e := euler (ex (rotation m) + dx) (ey (rotation m) + dy)
                 (ez (rotation m) + dz) in
  mkMesh (position m) e (setFromEuler e) (scale m).

End Three.

Import Three.

(** ** [src/types.ts] *)

Inductive SceneMode : Type := TREE | SCATTER | FOCUS.

Definition SceneMode_eqb (a b : SceneMode) : bool :=
  match a, b with
  | TREE, TREE | SCATTER, SCATTER | FOCUS, FOCUS => true
  | _, _ => false
  end.

(** ** Hand landmarks

    The detector yields 21 landmarks per hand; the code reads them by index
    (0 wrist, 4 thumb tip, 8 index tip, 9 middle-finger base, 12, 16, 20 the
    other tips). *)

Record Landmark : Type := landmark { lx : R; ly : R; lz : R }.

Definition Hand : Type := nat -> Landmark.


(** The 2D distance [Math.hypot(a.x - b.x, a.y - b.y)] between landmarks. *)
Definition dist2D (a b : Landmark) : R :=
  JS.hypot (lx a - lx b) (ly a - ly b).

(** The 3D distance [Math.hypot(a.x - b.x, a.y - b.y, a.z - b.z)]. *)
Definition dist3D (a b : Landmark) : R :=
  JS.hypot3 (lx a - lx b) (ly a - ly b) (lz a - lz b).

(** ** [src/components/Scene.tsx] *)

Module SceneA.

Inductive ParticleType : Type := DECOR | PHOTO | DUST.

Record PhotoConfig : Type := mkPhotoConfig {
  orbitRadius : R;
  orbitY : R;
  orbitPhase : R
}.

(** [class ParticleItem]; [oid] is the identity of the JavaScript object. *)
Record ParticleItem : Type := mkParticle {
  oid : nat;
  mesh : Mesh;
  targetPos : Vector3;
  targetRot : Euler;
  targetScale : Vector3;
  type : ParticleType;
  rotationSpeed : Vector3;
  scatterPos : Vector3;
  slotIndex : nat;
  photoConfig : option PhotoConfig
}.

Definition isDECOR (p : ParticleItem) : bool :=
  match type p with DECOR => true | _ => false end.

Definition isPHOTO (p : ParticleItem) : bool :=
  match type p with PHOTO => true | _ => false end.

Definition set_mesh (p : ParticleItem) (m : Mesh) : ParticleItem :=
  mkParticle (oid p) m (targetPos p) (targetRot p) (targetScale p) (type p)
             (rotationSpeed p) (scatterPos p) (slotIndex p) (photoConfig p).

Definition set_targetPos (p : ParticleItem) (v : Vector3) : ParticleItem :=
  mkParticle (oid p) (mesh p) v (targetRot p) (targetScale p) (type p)
             (rotationSpeed p) (scatterPos p) (slotIndex p) (photoConfig p).

Definition set_targetRot (p : ParticleItem) (e : Euler) : ParticleItem :=
  mkParticle (oid p) (mesh p) (targetPos p) e (targetScale p) (type p)
             (rotationSpeed p) (scatterPos p) (slotIndex p) (photoConfig p).

Definition set_targetScale (p : ParticleItem) (v : Vector3) : ParticleItem :=
  mkParticle (oid p) (mesh p) (targetPos p) (targetRot p) v (type p)
             (rotationSpeed p) (scatterPos p) (slotIndex p) (photoConfig p).

(** The [photoConfig] part of the constructor. *)
Definition new_photoConfig (ty : ParticleType)
  : Random.M (option PhotoConfig) :=
  match ty with
  | PHOTO =>
      a <- Random.random ;;
      b <- Random.random ;;
      c <- Random.random ;;
      Random.ret (Some (mkPhotoConfig (18 + a * 10) (-12 + b * 28) (c * PI * 2)))
  | _ => Random.ret None
  end.

(** [new ParticleItem(mesh, type, index)]; [o] is the fresh identity. *)
Definition new_ParticleItem (o : nat) (m : Mesh) (ty : ParticleType)
  (index : nat) : Random.M ParticleItem :=
  r1 <- Random.random ;;
  r2 <- Random.random ;;
  r3 <- Random.random ;;
  let speed := vec3 ((r1 - 0.5) * 0.05) ((r2 - 0.5) * 0.05) ((r3 - 0.5) * 0.05) in
  r4 <- Random.random ;;
  let radius := match ty with PHOTO => 12 + r4 * 15 | _ => 8 + r4 * 12 end in
  r5 <- Random.random ;;
  let theta := r5 * PI * 2 in
  r6 <- Random.random ;;
  let phi := acos (r6 * 2 - 1) in
  let scatter := vec3 (radius * sin phi * cos theta)
                      (radius * sin phi * sin theta)
                      (radius * cos phi) in
  cfg <- new_photoConfig ty ;;
  Random.ret (mkParticle o m (vec3 0 0 0) (euler 0 0 0) (vec3 1 1 1) ty
                         speed scatter index cfg).

(** [update(mode)]: the integrator step of one particle. *)
Definition update `{Orientation} (md : SceneMode) (p : ParticleItem)
  : ParticleItem :=
  let m1 := set_position (mesh p) (lerp (position (mesh p)) (targetPos p) 0.07) in
  let m2 := slerp_quaternion m1 (setFromEuler (targetRot p)) 0.07 in
  let m3 := set_scale m2 (lerp (scale m2) (targetScale p) 0.07) in
  if SceneMode_eqb md SCATTER
  then set_mesh p (add_rotation m3 (x (rotationSpeed p)) (y (rotationSpeed p))
                                (z (rotationSpeed p)))
  else set_mesh p m3.

(** [stateRef.current] ([mode] is [stateRef.current.mode]), the
    [particles] array it shares with the closure, the two angles of
    [mainGroup.rotation] the gestures steer, and [requested]: the owner's
    React state [mode] as last written through [onModeChange], which is the
    [mode] prop of the next render. *)
Record State : Type := mkState {
  mode : SceneMode;
  particles : list ParticleItem;
  focusedPhotoIndex : Z;
  mainGroupRotX : R;
  mainGroupRotY : R;
  requested : SceneMode
}.

Definition set_mode (s : State) (m : SceneMode) : State :=
  mkState m (particles s) (focusedPhotoIndex s) (mainGroupRotX s)
          (mainGroupRotY s) (requested s).

Definition set_particles (s : State) (ps : list ParticleItem) : State :=
  mkState (mode s) ps (focusedPhotoIndex s) (mainGroupRotX s)
          (mainGroupRotY s) (requested s).

Definition set_focusedPhotoIndex (s : State) (i : Z) : State :=
  mkState (mode s) (particles s) i (mainGroupRotX s) (mainGroupRotY s)
          (requested s).

Definition set_mainGroupRot (s : State) (rx ry : R) : State :=
  mkState (mode s) (particles s) (focusedPhotoIndex s) rx ry (requested s).

Definition set_requested (s : State) (m : SceneMode) : State :=
  mkState (mode s) (particles s) (focusedPhotoIndex s) (mainGroupRotX s)
          (mainGroupRotY s) m.

(** [onModeChange(m)]: React's [setMode] of the owner.  The request is
    recorded; [stateRef.current.mode] is not written. *)
Definition onModeChange (m : SceneMode) (s : State) : State :=
  set_requested s m.

(** The owner has re-rendered and the effect on [mode] runs:
    [stateRef.current.mode = mode]. *)
Definition modeEffect (s : State) : State := set_mode s (requested s).

(** [particles.filter(p => p.type === 'PHOTO')] *)
Definition photos (ps : list ParticleItem) : list ParticleItem :=
  filter isPHOTO ps.

(** [particles.indexOf(target)]: the first index holding the same object,
    [-1] when there is none ([target] may be [undefined]). *)
Fixpoint indexOf_from (ps : list ParticleItem) (target : option ParticleItem)
  (i : Z) : Z :=
  match ps with
  | [] => (-1)%Z
  | p :: rest =>
      match target with
      | Some t => if Nat.eqb (oid p) (oid t) then i
                  else indexOf_from rest target (i + 1)%Z
      | None => indexOf_from rest target (i + 1)%Z
      end
  end.

Definition indexOf (ps : list ParticleItem) (target : option ParticleItem) : Z :=
  indexOf_from ps target 0%Z.

(** [addPhotoToScene(tex)] *)
Definition addPhotoToScene (s : State) : Random.M State :=
  p <- new_ParticleItem (length (particles s)) newMesh PHOTO
                        (length (photos (particles s))) ;;
  Random.ret (set_particles s (particles s ++ [p])).

(** The body of the loop creating the 1500 main particles: one draw picks
    the shape, the box and sphere branches draw once more for the material. *)
Definition decor_body (i : nat) (ps : list ParticleItem)
  : Random.M (list ParticleItem) :=
  rand <- Random.random ;;
  _ <- (if Rlt_dec rand 0.8 then Random.random else Random.ret 0) ;;
  p <- new_ParticleItem (length ps) newMesh DECOR i ;;
  Random.ret (ps ++ [p]).

Definition dust_body (i : nat) (ps : list ParticleItem)
  : Random.M (list ParticleItem) :=
  p <- new_ParticleItem (length ps) newMesh DUST i ;;
  Random.ret (ps ++ [p]).

(** The set-up effect: 1500 DECOR, then 2500 DUST particles; [m] is the
    [mode] prop (the owner starts it at [TREE]). *)
Definition init (m : SceneMode) : Random.M State :=
  ps <- Random.for_range decor_body 0 1500 [] ;;
  ps <- Random.for_range dust_body 0 2500 ps ;;
  Random.ret (mkState m ps (-1) 0 0 m).

(** The body of [particles.forEach] in [calculateTargets]. *)
Definition target (md : SceneMode) (focused : Z) (time : R)
  (p : ParticleItem) (idx : nat) : ParticleItem :=
  match md with
  | TREE =>
      if isDECOR p then
        let t := INR (slotIndex p) / 1500 in
        let radius := 13 * (1 - t) in
        let angle := t * 50 * PI + time * 0.5 in
        let p := set_targetPos p (vec3 (cos angle * radius) (t * 32 - 15)
                                       (sin angle * radius)) in
        let p := set_targetRot p (euler 0 (- angle) 0) in
        set_targetScale p (vec3 1 1 1)
      else
        match (if isPHOTO p then photoConfig p else None) with
        | Some cfg =>
            let angle := orbitPhase cfg + time * 0.2 in
            let p := set_targetPos p (vec3 (cos angle * orbitRadius cfg)
                                           (orbitY cfg)
                                           (sin angle * orbitRadius cfg)) in
            let p := set_targetRot p (euler 0 (- angle + PI / 2) 0) in
            set_targetScale p (vec3 1 1 1)
        | None =>
            let radius := 25 + sin (INR idx) * 5 in
            let angle := INR idx * 0.1 + time * 0.3 in
            set_targetPos p (vec3 (cos angle * radius)
                                  (cos (INR idx * 0.5) * 20)
                                  (sin angle * radius))
        end
  | SCATTER =>
      let p := set_targetPos p (scatterPos p) in
      set_targetScale p (vec3 1 1 1)
  | FOCUS =>
      if (Z.of_nat idx =? focused)%Z then
        let p := set_targetPos p (vec3 0 2 35) in
        let p := set_targetRot p (euler 0 0 0) in
        set_targetScale p (vec3 4.5 4.5 4.5)
      else
        let p := set_targetPos p (multiplyScalar (scatterPos p) 2.5) in
        set_targetScale p (vec3 0.1 0.1 0.1)
  end.

(** [calculateTargets()]; [now] is [performance.now()]. *)
Definition calculateTargets (now : R) (s : State) : State :=
  let time := now * 0.001 in
  set_particles s
    (JS.forEach (target (mode s) (focusedPhotoIndex s) time) (particles s)).

(** The two measurements [animate] takes from a hand. *)
Definition pinchDist (hand : Hand) : R := dist2D (hand 4%nat) (hand 8%nat).

Definition avgDist (hand : Hand) : R :=
  fold_left (fun sum id => sum + dist2D (hand id) (hand 0%nat))
            [8%nat; 12%nat; 16%nat; 20%nat] 0 / 4.

(** The block guarded by [pinchDist < 0.05]: request FOCUS on a photo drawn
    at random, unless the mode read is FOCUS or there is no photo. *)
Definition pinched (s : State) : Random.M State :=
  if negb (SceneMode_eqb (mode s) FOCUS) then
    let ph := photos (particles s) in
    if (0 <? length ph)%nat then
      r <- Random.random ;;
      let tgt := JS.get ph (JS.floor (r * INR (length ph))) in
      let s := set_focusedPhotoIndex s (indexOf (particles s) tgt) in
      Random.ret (onModeChange FOCUS s)
    else Random.ret s
  else Random.ret s.

(** The gesture branch of [animate], for a detected hand. *)
Definition gestures (hand : Hand) (s : State) : Random.M State :=
  if Rlt_dec (pinchDist hand) 0.05 then pinched s
  else if Rlt_dec (avgDist hand) 0.25 then Random.ret (onModeChange TREE s)
  else if Rgt_dec (avgDist hand) 0.4 then Random.ret (onModeChange SCATTER s)
  else Random.ret s.

(** Palm tracking: [mainGroup.rotation] follows landmark 9. *)
Definition palmTracking (hand : Hand) (s : State) : State :=
  set_mainGroupRot s
    (JS.lerp (mainGroupRotX s) ((ly (hand 9%nat) - 0.5) * 2) 0.1)
    (JS.lerp (mainGroupRotY s) ((lx (hand 9%nat) - 0.5) * 4) 0.1).

(** One frame of [animate].  [ready] is [handLandmarker && video.readyState
    >= 2]; [landmarks] is the first detected hand, if any. *)
Definition animate `{Orientation} (ready : bool) (landmarks : option Hand)
  (now : R) (s : State) : Random.M State :=
  s <- match (if ready then landmarks else None) with
       | Some hand => gestures hand (palmTracking hand s)
       | None => Random.ret s
       end ;;
  let s := calculateTargets now s in
  Random.ret (set_particles s (map (update (mode s)) (particles s))).

(** The ['add-photo'] listener. *)
Definition handleAddPhoto (s : State) : Random.M State :=
  s <- addPhotoToScene s ;;
  let s := set_focusedPhotoIndex s (Z.of_nat (length (particles s)) - 1)%Z in
  Random.ret (onModeChange FOCUS s).

(** *** Invariants of the registry and the focus target *)

(** Distinct objects: the particle at index [i] is the [i]-th allocated. *)
Definition heap_ok (ps : list ParticleItem) : Prop :=
  forall i p, nth_error ps i = Some p -> oid p = i.

(** A set focus target ([focusedPhotoIndex >= 0]) is the index of a
    registered PHOTO particle. *)
Definition focus_ok (s : State) : Prop :=
  (0 <= focusedPhotoIndex s)%Z ->
  exists p, nth_error (particles s) (Z.to_nat (focusedPhotoIndex s)) = Some p
            /\ type p = PHOTO.

Definition Inv (s : State) : Prop := heap_ok (particles s) /\ focus_ok s.

(** In FOCUS the focus target is set. *)
Definition focus_set (s : State) : Prop :=
  mode s = FOCUS -> (0 <= focusedPhotoIndex s)%Z.

(** The same for the mode the owner holds: a request for FOCUS comes with
    a set focus target. *)
Definition request_set (s : State) : Prop :=
  requested s = FOCUS -> (0 <= focusedPhotoIndex s)%Z.

End SceneA.

(** ** [src/unnamed/part_002]: the scene with golden-spiral anchors *)

Module SceneB.

Inductive ParticleType : Type := DECOR | PHOTO | DUST.

Record ParticleItem : Type := mkParticle {
  oid : nat;
  mesh : Mesh;
  targetPos : Vector3;
  targetRot : Euler;
  targetScale : Vector3;
  type : ParticleType;
  randomOffset : R;
  rotationSpeed : Vector3;
  scatterPos : Vector3;
  slotIndex : nat
}.

Definition isDECOR (p : ParticleItem) : bool :=
  match type p with DECOR => true | _ => false end.

Definition isPHOTO (p : ParticleItem) : bool :=
  match type p with PHOTO => true | _ => false end.

Definition set_mesh (p : ParticleItem) (m : Mesh) : ParticleItem :=
  mkParticle (oid p) m (targetPos p) (targetRot p) (targetScale p) (type p)
             (randomOffset p) (rotationSpeed p) (scatterPos p) (slotIndex p).

Definition set_targetPos (p : ParticleItem) (v : Vector3) : ParticleItem :=
  mkParticle (oid p) (mesh p) v (targetRot p) (targetScale p) (type p)
             (randomOffset p) (rotationSpeed p) (scatterPos p) (slotIndex p).

Definition set_targetRot (p : ParticleItem) (e : Euler) : ParticleItem :=
  mkParticle (oid p) (mesh p) (targetPos p) e (targetScale p) (type p)
             (randomOffset p) (rotationSpeed p) (scatterPos p) (slotIndex p).

Definition set_targetScale (p : ParticleItem) (v : Vector3) : ParticleItem :=
  mkParticle (oid p) (mesh p) (targetPos p) (targetRot p) v (type p)
             (randomOffset p) (rotationSpeed p) (scatterPos p) (slotIndex p).

Definition set_scatterPos (p : ParticleItem) (v : Vector3) : ParticleItem :=
  mkParticle (oid p) (mesh p) (targetPos p) (targetRot p) (targetScale p)
             (type p) (randomOffset p) (rotationSpeed p) v (slotIndex p).

(** The point on the sphere of radius [radius] at polar angle [phi] and
    azimuth [theta], as [scatterPos.set] receives it. *)
Definition spherical (radius phi theta : R) : Vector3 :=
  vec3 (radius * sin phi * cos theta)
       (radius * sin phi * sin theta)
       (radius * cos phi).

(** The golden-spiral azimuth [Math.PI * (1 + Math.sqrt(5)) * index]. *)
Definition goldenTheta (index : nat) : R := PI * (1 + sqrt 5) * INR index.

(** The vector [updateScatterPos(index, total)] stores, for a particle of
    type [ty]: the scatter anchor, as a vector of real numbers. *)
Definition anchor (ty : ParticleType) (index total : nat) : Random.M Vector3 :=
  r <- Random.random ;;
  let radius := 12 + r * 8 in
  match ty with
  | PHOTO =>
      let radius := 22 + INR (index mod 15) * 1.2 in
      let phi := acos (1 - 2 * (INR index / 50)) in
      let theta := goldenTheta index in
      Random.ret (spherical radius phi theta)
  | _ =>
      let phi := acos (1 - 2 * (INR index / INR total)) in
      let theta := goldenTheta index in
      radius <- match ty with
                | DUST => r' <- Random.random ;; Random.ret (30 + r' * 10)
                | _ => Random.ret radius
                end ;;
      Random.ret (spherical radius phi theta)
  end.

(** The same computation with the results JavaScript gives outside the
    real numbers made explicit: [index / total] is not a finite number when
    [total] is 0, and [Math.acos] is NaN outside [[-1, 1]]; either makes
    all three components of [scatterPos] NaN, which [None] stands for. *)
Definition finiteAnchor (ty : ParticleType) (index total : nat)
  : Random.M (option Vector3) :=
  r <- Random.random ;;
  let radius := 12 + r * 8 in
  match ty with
  | PHOTO =>
      let radius := 22 + INR (index mod 15) * 1.2 in
      let phi := match JS.div (INR index) 50 with
                 | Some q => JS.acos (1 - 2 * q)
                 | None => None
                 end in
      let theta := goldenTheta index in
      Random.ret (option_map (fun phi => spherical radius phi theta) phi)
  | _ =>
      let phi := match JS.div (INR index) (INR total) with
                 | Some q => JS.acos (1 - 2 * q)
                 | None => None
                 end in
      let theta := goldenTheta index in
      radius <- match ty with
                | DUST => r' <- Random.random ;; Random.ret (30 + r' * 10)
                | _ => Random.ret radius
                end ;;
      Random.ret (option_map (fun phi => spherical radius phi theta) phi)
  end.

(** [updateScatterPos(index, total)] *)
Definition updateScatterPos (p : ParticleItem) (index total : nat)
  : Random.M ParticleItem :=
  v <- anchor (type p) index total ;;
  Random.ret (set_scatterPos p v).

(** [new ParticleItem(mesh, type, index)]; [o] is the fresh identity. *)
Definition new_ParticleItem (o : nat) (m : Mesh) (ty : ParticleType)
  (index : nat) : Random.M ParticleItem :=
  r0 <- Random.random ;;
  r1 <- Random.random ;;
  r2 <- Random.random ;;
  r3 <- Random.random ;;
  let speed := multiplyScalar (vec3 r1 r2 r3) 0.02 in
  updateScatterPos
    (mkParticle o m (vec3 0 0 0) (euler 0 0 0) (vec3 1 1 1) ty
                (r0 * PI * 2) speed (vec3 0 0 0) index)
    index 4000.

(** [update(mode)]: the integrator step of one particle. *)
Definition update `{Orientation} (md : SceneMode) (p : ParticleItem)
  : ParticleItem :=
  let m1 := set_position (mesh p) (lerp (position (mesh p)) (targetPos p) 0.08) in
  let m2 := slerp_quaternion m1 (setFromEuler (targetRot p)) 0.1 in
  let m3 := set_scale m2 (lerp (scale m2) (targetScale p) 0.08) in
  if SceneMode_eqb md SCATTER
  then set_mesh p (add_rotation m3 (x (rotationSpeed p)) (y (rotationSpeed p)) 0)
  else set_mesh p m3.

(** The variables the set-up effect closes over: [modeRef.current]
    ([mode]), the [particles] array, [focusedPhotoIndex], [isMobile] and
    the two steered angles of [mainGroup.rotation]; and [requested], the
    owner's React state [mode] as last written through [onModeChange]. *)
Record State : Type := mkState {
  mode : SceneMode;
  particles : list ParticleItem;
  focusedPhotoIndex : Z;
  isMobile : bool;
  mainGroupRotX : R;
  mainGroupRotY : R;
  requested : SceneMode
}.

Definition set_mode (s : State) (m : SceneMode) : State :=
  mkState m (particles s) (focusedPhotoIndex s) (isMobile s)
          (mainGroupRotX s) (mainGroupRotY s) (requested s).

Definition set_particles (s : State) (ps : list ParticleItem) : State :=
  mkState (mode s) ps (focusedPhotoIndex s) (isMobile s)
          (mainGroupRotX s) (mainGroupRotY s) (requested s).

Definition set_focusedPhotoIndex (s : State) (i : Z) : State :=
  mkState (mode s) (particles s) i (isMobile s)
          (mainGroupRotX s) (mainGroupRotY s) (requested s).

Definition set_mainGroupRot (s : State) (rx ry : R) : State :=
  mkState (mode s) (particles s) (focusedPhotoIndex s) (isMobile s) rx ry
          (requested s).

Definition set_requested (s : State) (m : SceneMode) : State :=
  mkState (mode s) (particles s) (focusedPhotoIndex s) (isMobile s)
          (mainGroupRotX s) (mainGroupRotY s) m.

(** [onModeChange(m)]: React's [setMode] of the owner.  The request is
    recorded; [modeRef.current] is not written. *)
Definition onModeChange (m : SceneMode) (s : State) : State :=
  set_requested s m.

(** The owner has re-rendered and the effect on [mode] runs:
    [modeRef.current = mode]. *)
Definition modeEffect (s : State) : State := set_mode s (requested s).

(** [isMobile ? 800 : 1500] and [isMobile ? 1000 : 2000] *)
Definition particleCount (mobile : bool) : nat :=
  if mobile then 800%nat else 1500%nat.

Definition dustCount (mobile : bool) : nat :=
  if mobile then 1000%nat else 2000%nat.

Definition photos (ps : list ParticleItem) : list ParticleItem :=
  filter isPHOTO ps.

Fixpoint indexOf_from (ps : list ParticleItem) (target : option ParticleItem)
  (i : Z) : Z :=
  match ps with
  | [] => (-1)%Z
  | p :: rest =>
      match target with
      | Some t => if Nat.eqb (oid p) (oid t) then i
                  else indexOf_from rest target (i + 1)%Z
      | None => indexOf_from rest target (i + 1)%Z
      end
  end.

Definition indexOf (ps : list ParticleItem) (target : option ParticleItem) : Z :=
  indexOf_from ps target 0%Z.

(** [addPhotoToScene(tex)] on the [particles] array: the new photo enters
    from below. *)
Definition push_photo (ps : list ParticleItem)
  : Random.M (list ParticleItem) :=
  p <- new_ParticleItem (length ps) newMesh PHOTO (length (photos ps)) ;;
  let p := set_mesh p (set_position (mesh p) (vec3 0 (-100) 0)) in
  Random.ret (ps ++ [p]).

Definition addPhotoToScene (s : State) : Random.M State :=
  ps <- push_photo (particles s) ;;
  Random.ret (set_particles s ps).

(** The loop bodies of the set-up effect; a decoration draws once for its
    material before it is constructed. *)
Definition decor_body (i : nat) (ps : list ParticleItem)
  : Random.M (list ParticleItem) :=
  _ <- Random.random ;;
  p <- new_ParticleItem (length ps) newMesh DECOR i ;;
  Random.ret (ps ++ [p]).

Definition dust_body (i : nat) (ps : list ParticleItem)
  : Random.M (list ParticleItem) :=
  p <- new_ParticleItem (length ps) newMesh DUST i ;;
  Random.ret (ps ++ [p]).

(** The set-up effect: the default photo, the decorations, the dust. *)
Definition init (m : SceneMode) (mobile : bool) : Random.M State :=
  ps <- push_photo [] ;;
  ps <- Random.for_range decor_body 0 (particleCount mobile) ps ;;
  ps <- Random.for_range dust_body 0 (dustCount mobile) ps ;;
  Random.ret (mkState m ps (-1) mobile 0 0 m).

(** The head of [calculateTargets]: choosing or clearing the focus. *)
Definition selectFocus (currentMode : SceneMode) (s : State) : Random.M State :=
  if SceneMode_eqb currentMode FOCUS && (focusedPhotoIndex s =? -1)%Z then
    let ph := photos (particles s) in
    r <- Random.random ;;
    let tgt := JS.get ph (JS.floor (r * INR (length ph))) in
    Random.ret (set_focusedPhotoIndex s (indexOf (particles s) tgt))
  else if negb (SceneMode_eqb currentMode FOCUS) then
    Random.ret (set_focusedPhotoIndex s (-1))
  else Random.ret s.

(** The body of [particles.forEach] in [calculateTargets]. *)
Definition target (mobile : bool) (currentMode : SceneMode) (focused : Z)
  (time : R) (p : ParticleItem) (idx : nat) : ParticleItem :=
  match currentMode with
  | TREE =>
      if isPHOTO p then
        let angle := INR (slotIndex p) * 1.5 + time * 0.5 in
        let radius := 18 + sin (INR (slotIndex p)) * 2 in
        let h := INR (slotIndex p mod 5) * 6 - 8 in
        let p := set_targetPos p (vec3 (cos angle * radius) h
                                       (sin angle * radius)) in
        let p := set_targetRot p (euler 0 (- angle + PI / 2) 0) in
        set_targetScale p (vec3 1 1 1)
      else if isDECOR p then
        let t := INR (slotIndex p) / INR (particleCount mobile) in
        let radius := 13 * (1 - t) in
        let angle := t * 50 * PI + time * 0.2 in
        let p := set_targetPos p (vec3 (cos angle * radius) (t * 32 - 12)
                                       (sin angle * radius)) in
        let p := set_targetRot p (euler 0 angle 0) in
        set_targetScale p (vec3 1 1 1)
      else
        let angle := INR idx * 0.1 + time in
        set_targetPos p (vec3 (cos angle * 22) (sin (INR idx) * 15)
                              (sin angle * 22))
  | SCATTER =>
      let p := set_targetPos p (scatterPos p) in
      set_targetScale p (vec3 (if isPHOTO p then 1.2 else 1)
                              (if isPHOTO p then 1.2 else 1) 1)
  | FOCUS =>
      if (Z.of_nat idx =? focused)%Z then
        let p := set_targetPos p (vec3 0 2 (if mobile then 40 else 35)) in
        let p := set_targetRot p (euler 0 0 0) in
        set_targetScale p (vec3 (if mobile then 3.5 else 4.5)
                                (if mobile then 3.5 else 4.5) 1)
      else
        let p := set_targetPos p (multiplyScalar (scatterPos p) 2.5) in
        set_targetScale p (vec3 0.1 0.1 0.1)
  end.

(** [calculateTargets(currentMode)]; [now] is [performance.now()]. *)
Definition calculateTargets (currentMode : SceneMode) (now : R) (s : State)
  : Random.M State :=
  let time := now * 0.001 in
  s <- selectFocus currentMode s ;;
  Random.ret
    (set_particles s
       (JS.forEach (target (isMobile s) currentMode (focusedPhotoIndex s) time)
                   (particles s))).

Definition pinch (hand : Hand) : R := dist2D (hand 4%nat) (hand 8%nat).

Definition ext (hand : Hand) : R :=
  (dist2D (hand 8%nat) (hand 0%nat) + dist2D (hand 12%nat) (hand 0%nat)) / 2.

(** The gesture branch of [animate], for a detected hand. *)
Definition gestures (hand : Hand) (s : State) : State :=
  if Rlt_dec (pinch hand) 0.04 then onModeChange FOCUS s
  else if Rlt_dec (ext hand) 0.2 then onModeChange TREE s
  else if Rgt_dec (ext hand) 0.35 then onModeChange SCATTER s
  else s.

Definition palmTracking (hand : Hand) (s : State) : State :=
  set_mainGroupRot s
    (JS.lerp (mainGroupRotX s) ((ly (hand 9%nat) - 0.5) * 2) 0.1)
    (JS.lerp (mainGroupRotY s) ((lx (hand 9%nat) - 0.5) * 4) 0.1).

(** One frame of [animate].  [ready] is [handLandmarker && video &&
    video.readyState === 4], both read from [sceneRef.current] (where
    [handLandmarker] is the value stored when the effect ran); [landmarks]
    is the first detected hand, if any. *)
Definition animate `{Orientation} (ready : bool) (landmarks : option Hand)
  (now : R) (s : State) : Random.M State :=
  let s := match (if ready then landmarks else None) with
           | Some hand => gestures hand (palmTracking hand s)
           | None => set_mainGroupRot s (mainGroupRotX s)
                                      (mainGroupRotY s + 0.005)
           end in
  s <- calculateTargets (mode s) now s ;;
  Random.ret (set_particles s (map (update (mode s)) (particles s))).

(** The ['add-photo'] listener, once the texture has loaded. *)
Definition handleAddPhoto (s : State) : Random.M State :=
  s <- addPhotoToScene s ;;
  Random.ret (onModeChange FOCUS s).

(** *** Invariants of the registry and the focus target *)

(** Distinct objects: the particle at index [i] is the [i]-th allocated. *)
Definition heap_ok (ps : list ParticleItem) : Prop :=
  forall i p, nth_error ps i = Some p -> oid p = i.

(** A set focus target ([focusedPhotoIndex >= 0]) is the index of a
    registered PHOTO particle. *)
Definition focus_ok (s : State) : Prop :=
  (0 <= focusedPhotoIndex s)%Z ->
  exists p, nth_error (particles s) (Z.to_nat (focusedPhotoIndex s)) = Some p
            /\ type p = PHOTO.

Definition Inv (s : State) : Prop := heap_ok (particles s) /\ focus_ok s.

End SceneB.

(** ** [src/App.tsx], second half: [class Experience]

    The registry, the mode and [setMode]; [src/unnamed/part_003] declares
    the types. *)

Module Experience.

Import String.StringSyntax.
Local Open Scope string_scope.

Inductive AppMode : Type := TREE | SCATTER | FOCUS.

Definition AppMode_eqb (a b : AppMode) : bool :=
  match a, b with
  | TREE, TREE | SCATTER, SCATTER | FOCUS, FOCUS => true
  | _, _ => false
  end.

Inductive ParticleType : Type :=
  GOLD_BOX | GREEN_BOX | GOLD_SPHERE | RED_SPHERE | CANDY_CANE | PHOTO | DUST.

Record ParticleData : Type := mkParticleData {
  type : ParticleType;
  mesh : Mesh;
  originalPosition : Vector3;
  targetPosition : Vector3;
  velocity : Vector3;
  rotationSpeed : Euler;
  t : R;
  id : String.string
}.

Definition isPHOTO (p : ParticleData) : bool :=
  match type p with PHOTO => true | _ => false end.

Definition set_type (p : ParticleData) (ty : ParticleType) : ParticleData :=
  mkParticleData ty (mesh p) (originalPosition p) (targetPosition p)
                 (velocity p) (rotationSpeed p) (t p) (id p).

(** The fields of an [Experience] the mode logic reads and writes;
    [focusId] is the untyped property [(this as any).focusId]. *)
Record Experience : Type := mkExperience {
  particles : list ParticleData;
  mode : AppMode;
  targetRotation : R * R;
  lastFocusChange : R;
  focusId : option String.string
}.

(** The fields as the constructor leaves them. *)
Definition new : Experience := mkExperience [] TREE (0, 0) 0 None.

Definition set_particles (e : Experience) (ps : list ParticleData) : Experience :=
  mkExperience ps (mode e) (targetRotation e) (lastFocusChange e) (focusId e).

Definition set_mode (e : Experience) (m : AppMode) : Experience :=
  mkExperience (particles e) m (targetRotation e) (lastFocusChange e) (focusId e).

Definition set_lastFocusChange (e : Experience) (now : R) : Experience :=
  mkExperience (particles e) (mode e) (targetRotation e) now (focusId e).

Definition set_focusId (e : Experience) (i : String.string) : Experience :=
  mkExperience (particles e) (mode e) (targetRotation e) (lastFocusChange e)
               (Some i).

(** [photo_${Date.now()}] *)
Definition photoId (dateNow : nat) : String.string :=
  String.append "photo_"
    (DecimalString.NilEmpty.string_of_uint (Nat.to_uint dateNow)).

(** [addPhotoToScene(texture)]; [dateNow] is [Date.now()], the frame mesh
    is a fresh [THREE.Mesh]. *)
Definition addPhotoToScene (dateNow : nat) (e : Experience)
  : Random.M Experience :=
  r <- Random.random ;;
  let pData := mkParticleData PHOTO newMesh (vec3 0 (-10) 0) (vec3 0 0 0)
                              (vec3 0 0 0) (euler 0 0 0) r (photoId dateNow) in
  Random.ret (set_particles e (particles e ++ [pData])).

(** [updateHandData(x, y)] *)
Definition updateHandData (a b : R) (e : Experience) : Experience :=
  mkExperience (particles e) (mode e) (a, b) (lastFocusChange e) (focusId e).

Definition photos (ps : list ParticleData) : list ParticleData :=
  filter isPHOTO ps.

(** [setMode(mode)]; [now] is [performance.now()].  The result is [None]
    when the JavaScript raises ([target.id] of an [undefined] target). *)
Definition setMode (m : AppMode) (now : R) (e : Experience)
  : Random.M (option Experience) :=
  if negb (AppMode_eqb (mode e) m) then
    let e := set_mode e m in
    if AppMode_eqb m FOCUS then
      let e := set_lastFocusChange e now in
      let ph := photos (particles e) in
      if (0 <? length ph)%nat then
        r <- Random.random ;;
        match JS.get ph (JS.floor (r * INR (length ph))) with
        | Some tgt =>
            let e := set_particles e
                       (map (fun p => if String.eqb (id p) (id tgt)
                                      then set_type p PHOTO else p)
                            (particles e)) in
            Random.ret (Some (set_focusId e (id tgt)))
        | None => Random.ret None
        end
      else Random.ret (Some (set_mode e SCATTER))
    else Random.ret (Some e)
  else Random.ret (Some e).

(** In FOCUS, [focusId] is the id of a registered PHOTO particle. *)
Definition Inv (e : Experience) : Prop :=
  mode e = FOCUS ->
  exists p, In p (particles e) /\ type p = PHOTO /\ focusId e = Some (id p).

End Experience.

(** ** [src/unnamed/part_004], second half: [MediaPipeService], and the
    gesture loop of [src/unnamed/part_001] that feeds [Experience] *)

Module MediaPipe.

Import String.StringSyntax.
Local Open Scope string_scope.

(** The object handed to the callback. *)
Record Results : Type := mkResults {
  gesture : String.string;
  center : Landmark
}.

Definition pinchDist (landmarks : Hand) : R :=
  dist3D (landmarks 4%nat) (landmarks 8%nat).

(** [fingerTips.reduce(...) / 3] over landmarks 12, 16 and 20. *)
Definition avgDist (landmarks : Hand) : R :=
  fold_left (fun acc tip => acc + dist2D tip (landmarks 0%nat))
            [landmarks 12%nat; landmarks 16%nat; landmarks 20%nat] 0 / 3.

(** The gesture computed for a detected hand. *)
Definition classify (landmarks : Hand) : String.string :=
  if Rlt_dec (pinchDist landmarks) 0.05 then "PINCH"
  else if Rlt_dec (avgDist landmarks) 0.25 then "FIST"
  else if Rgt_dec (avgDist landmarks) 0.4 then "OPEN"
  else "NONE".

(** [detectGestures(callback)]: the argument the callback receives, if it
    is called at all.  [ready] is [handLandmarker && video &&
    video.readyState >= 2]; the inner [None] is [callback(null)]. *)
Definition detectGestures (ready : bool) (landmarks : option Hand)
  : option (option Results) :=
  if ready then
    match landmarks with
    | Some hand => Some (Some (mkResults (classify hand) (hand 9%nat)))
    | None => Some None
    end
  else None.

(** One conditional [if (gesture === g) experience.setMode(m)] of the loop;
    a raised exception ([None]) ends the callback. *)
Definition trigger (g : String.string) (m : Experience.AppMode)
  (res : Results) (now : R) (e : option Experience.Experience)
  : Random.M (option Experience.Experience) :=
  match e with
  | Some e =>
      if String.eqb (gesture res) g then Experience.setMode m now e
      else Random.ret (Some e)
  | None => Random.ret None
  end.

(** The callback the loop of [part_001] passes to [detectGestures]. *)
Definition onResults (results : option Results) (now : R)
  (e : Experience.Experience) : Random.M (option Experience.Experience) :=
  match results with
  | Some res =>
      let targetRotX := (ly (center res) - 0.5) * 0.5 in
      let targetRotY := (lx (center res) - 0.5) * 1.5 in
      let e := Experience.updateHandData targetRotX targetRotY e in
      e <- trigger "PINCH" Experience.FOCUS res now (Some e) ;;
      e <- trigger "FIST" Experience.TREE res now e ;;
      trigger "OPEN" Experience.SCATTER res now e
  | None => Random.ret (Some e)
  end.

(** One turn of the loop: detect, then run the callback if it is called. *)
Definition loop (ready : bool) (landmarks : option Hand) (now : R)
  (e : Experience.Experience) : Random.M (option Experience.Experience) :=
  match detectGestures ready landmarks with
  | Some results => onResults results now e
  | None => Random.ret (Some e)
  end.

End MediaPipe.

(** ** The specification's wording, for comparison with the code *)

Module Spec.

Import String.StringSyntax.
Local Open Scope string_scope.

Inductive Gesture : Type := NONE | PINCH | FIST | OPEN.

(** "extension = mean(distance(fingerTip_i, wrist)) over the four
    non-thumb fingertips", for a distance [d]. *)
Definition extension (d : Landmark -> Landmark -> R) (hand : Hand) : R :=
  (d (hand 8%nat) (hand 0%nat) + d (hand 12%nat) (hand 0%nat)
   + d (hand 16%nat) (hand 0%nat) + d (hand 20%nat) (hand 0%nat)) / 4.

(** The classifier of section 4.4 for one distance [d] (2D or 3D,
    consistently) and the three thresholds. *)
Definition classify (d : Landmark -> Landmark -> R) (T_pinch T_fist T_open : R)
  (hand : Hand) : Gesture :=
  if Rlt_dec (d (hand 4%nat) (hand 8%nat)) T_pinch then PINCH
  else if Rlt_dec (extension d hand) T_fist then FIST
  else if Rgt_dec (extension d hand) T_open then OPEN
  else NONE.

(** The gesture names as [MediaPipeService] spells them. *)
Definition name (g : Gesture) : String.string :=
  match g with
  | NONE => "NONE"
  | PINCH => "PINCH"
  | FIST => "FIST"
  | OPEN => "OPEN"
  end.

(** The transitions of section 4.5: the mode a gesture requests, if any,
    among the three modes given. *)
Definition requests {M : Type} (tree scatter focus : M) (g : Gesture)
  : option M :=
  match g with
  | PINCH => Some focus
  | FIST => Some tree
  | OPEN => Some scatter
  | NONE => None
  end.

(** The helix of section 4.2: [height = t*H - H/2], [radius = R0*(1-t)]. *)
Definition helixHeight (H t : R) : R := t * H - H / 2.

Definition helixRadius (R0 t : R) : R := R0 * (1 - t).

(** The pole of section 4.1, [(0, radius, 0)]. *)
Definition pole (radius : R) : Vector3 := vec3 0 radius 0.

End Spec.

(** ** Auxiliary predicates and example inputs *)

(** What the registry of [components/Scene.tsx] looks like during set-up:
    distinct objects, no photo, decorations in slots below the bound. *)
Definition setupA (bound : nat) (ps : list SceneA.ParticleItem) : Prop :=
  SceneA.heap_ok ps
  /\ Forall (fun p => SceneA.type p <> SceneA.PHOTO
                      /\ (SceneA.type p = SceneA.DECOR ->
                          (SceneA.slotIndex p < bound)%nat)) ps.

(** A decoration in slot [slot], at rest at the origin. *)
Definition decorA (slot : nat) : SceneA.ParticleItem :=
  SceneA.mkParticle slot newMesh (vec3 0 0 0) (euler 0 0 0) (vec3 1 1 1)
                    SceneA.DECOR (vec3 0 0 0) (vec3 0 0 0) slot None.

(** A photo at rest whose anchor is [(4, 0, 3)]. *)
Definition photoA (o slot : nat) : SceneA.ParticleItem :=
  SceneA.mkParticle o newMesh (vec3 0 0 0) (euler 0 0 0) (vec3 1 1 1)
                    SceneA.PHOTO (vec3 0 0 0) (vec3 4 0 3) slot
                    (Some (SceneA.mkPhotoConfig 18 0 0)).

(** Two consecutive calls of [updateScatterPos] with the same arguments. *)
Definition anchorTwice (ty : SceneB.ParticleType) (index total : nat)
  : Random.M (Vector3 * Vector3) :=
  v1 <- SceneB.anchor ty index total ;;
  v2 <- SceneB.anchor ty index total ;;
  Random.ret (v1, v2).

(** A source whose first draw is 0 and whose later draws are 1/2. *)
Definition zeroThenHalf : Random.source :=
  fun n => match n with O => 0 | S _ => 1 / 2 end.

(** The 2D mean over the three fingertips [MediaPipeService] looks at. *)
Definition meanOfThree (hand : Hand) : R :=
  (dist2D (hand 12%nat) (hand 0%nat) + dist2D (hand 16%nat) (hand 0%nat)
   + dist2D (hand 20%nat) (hand 0%nat)) / 3.

(** A hand with the thumb away from the index tip, the index finger
    stretched out (0.9 from the wrist) and the other three fingers curled in
    (0.2 from the wrist); all landmarks in the image plane. *)
Definition pointingHand : Hand :=
  fun i => match i with
           | 4%nat => landmark 0.9 0.3 0
           | 8%nat => landmark 0.9 0 0
           | 12%nat | 16%nat | 20%nat => landmark 0.2 0 0
           | _ => landmark 0 0 0
           end.

(** A hand whose thumb tip lies 0.1 behind the index tip on the same image
    point, the fingertips 0.3 from the wrist in the image and 0.5 in space. *)
Definition deepHand : Hand :=
  fun i => match i with
           | 4%nat => landmark 0.3 0 0.3
           | 8%nat | 12%nat | 16%nat | 20%nat => landmark 0.3 0 0.4
           | _ => landmark 0 0 0
           end.

(** Same object, same type. *)
Definition sameA (p p' : SceneA.ParticleItem) : Prop :=
  SceneA.oid p' = SceneA.oid p /\ SceneA.type p' = SceneA.type p.

Definition sameB (p p' : SceneB.ParticleItem) : Prop :=
  SceneB.oid p' = SceneB.oid p /\ SceneB.type p' = SceneB.type p.

(** The registry of [part_002] during set-up: distinct objects, the default
    photo first, [n] particles behind it. *)
Definition setupB (p0 : SceneB.ParticleItem) (n : nat)
  (ps : list SceneB.ParticleItem) : Prop :=
  SceneB.heap_ok ps /\ exists rest, ps = p0 :: rest /\ length rest = n.

(** A photo of [part_002] at rest, with the anchor of slot 0. *)
Definition photoB (o slot : nat) : SceneB.ParticleItem :=
  SceneB.mkParticle o newMesh (vec3 0 0 0) (euler 0 0 0) (vec3 1 1 1)
                    SceneB.PHOTO 0 (vec3 0 0 0) (vec3 0 0 22) slot.

(** A hand with every landmark on one point: thumb and index tip touch. *)
Definition pinchingHand : Hand := fun _ => landmark 0.5 0.5 0.

(** ** The frame loop: [requestAnimationFrame(animate)] *)

Module Loop.

(** What one frame reads from outside: whether the tracker and the video
    are ready, the first detected hand if any, and [performance.now()]. *)
Record FrameInput : Type := mkFrameInput {
  ready : bool;
  landmarks : option Hand;
  now : R
}.

(** The hand the gesture branch of a frame gets to see. *)
Definition seen (f : FrameInput) : option Hand :=
  if ready f then landmarks f else None.

(** The successive frames of [components/Scene.tsx]. *)
Fixpoint framesA `{Orientation} (inputs : list FrameInput) (s : SceneA.State)
  : Random.M SceneA.State :=
  match inputs with
  | [] => Random.ret s
  | f :: rest =>
      s <- SceneA.animate (ready f) (landmarks f) (now f) s ;;
      framesA rest s
  end.

(** An ['add-photo'] event in [components/Scene.tsx]: the listener, the
    frames [pre] that run before the owner has re-rendered, the effect on
    [mode], and the frames [post] after it.  The result is the state at the
    effect and the state at the end. *)
Definition uploadA `{Orientation} (pre post : list FrameInput)
  (s : SceneA.State) : Random.M (SceneA.State * SceneA.State) :=
  s0 <- SceneA.handleAddPhoto s ;;
  s1 <- framesA pre s0 ;;
  s3 <- framesA post (SceneA.modeEffect s1) ;;
  Random.ret (s1, s3).

(** The successive frames of [part_002]. *)
Fixpoint framesB `{Orientation} (inputs : list FrameInput) (s : SceneB.State)
  : Random.M SceneB.State :=
  match inputs with
  | [] => Random.ret s
  | f :: rest =>
      s <- SceneB.animate (ready f) (landmarks f) (now f) s ;;
      framesB rest s
  end.

End Loop.

(** ** [src/unnamed/part_004], first half: the scene laid out by index *)

Module SceneC.

Inductive ParticleType : Type := DECOR | PHOTO | DUST.

Record ParticleItem : Type := mkParticle {
  oid : nat;
  mesh : Mesh;
  targetPos : Vector3;
  targetRot : Euler;
  targetScale : Vector3;
  velocity : Vector3;
  type : ParticleType;
  randomOffset : R;
  rotationSpeed : Vector3
}.

Definition isDUST (p : ParticleItem) : bool :=
  match type p with DUST => true | _ => false end.

Definition isPHOTO (p : ParticleItem) : bool :=
  match type p with PHOTO => true | _ => false end.

Definition set_mesh (p : ParticleItem) (m : Mesh) : ParticleItem :=
  mkParticle (oid p) m (targetPos p) (targetRot p) (targetScale p)
             (velocity p) (type p) (randomOffset p) (rotationSpeed p).

Definition set_targetPos (p : ParticleItem) (v : Vector3) : ParticleItem :=
  mkParticle (oid p) (mesh p) v (targetRot p) (targetScale p)
             (velocity p) (type p) (randomOffset p) (rotationSpeed p).

Definition set_targetRot (p : ParticleItem) (e : Euler) : ParticleItem :=
  mkParticle (oid p) (mesh p) (targetPos p) e (targetScale p)
             (velocity p) (type p) (randomOffset p) (rotationSpeed p).

Definition set_targetScale (p : ParticleItem) (v : Vector3) : ParticleItem :=
  mkParticle (oid p) (mesh p) (targetPos p) (targetRot p) v
             (velocity p) (type p) (randomOffset p) (rotationSpeed p).

(** [new ParticleItem(mesh, type)]; [o] is the fresh identity. *)
Definition new_ParticleItem (o : nat) (m : Mesh) (ty : ParticleType)
  : Random.M ParticleItem :=
  v1 <- Random.random ;;
  v2 <- Random.random ;;
  v3 <- Random.random ;;
  let vel := multiplyScalar (vec3 (v1 - 0.5) (v2 - 0.5) (v3 - 0.5)) 0.05 in
  r0 <- Random.random ;;
  r1 <- Random.random ;;
  r2 <- Random.random ;;
  r3 <- Random.random ;;
  let speed := multiplyScalar (vec3 r1 r2 r3) 0.02 in
  Random.ret (mkParticle o m (vec3 0 0 0) (euler 0 0 0) (vec3 1 1 1) vel ty
                         (r0 * PI * 2) speed).

(** [update(mode, isTarget)]; the second argument is not read. *)
Definition update `{Orientation} (md : SceneMode) (isTarget : bool)
  (p : ParticleItem) : ParticleItem :=
  let m1 := set_position (mesh p) (lerp (position (mesh p)) (targetPos p) 0.08) in
  let m2 := slerp_quaternion m1 (setFromEuler (targetRot p)) 0.1 in
  let m3 := set_scale m2 (lerp (scale m2) (targetScale p) 0.08) in
  if SceneMode_eqb md SCATTER
  then set_mesh p (add_rotation m3 (x (rotationSpeed p)) (y (rotationSpeed p))
                                (z (rotationSpeed p)))
  else set_mesh p m3.

(** The variables the set-up effect closes over ([mode] is
    [modeRef.current]), and [requested], the owner's React state [mode] as
    last written through [onModeChange]. *)
Record State : Type := mkState {
  mode : SceneMode;
  particles : list ParticleItem;
  focusedPhotoIndex : Z;
  isMobile : bool;
  mainGroupRotX : R;
  mainGroupRotY : R;
  requested : SceneMode
}.

Definition set_mode (s : State) (m : SceneMode) : State :=
  mkState m (particles s) (focusedPhotoIndex s) (isMobile s)
          (mainGroupRotX s) (mainGroupRotY s) (requested s).

Definition set_particles (s : State) (ps : list ParticleItem) : State :=
  mkState (mode s) ps (focusedPhotoIndex s) (isMobile s)
          (mainGroupRotX s) (mainGroupRotY s) (requested s).

Definition set_focusedPhotoIndex (s : State) (i : Z) : State :=
  mkState (mode s) (particles s) i (isMobile s)
          (mainGroupRotX s) (mainGroupRotY s) (requested s).

Definition set_mainGroupRot (s : State) (rx ry : R) : State :=
  mkState (mode s) (particles s) (focusedPhotoIndex s) (isMobile s) rx ry
          (requested s).

Definition set_requested (s : State) (m : SceneMode) : State :=
  mkState (mode s) (particles s) (focusedPhotoIndex s) (isMobile s)
          (mainGroupRotX s) (mainGroupRotY s) m.

(** [onModeChange(m)]: React's [setMode] of the owner.  The request is
    recorded; [modeRef.current] is not written. *)
Definition onModeChange (m : SceneMode) (s : State) : State :=
  set_requested s m.

(** The owner has re-rendered and the effect on [mode] runs:
    [modeRef.current = mode]. *)
Definition modeEffect (s : State) : State := set_mode s (requested s).

(** [isMobile ? 800 : 1500] and [isMobile ? 1200 : 2500] *)
Definition particleCount (mobile : bool) : nat :=
  if mobile then 800%nat else 1500%nat.

Definition dustCount (mobile : bool) : nat :=
  if mobile then 1200%nat else 2500%nat.

Definition photos (ps : list ParticleItem) : list ParticleItem :=
  filter isPHOTO ps.

Fixpoint indexOf_from (ps : list ParticleItem) (target : option ParticleItem)
  (i : Z) : Z :=
  match ps with
  | [] => (-1)%Z
  | p :: rest =>
      match target with
      | Some t => if Nat.eqb (oid p) (oid t) then i
                  else indexOf_from rest target (i + 1)%Z
      | None => indexOf_from rest target (i + 1)%Z
      end
  end.

Definition indexOf (ps : list ParticleItem) (target : option ParticleItem) : Z :=
  indexOf_from ps target 0%Z.

(** [addPhotoToScene(tex)] on the [particles] array. *)
Definition push_photo (ps : list ParticleItem)
  : Random.M (list ParticleItem) :=
  p <- new_ParticleItem (length ps) newMesh PHOTO ;;
  let p := set_mesh p (set_position (mesh p) (vec3 0 (-50) 0)) in
  Random.ret (ps ++ [p]).

Definition addPhotoToScene (s : State) : Random.M State :=
  ps <- push_photo (particles s) ;;
  Random.ret (set_particles s ps).

(** The loop bodies of the set-up effect: one draw picks the shape of a
    decoration, boxes and spheres draw once more for the material. *)
Definition decor_body (i : nat) (ps : list ParticleItem)
  : Random.M (list ParticleItem) :=
  rand <- Random.random ;;
  _ <- (if Rlt_dec rand 0.7 then Random.random else Random.ret 0) ;;
  p <- new_ParticleItem (length ps) newMesh DECOR ;;
  Random.ret (ps ++ [p]).

Definition dust_body (i : nat) (ps : list ParticleItem)
  : Random.M (list ParticleItem) :=
  p <- new_ParticleItem (length ps) newMesh DUST ;;
  Random.ret (ps ++ [p]).

(** The set-up effect: the default photo, the decorations, the dust. *)
Definition init (m : SceneMode) (mobile : bool) : Random.M State :=
  ps <- push_photo [] ;;
  ps <- Random.for_range decor_body 0 (particleCount mobile) ps ;;
  ps <- Random.for_range dust_body 0 (dustCount mobile) ps ;;
  Random.ret (mkState m ps (-1) mobile 0 0 m).

(** The head of [calculateTargets]: choosing or clearing the focus. *)
Definition selectFocus (currentMode : SceneMode) (s : State) : Random.M State :=
  if SceneMode_eqb currentMode FOCUS && (focusedPhotoIndex s =? -1)%Z then
    let ph := photos (particles s) in
    r <- Random.random ;;
    let tgt := JS.get ph (JS.floor (r * INR (length ph))) in
    Random.ret (set_focusedPhotoIndex s (indexOf (particles s) tgt))
  else if negb (SceneMode_eqb currentMode FOCUS) then
    Random.ret (set_focusedPhotoIndex s (-1))
  else Random.ret s.

(** The point [(radius sin phi cos theta, radius sin phi sin theta,
    radius cos phi)] with [phi = acos(-1 + 2i / n)] and
    [theta = sqrt(n pi) phi]: the spiral over the registry of [n]
    particles, at index [i]. *)
Definition spiral (radius : R) (i n : nat) : Vector3 :=
  let phi := acos (-1 + (2 * INR i) / INR n) in
  let theta := sqrt (INR n * PI) * phi in
  vec3 (radius * sin phi * cos theta) (radius * sin phi * sin theta)
       (radius * cos phi).

(** The body of [particles.forEach] in [calculateTargets]; [n] is
    [particles.length]. *)
Definition target (mobile : bool) (n : nat) (currentMode : SceneMode)
  (focused : Z) (time : R) (p : ParticleItem) (i : nat) : ParticleItem :=
  match currentMode with
  | TREE =>
      if isDUST p then
        let angle := INR i * 0.1 + time * 0.2 in
        let radius := 22 + sin (INR i) * 6 in
        let p := set_targetPos p (vec3 (cos angle * radius)
                                       (sin (INR i * 0.5) * 18)
                                       (sin angle * radius)) in
        set_targetScale p (vec3 1 1 1)
      else
        let treeT := INR (i mod particleCount mobile)
                     / INR (particleCount mobile) in
        let radius := 13 * (1 - treeT) in
        let angle := treeT * 50 * PI in
        let p := set_targetPos p (vec3 (cos angle * radius) (treeT * 32 - 12)
                                       (sin angle * radius)) in
        let p := set_targetRot p (euler 0 angle 0) in
        set_targetScale p (vec3 1 1 1)
  | SCATTER =>
      let radius := if mobile then 12 + INR (i mod 8) else 8 + INR (i mod 12) in
      let p := set_targetPos p (spiral radius i n) in
      set_targetScale p (vec3 1 1 1)
  | FOCUS =>
      if (Z.of_nat i =? focused)%Z then
        let p := set_targetPos p (vec3 0 2 (if mobile then 40 else 35)) in
        let p := set_targetRot p (euler 0 0 0) in
        set_targetScale p (vec3 (if mobile then 3.5 else 4.5)
                                (if mobile then 3.5 else 4.5)
                                (if mobile then 3.5 else 4.5))
      else
        let radius := 35 + INR (i mod 15) in
        let p := set_targetPos p (spiral radius i n) in
        set_targetScale p (vec3 0.15 0.15 0.15)
  end.

(** [calculateTargets(currentMode)]; [now] is [performance.now()]. *)
Definition calculateTargets (currentMode : SceneMode) (now : R) (s : State)
  : Random.M State :=
  let time := now * 0.001 in
  s <- selectFocus currentMode s ;;
  Random.ret
    (set_particles s
       (JS.forEach (target (isMobile s) (length (particles s)) currentMode
                           (focusedPhotoIndex s) time)
                   (particles s))).

Definition pinchDist (hand : Hand) : R := dist2D (hand 4%nat) (hand 8%nat).

Definition avgDist (hand : Hand) : R :=
  (dist2D (hand 8%nat) (hand 0%nat) + dist2D (hand 12%nat) (hand 0%nat)
   + dist2D (hand 16%nat) (hand 0%nat) + dist2D (hand 20%nat) (hand 0%nat)) / 4.

(** [processHand()].  [ready] is [handLandmarker && video &&
    video.readyState === 4]; when it fails the function returns at once. *)
Definition processHand (ready : bool) (landmarks : option Hand) (s : State)
  : State :=
  if ready then
    match landmarks with
    | Some hand =>
        let s := set_mainGroupRot s
                   (JS.lerp (mainGroupRotX s) ((ly (hand 9%nat) - 0.5) * 2.5) 0.1)
                   (JS.lerp (mainGroupRotY s) ((lx (hand 9%nat) - 0.5) * 4.5) 0.1) in
        if Rlt_dec (pinchDist hand) 0.04 then
          if negb (SceneMode_eqb (mode s) FOCUS) then onModeChange FOCUS s else s
        else if Rlt_dec (avgDist hand) 0.2 then
          if negb (SceneMode_eqb (mode s) TREE) then onModeChange TREE s else s
        else if Rgt_dec (avgDist hand) 0.35 then
          if negb (SceneMode_eqb (mode s) SCATTER) then onModeChange SCATTER s
          else s
        else s
    | None =>
        set_mainGroupRot s (JS.lerp (mainGroupRotX s) 0 0.05)
                         (mainGroupRotY s + 0.006)
    end
  else s.

(** One frame of [animate]. *)
Definition animate `{Orientation} (ready : bool) (landmarks : option Hand)
  (now : R) (s : State) : Random.M State :=
  let s := processHand ready landmarks s in
  s <- calculateTargets (mode s) now s ;;
  Random.ret
    (set_particles s
       (JS.forEach (fun p i => update (mode s)
                                      (Z.of_nat i =? focusedPhotoIndex s)%Z p)
                   (particles s))).

(** The ['add-photo'] listener, once the texture has loaded. *)
Definition handleAddPhoto (s : State) : Random.M State :=
  s <- addPhotoToScene s ;;
  Random.ret (onModeChange FOCUS s).

End SceneC.

(** ** [src/App.tsx], second half, continued: the registry set-up and the
    frame of [class Experience] *)

Module ExperienceScene.

Import String.StringSyntax.
Local Open Scope string_scope.

(** [v.normalize()]: [divideScalar(length() || 1)]. *)
Definition normalize (v : Vector3) : Vector3 :=
  let l := sqrt (x v * x v + y v * y v + z v * z v) in
  multiplyScalar v (1 / (if Req_dec_T l 0 then 1 else l)).

Section NumberFormat.

(** [Number.prototype.toString(36)], a built-in taken as given. *)
Variable toString36 : R -> String.string.

(** [Math.random().toString(36).substr(2, 9)] for the draw [r]. *)
Definition newId (r : R) : String.string :=
  String.substring 2 9 (toString36 r).

(** [addParticleData(mesh, type)] *)
Definition addParticleData (m : Mesh) (ty : Experience.ParticleType)
  (e : Experience.Experience) : Random.M Experience.Experience :=
  o1 <- Random.random ;;
  o2 <- Random.random ;;
  o3 <- Random.random ;;
  let original := vec3 ((o1 - 0.5) * 50) ((o2 - 0.5) * 50) ((o3 - 0.5) * 50) in
  v1 <- Random.random ;;
  v2 <- Random.random ;;
  v3 <- Random.random ;;
  s1 <- Random.random ;;
  s2 <- Random.random ;;
  s3 <- Random.random ;;
  t <- Random.random ;;
  i <- Random.random ;;
  let pData :=
    Experience.mkParticleData ty (set_position m original) original
      (vec3 0 0 0) (vec3 (v1 * 0.1) (v2 * 0.1) (v3 * 0.1))
      (euler (s1 * 0.05) (s2 * 0.05) (s3 * 0.05)) t (newId i) in
  Random.ret (Experience.set_particles e (Experience.particles e ++ [pData])).

(** The type and the mesh [createParticles] picks for the draw [typeRand];
    the candy cane is the one mesh scaled down. *)
Definition subject (typeRand : R) : Experience.ParticleType * Mesh :=
  if Rlt_dec typeRand 0.3 then (Experience.GOLD_BOX, newMesh)
  else if Rlt_dec typeRand 0.6 then (Experience.GREEN_BOX, newMesh)
  else if Rlt_dec typeRand 0.8 then (Experience.RED_SPHERE, newMesh)
  else if Rlt_dec typeRand 0.95 then (Experience.GOLD_SPHERE, newMesh)
  else (Experience.CANDY_CANE, set_scale newMesh (vec3 0.3 0.3 0.3)).

Definition subject_body (i : nat) (e : Experience.Experience)
  : Random.M Experience.Experience :=
  typeRand <- Random.random ;;
  addParticleData (snd (subject typeRand)) (fst (subject typeRand)) e.

Definition dust_body (i : nat) (e : Experience.Experience)
  : Random.M Experience.Experience :=
  addParticleData newMesh Experience.DUST e.

(** [createParticles()]: 1500 subject particles, then 2500 dust particles. *)
Definition createParticles (e : Experience.Experience)
  : Random.M Experience.Experience :=
  e <- Random.for_range subject_body 0 1500 e ;;
  Random.for_range dust_body 0 2500 e.

End NumberFormat.

Definition isDUST (p : Experience.ParticleData) : bool :=
  match Experience.type p with Experience.DUST => true | _ => false end.

(** [p.id === this.focusId]; an [undefined] [focusId] equals no id. *)
Definition isTarget (focusId : option String.string)
  (p : Experience.ParticleData) : bool :=
  match focusId with
  | Some f => String.eqb (Experience.id p) f
  | None => false
  end.

(** The [targetPos] and [targetScale] a frame computes for the particle
    [p] at index [i]. *)
Definition targetOf (md : Experience.AppMode) (focusId : option String.string)
  (time : R) (p : Experience.ParticleData) (i : nat) : Vector3 * R :=
  match md with
  | Experience.TREE =>
      if negb (isDUST p) then
        let t := INR i / 1500 in
        let radius := 12 * (1 - t) in
        let angle := t * 50 * PI in
        (vec3 (cos angle * radius) (t * 30 - 15) (sin angle * radius), 1)
      else
        let angle := INR i / 2500 * PI * 2 in
        let r := 15 + sin (time + INR i) * 2 in
        (vec3 (cos angle * r) (sin (time * 0.5 + INR i) * 10) (sin angle * r), 1)
  | Experience.SCATTER =>
      let seed := INR i * 1.5 in
      let r := 8 + INR (i mod 12) in
      (vec3 (cos seed * sin (seed * 0.7) * r)
            (sin seed * sin (seed * 0.3) * r)
            (cos (seed * 0.4) * r), 1)
  | Experience.FOCUS =>
      if isTarget focusId p then (vec3 0 2 35, 4.5)
      else
        (multiplyScalar (normalize (Experience.originalPosition p)) 40, 0.5)
  end.

Definition set_mesh (p : Experience.ParticleData) (m : Mesh)
  : Experience.ParticleData :=
  Experience.mkParticleData (Experience.type p) m
    (Experience.originalPosition p) (Experience.targetPosition p)
    (Experience.velocity p) (Experience.rotationSpeed p) (Experience.t p)
    (Experience.id p).

(** The body of [particles.forEach] in [animate]. *)
Definition step `{Orientation} (md : Experience.AppMode)
  (focusId : option String.string) (time : R) (p : Experience.ParticleData)
  (i : nat) : Experience.ParticleData :=
  let tgt := targetOf md focusId time p i in
  let m0 := if Experience.AppMode_eqb md Experience.SCATTER
            then add_rotation (Experience.mesh p)
                              (ex (Experience.rotationSpeed p))
                              (ey (Experience.rotationSpeed p)) 0
            else Experience.mesh p in
  let m1 := set_position m0 (lerp (position m0) (fst tgt) 0.05) in
  let lerpedScale := JS.lerp (x (scale m1)) (snd tgt) 0.1 in
  set_mesh p (set_scale m1 (vec3 lerpedScale lerpedScale lerpedScale)).

(** An [Experience] with the smoothed rotation its frame keeps;
    [mainGroup.rotation] is a copy of [currentRotation]. *)
Record View : Type := mkView {
  core : Experience.Experience;
  currentRotation : R * R
}.

(** One frame of [animate]; [now] is [performance.now()]. *)
Definition animate `{Orientation} (now : R) (v : View) : View :=
  let time := now * 0.001 in
  let e := core v in
  let cur := currentRotation v in
  let tg := Experience.targetRotation e in
  mkView
    (Experience.set_particles e
       (JS.forEach (step (Experience.mode e) (Experience.focusId e) time)
                   (Experience.particles e)))
    (fst cur + (fst tg - fst cur) * 0.05, snd cur + (snd tg - snd cur) * 0.05).

End ExperienceScene.

(** ** Further auxiliary notions *)

(** [v.length()]: the distance of a point from the origin. *)
Definition vlength (v : Vector3) : R := JS.hypot3 (x v) (y v) (z v).

(** The distance of a point from the vertical axis. *)
Definition axisDistance (v : Vector3) : R := JS.hypot (x v) (z v).

(** The part of a particle of [components/Scene.tsx] that never changes. *)
Definition keyA (p : SceneA.ParticleItem)
  : nat * SceneA.ParticleType * nat * Vector3 * option SceneA.PhotoConfig :=
  (SceneA.oid p, SceneA.type p, SceneA.slotIndex p, SceneA.scatterPos p,
   SceneA.photoConfig p).

(** Landmark 9 of the hand lies in the unit square, as normalized landmarks
    do. *)
Definition palm_normalized (hand : Hand) : Prop :=
  0 <= lx (hand 9%nat) <= 1 /\ 0 <= ly (hand 9%nat) <= 1.

(** What the target of a particle of [Experience] depends on. *)
Definition keyE (p : Experience.ParticleData)
  : Experience.ParticleType * String.string * Vector3 :=
  (Experience.type p, Experience.id p, Experience.originalPosition p).

(** The successive frames of [part_004]. *)
Fixpoint framesC `{Orientation} (inputs : list Loop.FrameInput)
  (s : SceneC.State) : Random.M SceneC.State :=
  match inputs with
  | [] => Random.ret s
  | f :: rest =>
      s <- SceneC.animate (Loop.ready f) (Loop.landmarks f) (Loop.now f) s ;;
      framesC rest s
  end.

(** The registry of [part_002] during set-up: the default photo [p0]
    first, then [k] particles, the first [n] of them decorations carrying
    their rank as slot index, the rest dust carrying their rank among the
    dust. *)
Definition censusB (p0 : SceneB.ParticleItem) (n k : nat)
  (ps : list SceneB.ParticleItem) : Prop :=
  exists rest,
    ps = p0 :: rest /\ length rest = k
    /\ forall j p, nth_error rest j = Some p ->
                   SceneB.type p = (if (j <? n)%nat then SceneB.DECOR
                                    else SceneB.DUST)
                   /\ SceneB.slotIndex p = (if (j <? n)%nat then j
                                            else (j - n)%nat).

(** The registry of [part_004] during set-up: the default photo [p0]
    first, then [k] particles, each the next object allocated, the first
    [n] of them decorations and the rest dust. *)
Definition censusC (p0 : SceneC.ParticleItem) (n k : nat)
  (ps : list SceneC.ParticleItem) : Prop :=
  exists rest,
    ps = p0 :: rest /\ length rest = k
    /\ forall j p, nth_error rest j = Some p ->
                   SceneC.oid p = S j
                   /\ SceneC.type p = if (j <? n)%nat then SceneC.DECOR
                                      else SceneC.DUST.

(** ** A session of [Experience]

    The callbacks that reach an [Experience] once it is built: a turn of
    the gesture loop of [part_001], a frame of [animate], and the texture
    loader's callback of an upload.  Each runs to completion before the
    next one starts. *)

Module Session.

Inductive Event : Type :=
  | Turn (ready : bool) (landmarks : option Hand) (now : R)
  | Frame (now : R)
  | Upload (dateNow : nat).

(** One callback; [None] when it raises. *)
Definition handle `{Orientation} (ev : Event) (v : ExperienceScene.View)
  : Random.M (option ExperienceScene.View) :=
  match ev with
  | Turn ready landmarks now =>
      oe <- MediaPipe.loop ready landmarks now (ExperienceScene.core v) ;;
      Random.ret
        (option_map
           (fun e => ExperienceScene.mkView e (ExperienceScene.currentRotation v))
           oe)
  | Frame now => Random.ret (Some (ExperienceScene.animate now v))
  | Upload dateNow =>
      e <- Experience.addPhotoToScene dateNow (ExperienceScene.core v) ;;
      Random.ret
        (Some (ExperienceScene.mkView e (ExperienceScene.currentRotation v)))
  end.

(** The callbacks in the order they run, up to the first that raises. *)
Fixpoint run `{Orientation} (events : list Event) (v : ExperienceScene.View)
  : Random.M (option ExperienceScene.View) :=
  match events with
  | [] => Random.ret (Some v)
  | ev :: rest =>
      ov <- handle ev v ;;
      match ov with
      | Some v' => run rest v'
      | None => Random.ret None
      end
  end.

Definition isUpload (ev : Event) : bool :=
  match ev with Upload _ => true | _ => false end.

(** The hand a turn of the loop gets to see. *)
Definition hand_of (ev : Event) : option Hand :=
  match ev with
  | Turn true (Some hand) _ => Some hand
  | _ => None
  end.

End Session.

(** The rotation the gesture loop can ask for with a palm in the unit
    square. *)
Definition rotation_in_range (r : R * R) : Prop :=
  -0.25 <= fst r <= 0.25 /\ -0.75 <= snd r <= 0.75.

(** An orientation arithmetic in which nothing turns, for concrete runs. *)
Definition stillOrientation : Orientation :=
  Build_Orientation (fun _ => quat 0 0 0 1) (fun _ => euler 0 0 0)
                    (fun a _ _ => a).

(** The successive frames of [Experience.animate], one per time stamp. *)
Fixpoint framesE `{Orientation} (nows : list R) (v : ExperienceScene.View)
  : ExperienceScene.View :=
  match nows with
  | [] => v
  | now :: rest => framesE rest (ExperienceScene.animate now v)
  end.

(** The registry while [createParticles] runs on an empty one: [n]
    particles, the first 1500 neither dust nor photo, the rest dust. *)
Definition censusE (e0 : Experience.Experience) (n : nat)
  (e : Experience.Experience) : Prop :=
  length (Experience.particles e) = n
  /\ Experience.mode e = Experience.mode e0
  /\ Experience.focusId e = Experience.focusId e0
  /\ forall k p,
       nth_error (Experience.particles e) k = Some p ->
       ((k < 1500)%nat -> Experience.type p <> Experience.DUST
                          /\ Experience.type p <> Experience.PHOTO)
       /\ ((1500 <= k)%nat -> Experience.type p = Experience.DUST).

(** * Properties *)

(** ** The random source *)

Lemma fair_tail (rs : Random.source) :
  Random.fair rs -> Random.fair (fun n => rs (S n)).
Proof. intros Hf n. apply Hf. Qed.

Lemma fair_const (r : R) : 0 <= r < 1 -> Random.fair (Random.const r).
Proof. intros Hr n. exact Hr. Qed.

Lemma bind_run {A B : Type} (c : Random.M A) (k : A -> Random.M B)
  (rs : Random.source) :
  Random.bind c k rs = k (fst (c rs)) (snd (c rs)).
Proof. unfold Random.bind. destruct (c rs); reflexivity. Qed.

(** A loop invariant for [for_range]: what every pass preserves holds at
    the end. *)
Lemma for_range_invariant {A : Type} (P : nat -> A -> Prop)
  (body : nat -> A -> Random.M A) :
  (forall i acc rs, P i acc -> P (S i) (fst (body i acc rs))) ->
  forall n i acc rs,
    P i acc -> P (i + n)%nat (fst (Random.for_range body i n acc rs)).
Proof.
  intros Hbody n. induction n as [|n IH]; intros i acc rs HP; simpl.
  - rewrite Nat.add_0_r. exact HP.
  - rewrite bind_run. replace (i + S n)%nat with (S i + n)%nat by lia.
    apply IH. apply Hbody. exact HP.
Qed.

(** ** [forEach] *)

Lemma forEach_from_length {A : Type} (f : A -> nat -> A) (l : list A) :
  forall i, length (JS.forEach_from f i l) = length l.
Proof. induction l as [|a l IH]; intros i; simpl; [|rewrite IH]; reflexivity. Qed.

Lemma forEach_from_nth {A : Type} (f : A -> nat -> A) (l : list A) :
  forall i k,
    nth_error (JS.forEach_from f i l) k
    = option_map (fun p => f p (i + k)%nat) (nth_error l k).
Proof.
  induction l as [|a l IH]; intros i k; destruct k as [|k]; simpl; trivial.
  - rewrite Nat.add_0_r. reflexivity.
  - rewrite IH. replace (S i + k)%nat with (i + S k)%nat by lia. reflexivity.
Qed.

Lemma forEach_length {A : Type} (f : A -> nat -> A) (l : list A) :
  length (JS.forEach f l) = length l.
Proof. apply forEach_from_length. Qed.

Lemma forEach_nth {A : Type} (f : A -> nat -> A) (l : list A) (k : nat) :
  nth_error (JS.forEach f l) k = option_map (fun p => f p k) (nth_error l k).
Proof. unfold JS.forEach. rewrite forEach_from_nth. reflexivity. Qed.

Lemma forEach_In {A : Type} (f : A -> nat -> A) (l : list A) (q : A) :
  In q (JS.forEach f l) ->
  exists k p, nth_error l k = Some p /\ q = f p k.
Proof.
  intros Hin. apply In_nth_error in Hin. destruct Hin as [k Hk].
  rewrite forEach_nth in Hk. destruct (nth_error l k) as [p|] eqn:E.
  - exists k, p. split; [exact E|]. cbn [option_map] in Hk. congruence.
  - discriminate.
Qed.

(** ** Linear interpolation contracts the distance to its target *)

Lemma sqrt_scale (a S : R) : 0 <= a -> 0 <= S -> sqrt (a * a * S) = a * sqrt S.
Proof.
  intros Ha HS. rewrite sqrt_mult by nra. rewrite sqrt_square by exact Ha.
  reflexivity.
Qed.

Lemma lerp_distance (v w : Vector3) (alpha : R) :
  0 <= alpha <= 1 ->
  distanceTo (lerp v w alpha) w = (1 - alpha) * distanceTo v w.
Proof.
  intros Ha. unfold distanceTo, lerp; simpl.
  set (dx := x v - x w). set (dy := y v - y w). set (dz := z v - z w).
  rewrite <- (sqrt_scale (1 - alpha) (dx * dx + dy * dy + dz * dz)).
  - f_equal. unfold dx, dy, dz. ring.
  - lra.
  - assert (0 <= dx * dx) by nra. assert (0 <= dy * dy) by nra.
    assert (0 <= dz * dz) by nra. lra.
Qed.

Lemma distanceTo_nonneg (v w : Vector3) : 0 <= distanceTo v w.
Proof. apply sqrt_pos. Qed.

(** ** The integrator *)

Section Integrator.

Context `{Orientation}.

Lemma updateA_position (md : SceneMode) (p : SceneA.ParticleItem) :
  position (SceneA.mesh (SceneA.update md p))
  = lerp (position (SceneA.mesh p)) (SceneA.targetPos p) 0.07.
Proof. unfold SceneA.update. destruct (SceneMode_eqb md SCATTER); reflexivity. Qed.

Lemma updateA_scale (md : SceneMode) (p : SceneA.ParticleItem) :
  scale (SceneA.mesh (SceneA.update md p))
  = lerp (scale (SceneA.mesh p)) (SceneA.targetScale p) 0.07.
Proof. unfold SceneA.update. destruct (SceneMode_eqb md SCATTER); reflexivity. Qed.

(** [update] writes the mesh only: the target, the type, the identity and
    the anchor of the particle stay. *)
Lemma updateA_frame (md : SceneMode) (p : SceneA.ParticleItem) :
  SceneA.targetPos (SceneA.update md p) = SceneA.targetPos p
  /\ SceneA.targetScale (SceneA.update md p) = SceneA.targetScale p
  /\ SceneA.type (SceneA.update md p) = SceneA.type p
  /\ SceneA.oid (SceneA.update md p) = SceneA.oid p.
Proof.
  unfold SceneA.update. destruct (SceneMode_eqb md SCATTER); repeat split.
Qed.

Lemma updateB_position (md : SceneMode) (p : SceneB.ParticleItem) :
  position (SceneB.mesh (SceneB.update md p))
  = lerp (position (SceneB.mesh p)) (SceneB.targetPos p) 0.08.
Proof. unfold SceneB.update. destruct (SceneMode_eqb md SCATTER); reflexivity. Qed.

Lemma updateB_scale (md : SceneMode) (p : SceneB.ParticleItem) :
  scale (SceneB.mesh (SceneB.update md p))
  = lerp (scale (SceneB.mesh p)) (SceneB.targetScale p) 0.08.
Proof. unfold SceneB.update. destruct (SceneMode_eqb md SCATTER); reflexivity. Qed.

Lemma updateB_frame (md : SceneMode) (p : SceneB.ParticleItem) :
  SceneB.targetPos (SceneB.update md p) = SceneB.targetPos p
  /\ SceneB.targetScale (SceneB.update md p) = SceneB.targetScale p
  /\ SceneB.type (SceneB.update md p) = SceneB.type p
  /\ SceneB.oid (SceneB.update md p) = SceneB.oid p.
Proof.
  unfold SceneB.update. destruct (SceneMode_eqb md SCATTER); repeat split.
Qed.

(** After [N] steps of [SceneA.update] the remaining distances are exactly
    the initial ones times [(1 - 0.07)^N]. *)
Lemma updateA_iter (md : SceneMode) (p : SceneA.ParticleItem) (N : nat) :
  let q := Nat.iter N (SceneA.update md) p in
  SceneA.targetPos q = SceneA.targetPos p
  /\ SceneA.targetScale q = SceneA.targetScale p
  /\ distanceTo (position (SceneA.mesh q)) (SceneA.targetPos p)
     = distanceTo (position (SceneA.mesh p)) (SceneA.targetPos p)
       * (1 - 0.07) ^ N
  /\ distanceTo (scale (SceneA.mesh q)) (SceneA.targetScale p)
     = distanceTo (scale (SceneA.mesh p)) (SceneA.targetScale p)
       * (1 - 0.07) ^ N.
Proof.
  induction N as [|N IH]; simpl.
  - repeat split; ring.
  - destruct IH as (Ht & Hs & Hp & Hsc).
    destruct (updateA_frame md (Nat.iter N (SceneA.update md) p))
      as (Et & Es & _ & _).
    rewrite Et, Es, updateA_position, updateA_scale, Ht, Hs.
    rewrite !lerp_distance by lra. rewrite Hp, Hsc.
    repeat split; ring.
Qed.

Lemma updateB_iter (md : SceneMode) (p : SceneB.ParticleItem) (N : nat) :
  let q := Nat.iter N (SceneB.update md) p in
  SceneB.targetPos q = SceneB.targetPos p
  /\ SceneB.targetScale q = SceneB.targetScale p
  /\ distanceTo (position (SceneB.mesh q)) (SceneB.targetPos p)
     = distanceTo (position (SceneB.mesh p)) (SceneB.targetPos p)
       * (1 - 0.08) ^ N
  /\ distanceTo (scale (SceneB.mesh q)) (SceneB.targetScale p)
     = distanceTo (scale (SceneB.mesh p)) (SceneB.targetScale p)
       * (1 - 0.08) ^ N.
Proof.
  induction N as [|N IH]; simpl.
  - repeat split; ring.
  - destruct IH as (Ht & Hs & Hp & Hsc).
    destruct (updateB_frame md (Nat.iter N (SceneB.update md) p))
      as (Et & Es & _ & _).
    rewrite Et, Es, updateB_position, updateB_scale, Ht, Hs.
    rewrite !lerp_distance by lra. rewrite Hp, Hsc.
    repeat split; ring.
Qed.

(** C7 (convergence).  For every particle, every mode and every number [N]
    of consecutive integrator steps towards the particle's fixed target, the
    distance from the current position to the target position, and from the
    current scale to the target scale, is at most the initial distance times
    [(1 - alpha)^N], where [alpha] is the blend factor of the code: 0.07 in
    [components/Scene.tsx], 0.08 in [part_002]. *)
Theorem integrator_convergence (md : SceneMode) (N : nat) :
  (forall p : SceneA.ParticleItem,
      let q := Nat.iter N (SceneA.update md) p in
      distanceTo (position (SceneA.mesh q)) (SceneA.targetPos p)
      <= distanceTo (position (SceneA.mesh p)) (SceneA.targetPos p)
         * (1 - 0.07) ^ N
      /\ distanceTo (scale (SceneA.mesh q)) (SceneA.targetScale p)
         <= distanceTo (scale (SceneA.mesh p)) (SceneA.targetScale p)
            * (1 - 0.07) ^ N)
  /\ (forall p : SceneB.ParticleItem,
      let q := Nat.iter N (SceneB.update md) p in
      distanceTo (position (SceneB.mesh q)) (SceneB.targetPos p)
      <= distanceTo (position (SceneB.mesh p)) (SceneB.targetPos p)
         * (1 - 0.08) ^ N
      /\ distanceTo (scale (SceneB.mesh q)) (SceneB.targetScale p)
         <= distanceTo (scale (SceneB.mesh p)) (SceneB.targetScale p)
            * (1 - 0.08) ^ N).
Proof.
  split; intros p q.
  - destruct (updateA_iter md p N) as (_ & _ & Hp & Hs).
    subst q. rewrite Hp, Hs. split; apply Rle_refl.
  - destruct (updateB_iter md p N) as (_ & _ & Hp & Hs).
    subst q. rewrite Hp, Hs. split; apply Rle_refl.
Qed.

End Integrator.

(** ** Constructors and the set-up loops *)

Ltac run := repeat rewrite bind_run; unfold Random.ret; cbn [fst snd].

Lemma newA_fields (o : nat) (m : Mesh) (ty : SceneA.ParticleType) (i : nat)
  (rs : Random.source) :
  let p := fst (SceneA.new_ParticleItem o m ty i rs) in
  SceneA.oid p = o /\ SceneA.type p = ty /\ SceneA.slotIndex p = i
  /\ SceneA.mesh p = m.
Proof. unfold SceneA.new_ParticleItem. run. repeat split. Qed.

Lemma newB_fields (o : nat) (m : Mesh) (ty : SceneB.ParticleType) (i : nat)
  (rs : Random.source) :
  let p := fst (SceneB.new_ParticleItem o m ty i rs) in
  SceneB.oid p = o /\ SceneB.type p = ty /\ SceneB.slotIndex p = i
  /\ SceneB.mesh p = m.
Proof.
  unfold SceneB.new_ParticleItem, SceneB.updateScatterPos. run. repeat split.
Qed.

Lemma heapA_push (ps : list SceneA.ParticleItem) (p : SceneA.ParticleItem) :
  SceneA.heap_ok ps -> SceneA.oid p = length ps -> SceneA.heap_ok (ps ++ [p]).
Proof.
  intros Hh Ho i q Hq. destruct (Nat.lt_ge_cases i (length ps)) as [Hi|Hi].
  - rewrite nth_error_app1 in Hq by exact Hi. apply Hh; exact Hq.
  - rewrite nth_error_app2 in Hq by exact Hi.
    destruct (i - length ps)%nat as [|k] eqn:E; simpl in Hq.
    + inversion Hq; subst q. lia.
    + destruct k; discriminate.
Qed.

Lemma setupA_weaken (b b' : nat) (ps : list SceneA.ParticleItem) :
  (b <= b')%nat -> setupA b ps -> setupA b' ps.
Proof.
  intros Hb [Hh Hf]. split; [exact Hh|].
  eapply Forall_impl; [|exact Hf]. simpl. intros p [Hp Hs]. split; [exact Hp|].
  intros Hd. specialize (Hs Hd). lia.
Qed.

Lemma decorA_body_setup (i : nat) (ps : list SceneA.ParticleItem)
  (rs : Random.source) :
  setupA i ps -> setupA (S i) (fst (SceneA.decor_body i ps rs)).
Proof.
  intros Hs. apply (setupA_weaken i (S i)) in Hs; [|lia]. destruct Hs as [Hh Hf].
  unfold SceneA.decor_body. run.
  match goal with |- setupA _ (_ ++ [fst (SceneA.new_ParticleItem ?o ?m ?ty ?k ?r)]) =>
    destruct (newA_fields o m ty k r) as (Eo & Et & Es & _) end.
  split.
  - apply heapA_push; assumption.
  - apply Forall_app. split; [exact Hf|]. constructor; [|constructor].
    rewrite Et, Es. split; [discriminate | intros _; lia].
Qed.

Lemma dustA_body_setup (b i : nat) (ps : list SceneA.ParticleItem)
  (rs : Random.source) :
  setupA b ps -> setupA b (fst (SceneA.dust_body i ps rs)).
Proof.
  intros [Hh Hf]. unfold SceneA.dust_body. run.
  match goal with |- setupA _ (_ ++ [fst (SceneA.new_ParticleItem ?o ?m ?ty ?k ?r)]) =>
    destruct (newA_fields o m ty k r) as (Eo & Et & Es & _) end.
  split.
  - apply heapA_push; assumption.
  - apply Forall_app. split; [exact Hf|]. constructor; [|constructor].
    rewrite Et. split; discriminate.
Qed.

(** The state [init] returns, spelled out. *)
Lemma initA_run (m : SceneMode) (rs : Random.source) :
  exists ps, fst (SceneA.init m rs) = SceneA.mkState m ps (-1) 0 0 m
             /\ setupA 1500 ps.
Proof.
  unfold SceneA.init. run. eexists. split; [reflexivity|].
  apply (for_range_invariant (fun _ => setupA 1500)).
  - intros i acc r. apply dustA_body_setup.
  - apply (for_range_invariant setupA SceneA.decor_body decorA_body_setup
             1500 0%nat []).
    split; [intros i p Hp; destruct i; discriminate | constructor].
Qed.

(** The census of the registry after set-up: 1500 decorations among 4000
    particles. *)
Lemma filter_push {A : Type} (f : A -> bool) (l : list A) (a : A) :
  length (filter f (l ++ [a]))
  = (length (filter f l) + if f a then 1 else 0)%nat.
Proof.
  rewrite filter_app, length_app. simpl. destruct (f a); reflexivity.
Qed.

Lemma initA_census (m : SceneMode) (rs : Random.source) :
  length (SceneA.particles (fst (SceneA.init m rs))) = 4000%nat
  /\ length (filter SceneA.isDECOR (SceneA.particles (fst (SceneA.init m rs))))
     = 1500%nat.
Proof.
  unfold SceneA.init. run. cbn [SceneA.particles].
  set (census := fun (d n : nat) (ps : list SceneA.ParticleItem) =>
                   length ps = n /\ length (filter SceneA.isDECOR ps) = d).
  assert (Hd : forall i acc r, census i i acc ->
                 census (S i) (S i) (fst (SceneA.decor_body i acc r))).
  { intros i acc r [Hl Hc]. unfold SceneA.decor_body. run.
    match goal with |- census _ _ (_ ++ [fst (SceneA.new_ParticleItem ?o ?mm ?ty ?k ?r0)]) =>
      destruct (newA_fields o mm ty k r0) as (_ & Et & _) end.
    split; [rewrite length_app; simpl; lia|].
    rewrite filter_push. unfold SceneA.isDECOR at 2. rewrite Et. lia. }
  assert (Hu : forall i acc r, census 1500%nat (1500 + i)%nat acc ->
                 census 1500%nat (1500 + S i)%nat
                        (fst (SceneA.dust_body i acc r))).
  { intros i acc r [Hl Hc]. unfold SceneA.dust_body. run.
    match goal with |- census _ _ (_ ++ [fst (SceneA.new_ParticleItem ?o ?mm ?ty ?k ?r0)]) =>
      destruct (newA_fields o mm ty k r0) as (_ & Et & _) end.
    split; [rewrite length_app; simpl; lia|].
    rewrite filter_push. unfold SceneA.isDECOR at 2. rewrite Et. lia. }
  apply (for_range_invariant (fun i => census 1500%nat (1500 + i)%nat)
           SceneA.dust_body Hu 2500 0%nat).
  apply (for_range_invariant (fun i => census i i) SceneA.decor_body Hd
           1500 0%nat []).
  split; reflexivity.
Qed.

Lemma no_photo_filter (ps : list SceneA.ParticleItem) :
  Forall (fun p => SceneA.type p <> SceneA.PHOTO) ps -> SceneA.photos ps = [].
Proof.
  induction 1 as [|p ps Hp _ IH]; simpl; [reflexivity|].
  unfold SceneA.isPHOTO. destruct (SceneA.type p); try exact IH. congruence.
Qed.

(** At set-up [components/Scene.tsx] registers no photo. *)
Lemma initA_no_photos (m : SceneMode) (rs : Random.source) :
  SceneA.photos (SceneA.particles (fst (SceneA.init m rs))) = [].
Proof.
  destruct (initA_run m rs) as (ps & E & _ & Hf). rewrite E. simpl.
  apply no_photo_filter. eapply Forall_impl; [|exact Hf]. simpl. tauto.
Qed.

(** ** The target solver *)

Lemma INR_below (n b : nat) : (n < b)%nat -> 0 <= INR n < INR b.
Proof. intros Hn. split; [apply pos_INR | apply lt_INR; exact Hn]. Qed.

Lemma INR_1500 : INR 1500 = 1500.
Proof. rewrite INR_IZR_INZ. reflexivity. Qed.

Lemma INR_800 : INR 800 = 800.
Proof. rewrite INR_IZR_INZ. reflexivity. Qed.

Lemma INR_small (n : nat) (k : Z) : Z.of_nat n = k -> INR n = IZR k.
Proof. intros <-. apply INR_IZR_INZ. Qed.

Lemma ratio_unit (i n : nat) :
  (0 < n)%nat -> (i <= n)%nat -> 0 <= INR i / INR n <= 1.
Proof.
  intros Hn Hi. apply lt_0_INR in Hn. apply le_INR in Hi.
  pose proof (pos_INR i) as H0. split.
  - apply Rmult_le_pos; [exact H0 | apply Rlt_le, Rinv_0_lt_compat; exact Hn].
  - apply (Rmult_le_reg_r (INR n)); [exact Hn|].
    unfold Rdiv. rewrite Rmult_assoc, Rinv_l by lra. lra.
Qed.

(** A point of the circle of radius [r] is at horizontal distance [r]. *)
Lemma hypot_circle (a r : R) : 0 <= r -> JS.hypot (cos a * r) (sin a * r) = r.
Proof.
  intros Hr. unfold JS.hypot.
  replace (cos a * r * (cos a * r) + sin a * r * (sin a * r))
    with ((Rsqr (sin a) + Rsqr (cos a)) * (r * r)) by (unfold Rsqr; ring).
  rewrite sin2_cos2, Rmult_1_l. apply sqrt_square; exact Hr.
Qed.

(** [target] rewrites the three target fields only. *)
Lemma targetA_frame (md : SceneMode) (f : Z) (time : R)
  (p : SceneA.ParticleItem) (idx : nat) :
  let p' := SceneA.target md f time p idx in
  SceneA.oid p' = SceneA.oid p /\ SceneA.type p' = SceneA.type p
  /\ SceneA.mesh p' = SceneA.mesh p /\ SceneA.scatterPos p' = SceneA.scatterPos p
  /\ SceneA.slotIndex p' = SceneA.slotIndex p.
Proof.
  unfold SceneA.target. destruct md.
  - destruct (SceneA.isDECOR p); [repeat split|].
    destruct (if SceneA.isPHOTO p then SceneA.photoConfig p else None);
      repeat split.
  - repeat split.
  - destruct (Z.of_nat idx =? f)%Z; repeat split.
Qed.

Lemma targetB_frame (mob : bool) (md : SceneMode) (f : Z) (time : R)
  (p : SceneB.ParticleItem) (idx : nat) :
  let p' := SceneB.target mob md f time p idx in
  SceneB.oid p' = SceneB.oid p /\ SceneB.type p' = SceneB.type p
  /\ SceneB.mesh p' = SceneB.mesh p /\ SceneB.scatterPos p' = SceneB.scatterPos p
  /\ SceneB.slotIndex p' = SceneB.slotIndex p.
Proof.
  unfold SceneB.target. destruct md.
  - destruct (SceneB.isPHOTO p); [repeat split|].
    destruct (SceneB.isDECOR p); repeat split.
  - repeat split.
  - destruct (Z.of_nat idx =? f)%Z; repeat split.
Qed.

(** The helix of [components/Scene.tsx]. *)
Lemma treeA_decor (f : Z) (time : R) (p : SceneA.ParticleItem) (idx : nat) :
  SceneA.type p = SceneA.DECOR ->
  (SceneA.slotIndex p < 1500)%nat ->
  let t := INR (SceneA.slotIndex p) / 1500 in
  let angle := t * 50 * PI + time * 0.5 in
  let v := SceneA.targetPos (SceneA.target TREE f time p idx) in
  v = vec3 (cos angle * Spec.helixRadius 13 t) (t * 32 - 15)
           (sin angle * Spec.helixRadius 13 t)
  /\ -15 <= y v < 17
  /\ 0 < JS.hypot (x v) (z v) <= 13.
Proof.
  intros Ht Hs t angle v.
  assert (Hv : v = vec3 (cos angle * Spec.helixRadius 13 t) (t * 32 - 15)
                        (sin angle * Spec.helixRadius 13 t)).
  { unfold v, SceneA.target, SceneA.isDECOR. rewrite Ht. reflexivity. }
  apply INR_below in Hs. rewrite INR_1500 in Hs.
  assert (Hr : 0 <= t < 1) by (unfold t; lra).
  split; [exact Hv|]. rewrite Hv. cbn [x y z].
  rewrite hypot_circle by (unfold Spec.helixRadius; lra).
  unfold Spec.helixRadius. lra.
Qed.

(** The helix of [part_002]. *)
Lemma treeB_decor (mob : bool) (f : Z) (time : R) (p : SceneB.ParticleItem)
  (idx : nat) :
  SceneB.type p = SceneB.DECOR ->
  (SceneB.slotIndex p < SceneB.particleCount mob)%nat ->
  let t := INR (SceneB.slotIndex p) / INR (SceneB.particleCount mob) in
  let angle := t * 50 * PI + time * 0.2 in
  let v := SceneB.targetPos (SceneB.target mob TREE f time p idx) in
  v = vec3 (cos angle * Spec.helixRadius 13 t) (t * 32 - 12)
           (sin angle * Spec.helixRadius 13 t)
  /\ -12 <= y v < 20
  /\ 0 < JS.hypot (x v) (z v) <= 13.
Proof.
  intros Ht Hs t angle v.
  assert (Hv : v = vec3 (cos angle * Spec.helixRadius 13 t) (t * 32 - 12)
                        (sin angle * Spec.helixRadius 13 t)).
  { unfold v, SceneB.target, SceneB.isPHOTO, SceneB.isDECOR. rewrite Ht.
    reflexivity. }
  apply INR_below in Hs.
  assert (Hc : 0 < INR (SceneB.particleCount mob)).
  { destruct mob; simpl SceneB.particleCount; rewrite ?INR_800, ?INR_1500; lra. }
  assert (Hr : 0 <= t < 1).
  { unfold t. split.
    - apply Rmult_le_pos; [lra | apply Rlt_le, Rinv_0_lt_compat; exact Hc].
    - apply (Rmult_lt_reg_r (INR (SceneB.particleCount mob))); [exact Hc|].
      unfold Rdiv. rewrite Rmult_assoc, Rinv_l by lra. lra. }
  split; [exact Hv|]. rewrite Hv. cbn [x y z].
  rewrite hypot_circle by (unfold Spec.helixRadius; lra).
  unfold Spec.helixRadius. lra.
Qed.

Lemma calculateTargetsA_particles (now : R) (s : SceneA.State) :
  SceneA.particles (SceneA.calculateTargets now s)
  = JS.forEach (SceneA.target (SceneA.mode s) (SceneA.focusedPhotoIndex s)
                              (now * 0.001))
               (SceneA.particles s).
Proof. reflexivity. Qed.

(** ** The set-up of [part_002] *)

Lemma censusB_push (p0 p : SceneB.ParticleItem) (n k : nat)
  (ps : list SceneB.ParticleItem) :
  censusB p0 n k ps ->
  SceneB.type p = (if (k <? n)%nat then SceneB.DECOR else SceneB.DUST) ->
  SceneB.slotIndex p = (if (k <? n)%nat then k else (k - n)%nat) ->
  censusB p0 n (S k) (ps ++ [p]).
Proof.
  intros (rest & -> & Hl & Hc) Ht Hs. exists (rest ++ [p]).
  split; [reflexivity|]. split; [rewrite length_app; simpl; lia|].
  intros j q Hq.
  destruct (Nat.lt_ge_cases j (length rest)) as [Hlt|Hge].
  - rewrite nth_error_app1 in Hq by exact Hlt. apply Hc. exact Hq.
  - rewrite nth_error_app2 in Hq by exact Hge.
    destruct (j - length rest)%nat as [|d] eqn:Ed.
    + simpl in Hq. injection Hq as <-.
      assert (j = k) by lia. subst j. split; assumption.
    + simpl in Hq. destruct d; discriminate.
Qed.

Lemma censusB_widen (p0 : SceneB.ParticleItem) (k : nat)
  (ps : list SceneB.ParticleItem) (n : nat) :
  censusB p0 k k ps -> (k <= n)%nat -> censusB p0 n k ps.
Proof.
  intros (rest & -> & Hl & Hc) Hle. exists rest.
  split; [reflexivity|]. split; [exact Hl|].
  intros j p Hj. destruct (Hc j p Hj) as [Ht Hs].
  assert (Hlt : (j < k)%nat).
  { rewrite <- Hl. apply nth_error_Some. congruence. }
  destruct (Nat.ltb_spec j k); [|lia].
  destruct (Nat.ltb_spec j n); [split; assumption | lia].
Qed.

Lemma decorB_body_census (p0 : SceneB.ParticleItem) (i : nat)
  (ps : list SceneB.ParticleItem) (rs : Random.source) :
  censusB p0 i i ps -> censusB p0 (S i) (S i) (fst (SceneB.decor_body i ps rs)).
Proof.
  intros HC. unfold SceneB.decor_body. run.
  match goal with
  | |- context [SceneB.new_ParticleItem ?o ?m ?ty ?k ?r] =>
      destruct (newB_fields o m ty k r) as (_ & Et & Es & _)
  end.
  apply censusB_push; [apply censusB_widen; [exact HC | lia] | |].
  - rewrite Et. destruct (Nat.ltb_spec i (S i)); [reflexivity | lia].
  - rewrite Es. destruct (Nat.ltb_spec i (S i)); [reflexivity | lia].
Qed.

Lemma dustB_body_census (p0 : SceneB.ParticleItem) (n i : nat)
  (ps : list SceneB.ParticleItem) (rs : Random.source) :
  censusB p0 n (n + i) ps ->
  censusB p0 n (n + S i) (fst (SceneB.dust_body i ps rs)).
Proof.
  intros HC. unfold SceneB.dust_body. run.
  match goal with
  | |- context [SceneB.new_ParticleItem ?o ?m ?ty ?k ?r] =>
      destruct (newB_fields o m ty k r) as (_ & Et & Es & _)
  end.
  rewrite Nat.add_succ_r. apply censusB_push; [exact HC | |].
  - rewrite Et. destruct (Nat.ltb_spec (n + i) n); [lia | reflexivity].
  - rewrite Es. destruct (Nat.ltb_spec (n + i) n); lia.
Qed.

(** The registry [init] of [part_002] builds. *)
Lemma initB_census (m : SceneMode) (mobile : bool) (rs : Random.source) :
  exists p0 ps,
    fst (SceneB.init m mobile rs) = SceneB.mkState m ps (-1) mobile 0 0 m
    /\ SceneB.type p0 = SceneB.PHOTO
    /\ censusB p0 (SceneB.particleCount mobile)
         (SceneB.particleCount mobile + SceneB.dustCount mobile) ps.
Proof.
  assert (H0 : exists p0, fst (SceneB.push_photo [] rs) = [p0]
                          /\ SceneB.type p0 = SceneB.PHOTO).
  { unfold SceneB.push_photo. run. eexists. split; [reflexivity|].
    match goal with
    | |- context [SceneB.new_ParticleItem ?o ?mm ?ty ?k ?r] =>
        destruct (newB_fields o mm ty k r) as (_ & Et & _)
    end.
    exact Et. }
  destruct H0 as (p0 & E0 & Et).
  assert (C0 : censusB p0 0 0 (fst (SceneB.push_photo [] rs))).
  { rewrite E0. exists []. repeat split; destruct j; discriminate. }
  unfold SceneB.init. run.
  set (n := SceneB.particleCount mobile). set (d := SceneB.dustCount mobile).
  set (ps1 := fst (Random.for_range SceneB.decor_body 0 n _ _)).
  assert (H1 : censusB p0 n n ps1).
  { apply (for_range_invariant (fun i => censusB p0 (0 + i) (0 + i))
             SceneB.decor_body (decorB_body_census p0) n 0%nat _ _ C0). }
  match goal with |- context [Random.for_range SceneB.dust_body 0 d ps1 ?r] =>
    assert (H2 : censusB p0 n (n + d)
                   (fst (Random.for_range SceneB.dust_body 0 d ps1 r))) end.
  { apply (for_range_invariant (fun i => censusB p0 n (n + i))
             SceneB.dust_body (dustB_body_census p0 n) d 0%nat ps1).
    rewrite Nat.add_0_r. exact H1. }
  exists p0. eexists. split; [reflexivity|]. split; assumption.
Qed.

Lemma filter_prefix_length {A : Type} (f : A -> bool) (l : list A) :
  forall n,
    (forall j p, nth_error l j = Some p -> f p = (j <? n)%nat) ->
    length (filter f l) = Nat.min n (length l).
Proof.
  induction l as [|a l IH]; intros n Hf.
  - rewrite Nat.min_0_r. reflexivity.
  - cbn [filter]. rewrite (Hf 0%nat a eq_refl). destruct n as [|n].
    + cbn [Nat.ltb Nat.leb Nat.min]. apply (IH 0%nat).
      intros j p Hj. rewrite (Hf (S j) p Hj). reflexivity.
    + cbn [Nat.ltb Nat.leb length Nat.min]. f_equal. apply IH.
      intros j p Hj. rewrite (Hf (S j) p Hj). reflexivity.
Qed.

(** What the census says of the decorations: there are [n] of them, with
    slot indices below [n]. *)
Lemma censusB_decor (p0 : SceneB.ParticleItem) (n d : nat)
  (ps : list SceneB.ParticleItem) :
  SceneB.type p0 = SceneB.PHOTO -> censusB p0 n (n + d) ps ->
  length ps = S (n + d)
  /\ length (filter SceneB.isDECOR ps) = n
  /\ forall p, In p ps -> SceneB.type p = SceneB.DECOR ->
               (SceneB.slotIndex p < n)%nat.
Proof.
  intros Ht (rest & -> & Hl & Hc). repeat apply conj.
  - cbn [length]. rewrite Hl. reflexivity.
  - cbn [filter]. unfold SceneB.isDECOR at 1. rewrite Ht.
    rewrite (filter_prefix_length SceneB.isDECOR rest n).
    + rewrite Hl. apply Nat.min_l. lia.
    + intros j p Hj. destruct (Hc j p Hj) as [Hty _].
      unfold SceneB.isDECOR. rewrite Hty.
      destruct (j <? n)%nat; reflexivity.
  - intros p [<-|Hin] Hd; [congruence|].
    apply In_nth_error in Hin. destruct Hin as [j Hj].
    destruct (Hc j p Hj) as [Hty Hs]. rewrite Hs.
    destruct (Nat.ltb_spec j n); [assumption | congruence].
Qed.

(** C6, as amended.  In TREE mode every DECOR particle's target lies on a
    helix with [t = slotIndex / countOfKind] and [radius = 13 * (1 - t)];
    its height is [32 * t - 15] in [components/Scene.tsx] and [32 * t - 12]
    in [part_002], not [t*H - H/2].  Consequently the target height lies in
    [[-15, 17)] (resp. [[-12, 20)]) and the horizontal radius in [(0, 13]];
    this holds for every DECOR particle after one target computation on the
    freshly initialised registry, which holds 4000 particles, 1500 of them
    DECOR, in [components/Scene.tsx], and the default photo, 1500 DECOR (800
    on a mobile screen) with slot indices below that count and 2000 (1000)
    dust particles in [part_002]. *)
Theorem tree_helix_targets :
  (forall f time p idx,
      SceneA.type p = SceneA.DECOR -> (SceneA.slotIndex p < 1500)%nat ->
      let t := INR (SceneA.slotIndex p) / 1500 in
      let angle := t * 50 * PI + time * 0.5 in
      let v := SceneA.targetPos (SceneA.target TREE f time p idx) in
      v = vec3 (cos angle * Spec.helixRadius 13 t) (t * 32 - 15)
               (sin angle * Spec.helixRadius 13 t)
      /\ -15 <= y v < 17 /\ 0 < JS.hypot (x v) (z v) <= 13)
  /\ (forall mob f time p idx,
      SceneB.type p = SceneB.DECOR ->
      (SceneB.slotIndex p < SceneB.particleCount mob)%nat ->
      let t := INR (SceneB.slotIndex p) / INR (SceneB.particleCount mob) in
      let angle := t * 50 * PI + time * 0.2 in
      let v := SceneB.targetPos (SceneB.target mob TREE f time p idx) in
      v = vec3 (cos angle * Spec.helixRadius 13 t) (t * 32 - 12)
               (sin angle * Spec.helixRadius 13 t)
      /\ -12 <= y v < 20 /\ 0 < JS.hypot (x v) (z v) <= 13)
  /\ (forall rs now p,
      In p (SceneA.particles
              (SceneA.calculateTargets now (fst (SceneA.init TREE rs)))) ->
      SceneA.type p = SceneA.DECOR ->
      -15 <= y (SceneA.targetPos p) < 17
      /\ 0 < JS.hypot (x (SceneA.targetPos p)) (z (SceneA.targetPos p)) <= 13)
  /\ (forall rs,
      length (SceneA.particles (fst (SceneA.init TREE rs))) = 4000%nat
      /\ length (filter SceneA.isDECOR
                   (SceneA.particles (fst (SceneA.init TREE rs)))) = 1500%nat)
  /\ (forall mobile rs rs' now p,
      In p (SceneB.particles
              (fst (SceneB.calculateTargets TREE now
                      (fst (SceneB.init TREE mobile rs)) rs'))) ->
      SceneB.type p = SceneB.DECOR ->
      -12 <= y (SceneB.targetPos p) < 20
      /\ 0 < JS.hypot (x (SceneB.targetPos p)) (z (SceneB.targetPos p)) <= 13)
  /\ (forall mobile rs,
      length (SceneB.particles (fst (SceneB.init TREE mobile rs)))
      = S (SceneB.particleCount mobile + SceneB.dustCount mobile)
      /\ length (filter SceneB.isDECOR
                   (SceneB.particles (fst (SceneB.init TREE mobile rs))))
         = SceneB.particleCount mobile
      /\ forall p,
           In p (SceneB.particles (fst (SceneB.init TREE mobile rs))) ->
           SceneB.type p = SceneB.DECOR ->
           (SceneB.slotIndex p < SceneB.particleCount mobile)%nat).
Proof.
  split; [|split; [|split; [|split; [|split]]]].
  4: exact (initA_census TREE).
  4:{ intros mobile rs rs' now p Hin Ht.
      destruct (initB_census TREE mobile rs) as (p0 & ps & E & Ht0 & HC).
      destruct (censusB_decor p0 _ _ ps Ht0 HC) as (_ & _ & Hslot).
      rewrite E in Hin. unfold SceneB.calculateTargets, SceneB.selectFocus in Hin.
      cbn [SceneMode_eqb andb negb] in Hin. revert Hin. run.
      cbn [SceneB.particles SceneB.set_particles SceneB.set_focusedPhotoIndex
           SceneB.isMobile SceneB.focusedPhotoIndex].
      intros Hin. apply forEach_In in Hin. destruct Hin as (k & q & Eq & ->).
      destruct (targetB_frame mobile TREE (-1) (now * 0.001) q k)
        as (_ & Etyp & _).
      rewrite Etyp in Ht.
      destruct (treeB_decor mobile (-1) (now * 0.001) q k Ht
                  (Hslot q (nth_error_In _ _ Eq) Ht)) as (_ & Hy & Hh).
      split; assumption. }
  4:{ intros mobile rs.
      destruct (initB_census TREE mobile rs) as (p0 & ps & E & Ht0 & HC).
      rewrite E. cbn [SceneB.particles].
      exact (censusB_decor p0 _ _ ps Ht0 HC). }
  - intros. apply treeA_decor; assumption.
  - intros. apply treeB_decor; assumption.
  - intros rs now p Hin Ht.
    rewrite calculateTargetsA_particles in Hin.
    destruct (initA_run TREE rs) as (ps & E & _ & Hf). rewrite E in Hin.
    cbn [SceneA.particles SceneA.mode SceneA.focusedPhotoIndex] in Hin.
    apply forEach_In in Hin. destruct Hin as (k & q & Eq & ->).
    rewrite Forall_forall in Hf. destruct (Hf q (nth_error_In _ _ Eq)) as [_ Hs].
    destruct (targetA_frame TREE (-1) (now * 0.001) q k) as (_ & Etyp & _).
    rewrite Etyp in Ht.
    destruct (treeA_decor (-1) (now * 0.001) q k Ht (Hs Ht)) as (_ & Hy & Hh).
    split; assumption.
Qed.

Lemma decorA_height (slot : nat) (f : Z) (time : R) (idx : nat) :
  y (SceneA.targetPos (SceneA.target TREE f time (decorA slot) idx))
  = INR slot / 1500 * 32 - 15.
Proof. reflexivity. Qed.

Lemma tree_helix_targets_witness :
  -15 <= y (SceneA.targetPos (SceneA.target TREE (-1) 0 (decorA 1499) 1499)) < 17.
Proof.
  apply (proj1 tree_helix_targets (-1)%Z 0 (decorA 1499) 1499%nat);
    [reflexivity | simpl; lia].
Defined.

(** C6, counterexample.  The top decoration (slot 1499 of 1500) is sent to
    height [32 * 1499/1500 - 15], above [H/2] both for the helix's rise
    [H = 32] and for [H = 30]; and no [H] makes the target height
    [t*H - H/2] on all slots (slot 0 forces [H = 30], slot 750 then gives
    height 1 where the formula gives 0). *)
Lemma tree_height_not_centred :
  y (SceneA.targetPos (SceneA.target TREE (-1) 0 (decorA 1499) 1499)) > 32 / 2
  /\ y (SceneA.targetPos (SceneA.target TREE (-1) 0 (decorA 1499) 1499)) > 30 / 2
  /\ ~ (exists H : R, forall slot, (slot < 1500)%nat ->
          y (SceneA.targetPos (SceneA.target TREE (-1) 0 (decorA slot) slot))
          = Spec.helixHeight H (INR slot / 1500)).
Proof.
  assert (E1499 : INR 1499 = 1499) by (rewrite INR_IZR_INZ; reflexivity).
  assert (E750 : INR 750 = 750) by (rewrite INR_IZR_INZ; reflexivity).
  rewrite decorA_height, E1499. split; [lra|]. split; [lra|].
  intros [H Hh].
  assert (H0 := Hh 0%nat ltac:(lia)). assert (H1 := Hh 750%nat ltac:(lia)).
  rewrite decorA_height in H0, H1. rewrite E750 in H1.
  unfold Spec.helixHeight in H0, H1. simpl INR in H0. lra.
Qed.

(** [focusedPhotoIndex] starts at [-1], whatever the mode prop. *)
Lemma initA_focus (m : SceneMode) (rs : Random.source) :
  SceneA.focusedPhotoIndex (fst (SceneA.init m rs)) = (-1)%Z
  /\ SceneA.mode (fst (SceneA.init m rs)) = m.
Proof. destruct (initA_run m rs) as (ps & E & _). rewrite E. split; reflexivity. Qed.

(** In FOCUS a particle whose index is not the focused one is pushed away. *)
Lemma focusA_pushed (f : Z) (time : R) (p : SceneA.ParticleItem) (idx : nat) :
  Z.of_nat idx <> f ->
  SceneA.target FOCUS f time p idx
  = SceneA.set_targetScale
      (SceneA.set_targetPos p (multiplyScalar (SceneA.scatterPos p) 2.5))
      (vec3 0.1 0.1 0.1).
Proof.
  intros Hne. unfold SceneA.target.
  destruct (Z.eqb_spec (Z.of_nat idx) f); [contradiction | reflexivity].
Qed.

(** C10.  In [components/Scene.tsx], when the mode is FOCUS and
    [focusedPhotoIndex] is [-1] (the value it has after set-up),
    [calculateTargets] is total and keeps the registry's length; every
    particle, photos included, gets the push-away target (its scatter anchor
    times 2.5, that is, each coordinate of the anchor multiplied by 2.5,
    and scale 0.1) and none gets the presentation slot's scale 4.5; type,
    identity, anchor, target orientation and mesh are untouched. *)
Theorem focus_without_target_pushes_all_away (now : R) (s : SceneA.State) :
  SceneA.mode s = FOCUS ->
  SceneA.focusedPhotoIndex s = (-1)%Z ->
  let s' := SceneA.calculateTargets now s in
  length (SceneA.particles s') = length (SceneA.particles s)
  /\ SceneA.mode s' = FOCUS
  /\ SceneA.focusedPhotoIndex s' = (-1)%Z
  /\ forall i p,
       nth_error (SceneA.particles s) i = Some p ->
       exists p',
         nth_error (SceneA.particles s') i = Some p'
         /\ SceneA.targetPos p' = multiplyScalar (SceneA.scatterPos p) 2.5
         /\ SceneA.targetPos p'
            = vec3 (x (SceneA.scatterPos p) * 2.5)
                   (y (SceneA.scatterPos p) * 2.5)
                   (z (SceneA.scatterPos p) * 2.5)
         /\ SceneA.targetScale p' = vec3 0.1 0.1 0.1
         /\ SceneA.targetScale p' <> vec3 4.5 4.5 4.5
         /\ SceneA.targetRot p' = SceneA.targetRot p
         /\ SceneA.type p' = SceneA.type p
         /\ SceneA.oid p' = SceneA.oid p
         /\ SceneA.scatterPos p' = SceneA.scatterPos p
         /\ SceneA.mesh p' = SceneA.mesh p.
Proof.
  intros Hm Hf s'. subst s'. rewrite calculateTargetsA_particles.
  rewrite forEach_length, Hm, Hf.
  split; [reflexivity|]. split; [exact Hm|]. split; [exact Hf|].
  intros i p Hp. rewrite forEach_nth, Hp. cbn [option_map].
  rewrite focusA_pushed by lia.
  eexists. split; [reflexivity|]. cbn.
  repeat split. intros E. injection E as E _ _. lra.
Qed.

(** The photo whose anchor is (4, 0, 3) is sent to (10, 0, 7.5). *)
Lemma focus_without_target_witness :
  length (SceneA.particles
            (SceneA.calculateTargets 0
               (SceneA.mkState FOCUS [decorA 0; photoA 1 0] (-1) 0 0 FOCUS)))
  = 2%nat
  /\ exists p',
       nth_error (SceneA.particles
                    (SceneA.calculateTargets 0
                       (SceneA.mkState FOCUS [decorA 0; photoA 1 0] (-1) 0 0
                                       FOCUS))) 1 = Some p'
       /\ SceneA.type p' = SceneA.PHOTO
       /\ SceneA.targetPos p' = vec3 10 0 7.5
       /\ SceneA.targetScale p' = vec3 0.1 0.1 0.1.
Proof.
  destruct (focus_without_target_pushes_all_away 0
              (SceneA.mkState FOCUS [decorA 0; photoA 1 0] (-1) 0 0 FOCUS)
              eq_refl eq_refl) as (Hl & _ & _ & Hp).
  split; [exact Hl|].
  destruct (Hp 1%nat (photoA 1 0) eq_refl)
    as (p' & Hn & _ & Hc & Hs & _ & _ & Ht & _).
  exists p'. repeat apply conj; try assumption.
  rewrite Hc. cbn [photoA SceneA.scatterPos x y z]. f_equal; lra.
Defined.

(** ** Scatter anchors *)

(** What [updateScatterPos] stores, by type: the random source decides the
    radius of a decoration (first draw) and of a dust speck (second draw),
    and nothing of a photo. *)
Lemma anchor_PHOTO (index total : nat) (rs : Random.source) :
  fst (SceneB.anchor SceneB.PHOTO index total rs)
  = SceneB.spherical (22 + INR (index mod 15) * 1.2)
                     (acos (1 - 2 * (INR index / 50)))
                     (SceneB.goldenTheta index).
Proof. reflexivity. Qed.

Lemma anchor_DECOR (index total : nat) (rs : Random.source) :
  fst (SceneB.anchor SceneB.DECOR index total rs)
  = SceneB.spherical (12 + rs 0%nat * 8)
                     (acos (1 - 2 * (INR index / INR total)))
                     (SceneB.goldenTheta index).
Proof. reflexivity. Qed.

Lemma anchor_DUST (index total : nat) (rs : Random.source) :
  fst (SceneB.anchor SceneB.DUST index total rs)
  = SceneB.spherical (30 + rs 1%nat * 10)
                     (acos (1 - 2 * (INR index / INR total)))
                     (SceneB.goldenTheta index).
Proof. reflexivity. Qed.

(** The random part of the constructor of [components/Scene.tsx]: the
    fourth, fifth and sixth draw fix the anchor; the slot plays no part. *)
Lemma newA_scatterPos (o : nat) (m : Mesh) (ty : SceneA.ParticleType)
  (i : nat) (rs : Random.source) :
  let radius := match ty with
                | SceneA.PHOTO => 12 + rs 3%nat * 15
                | _ => 8 + rs 3%nat * 12
                end in
  let theta := rs 4%nat * PI * 2 in
  let phi := acos (rs 5%nat * 2 - 1) in
  SceneA.scatterPos (fst (SceneA.new_ParticleItem o m ty i rs))
  = vec3 (radius * sin phi * cos theta) (radius * sin phi * sin theta)
         (radius * cos phi).
Proof. unfold SceneA.new_ParticleItem. run. reflexivity. Qed.

(** At index 0 the golden spiral starts at the pole of the third axis. *)
Lemma spherical_pole (radius : R) :
  SceneB.spherical radius 0 0 = vec3 0 0 radius.
Proof.
  unfold SceneB.spherical. rewrite sin_0, cos_0. f_equal; ring.
Qed.

Lemma goldenTheta_0 : SceneB.goldenTheta 0 = 0.
Proof. unfold SceneB.goldenTheta. simpl INR. ring. Qed.

Lemma phi_0 (d : R) : acos (1 - 2 * (INR 0 / d)) = 0.
Proof.
  simpl INR. replace (1 - 2 * (0 / d)) with 1 by (unfold Rdiv; ring).
  apply acos_1.
Qed.

Lemma zeroThenHalf_fair : Random.fair zeroThenHalf.
Proof. intros [|n]; simpl; lra. Qed.

(** C8, counterexample.  With [Math.random()] returning 0 and then 1/2,
    two consecutive calls of the anchor computation for a decoration with
    the same arguments (slot 0 of 4000) return [(0, 0, 12)] and
    [(0, 0, 16)]. *)
Lemma anchor_not_pure :
  Random.fair zeroThenHalf
  /\ fst (anchorTwice SceneB.DECOR 0 4000 zeroThenHalf)
     = (vec3 0 0 12, vec3 0 0 16)
  /\ fst (fst (anchorTwice SceneB.DECOR 0 4000 zeroThenHalf))
     <> snd (fst (anchorTwice SceneB.DECOR 0 4000 zeroThenHalf)).
Proof.
  assert (E : fst (anchorTwice SceneB.DECOR 0 4000 zeroThenHalf)
              = (vec3 0 0 12, vec3 0 0 16)).
  { unfold anchorTwice. run.
    replace (snd (SceneB.anchor SceneB.DECOR 0 4000 zeroThenHalf))
      with (fun n : nat => zeroThenHalf (S n)) by reflexivity.
    rewrite !anchor_DECOR, phi_0, goldenTheta_0, !spherical_pole.
    simpl zeroThenHalf. f_equal; f_equal; lra. }
  split; [exact zeroThenHalf_fair|]. split; [exact E|].
  rewrite E. simpl. intros H. injection H as H. lra.
Qed.

(** C8, as amended.  In [part_002] the anchor of a PHOTO is a function of
    its slot index alone: neither [total] nor the random source changes it.
    The anchor of a decoration or a dust speck is the point of the golden
    spiral given by [(slotIndex, total)] at a radius drawn from
    [Math.random()] ([12 + 8 r] with the first draw, resp. [30 + 10 r] with
    the second), so identical arguments give identical anchors exactly when
    that draw is the same.  In [components/Scene.tsx] the anchor is drawn
    from [Math.random()] alone and does not depend on the slot index. *)
Theorem anchor_determinism :
  (forall index total total' rs rs',
      fst (SceneB.anchor SceneB.PHOTO index total rs)
      = fst (SceneB.anchor SceneB.PHOTO index total' rs'))
  /\ (forall index total rs,
      fst (SceneB.anchor SceneB.DECOR index total rs)
      = SceneB.spherical (12 + rs 0%nat * 8)
                         (acos (1 - 2 * (INR index / INR total)))
                         (SceneB.goldenTheta index))
  /\ (forall index total rs,
      fst (SceneB.anchor SceneB.DUST index total rs)
      = SceneB.spherical (30 + rs 1%nat * 10)
                         (acos (1 - 2 * (INR index / INR total)))
                         (SceneB.goldenTheta index))
  /\ (forall index total rs rs',
      rs 0%nat = rs' 0%nat ->
      fst (SceneB.anchor SceneB.DECOR index total rs)
      = fst (SceneB.anchor SceneB.DECOR index total rs'))
  /\ (forall index total rs rs',
      rs 1%nat = rs' 1%nat ->
      fst (SceneB.anchor SceneB.DUST index total rs)
      = fst (SceneB.anchor SceneB.DUST index total rs'))
  /\ (forall o m ty index index' rs,
      SceneA.scatterPos (fst (SceneA.new_ParticleItem o m ty index rs))
      = SceneA.scatterPos (fst (SceneA.new_ParticleItem o m ty index' rs))).
Proof.
  repeat apply conj; intros.
  - rewrite !anchor_PHOTO. reflexivity.
  - apply anchor_DECOR.
  - apply anchor_DUST.
  - rewrite !anchor_DECOR. congruence.
  - rewrite !anchor_DUST. congruence.
  - rewrite !newA_scatterPos. reflexivity.
Qed.

Lemma anchor_determinism_witness :
  fst (SceneB.anchor SceneB.DECOR 7 4000 zeroThenHalf)
  = fst (SceneB.anchor SceneB.DECOR 7 4000 (Random.const 0)).
Proof.
  exact (proj1 (proj2 (proj2 (proj2 anchor_determinism)))
           7%nat 4000%nat zeroThenHalf (Random.const 0) eq_refl).
Defined.

(** ** Where the anchor computation leaves the real numbers *)

Lemma div_defined (a b : R) : b <> 0 -> JS.div a b = Some (a / b).
Proof.
  intros Hb. unfold JS.div.
  destruct (Req_dec_T b 0); [contradiction | reflexivity].
Qed.

Lemma div_undefined (a : R) : JS.div a 0 = None.
Proof. unfold JS.div. destruct (Req_dec_T 0 0); [reflexivity | congruence]. Qed.

Lemma acos_defined (v : R) : -1 <= v <= 1 -> JS.acos v = Some (acos v).
Proof.
  intros [Hl Hu]. unfold JS.acos.
  destruct (Rle_dec (-1) v); [|contradiction].
  destruct (Rle_dec v 1); [reflexivity | contradiction].
Qed.

Lemma acos_undefined (v : R) : v < -1 \/ 1 < v -> JS.acos v = None.
Proof.
  intros Hv. unfold JS.acos. destruct (Rle_dec (-1) v); [|reflexivity].
  destruct (Rle_dec v 1); [lra | reflexivity].
Qed.

Lemma acos_Some (v phi : R) : JS.acos v = Some phi -> phi = acos v.
Proof.
  unfold JS.acos. destruct (Rle_dec (-1) v); [|discriminate].
  destruct (Rle_dec v 1); [|discriminate]. congruence.
Qed.

Lemma div_Some (a b q : R) : JS.div a b = Some q -> q = a / b.
Proof. unfold JS.div. destruct (Req_dec_T b 0); [discriminate | congruence]. Qed.

(** When JavaScript's anchor is a finite vector, it is the vector of
    [anchor], and the same random numbers have been drawn. *)
Lemma finiteAnchor_anchor (ty : SceneB.ParticleType) (index total : nat)
  (rs : Random.source) :
  snd (SceneB.finiteAnchor ty index total rs)
  = snd (SceneB.anchor ty index total rs)
  /\ forall v, fst (SceneB.finiteAnchor ty index total rs) = Some v ->
               fst (SceneB.anchor ty index total rs) = v.
Proof.
  unfold SceneB.finiteAnchor, SceneB.anchor. destruct ty; run.
  - split; [reflexivity|]. intros v.
    destruct (JS.div (INR index) (INR total)) as [q|] eqn:Eq; [|discriminate].
    destruct (JS.acos (1 - 2 * q)) as [phi|] eqn:Ep; [|discriminate].
    apply div_Some in Eq. apply acos_Some in Ep. subst q phi.
    cbn [option_map]. congruence.
  - split; [reflexivity|]. intros v.
    destruct (JS.div (INR index) 50) as [q|] eqn:Eq; [|discriminate].
    destruct (JS.acos (1 - 2 * q)) as [phi|] eqn:Ep; [|discriminate].
    apply div_Some in Eq. apply acos_Some in Ep. subst q phi.
    cbn [option_map]. congruence.
  - split; [reflexivity|]. intros v.
    destruct (JS.div (INR index) (INR total)) as [q|] eqn:Eq; [|discriminate].
    destruct (JS.acos (1 - 2 * q)) as [phi|] eqn:Ep; [|discriminate].
    apply div_Some in Eq. apply acos_Some in Ep. subst q phi.
    cbn [option_map]. congruence.
Qed.

(** The anchor is a finite vector when the slot index does not exceed the
    total (50 for a photo) and the total is not 0. *)
Lemma finiteAnchor_defined (ty : SceneB.ParticleType) (index total : nat)
  (rs : Random.source) :
  (match ty with
   | SceneB.PHOTO => index <= 50
   | _ => 0 < total /\ index <= total
   end)%nat ->
  fst (SceneB.finiteAnchor ty index total rs)
  = Some (fst (SceneB.anchor ty index total rs)).
Proof.
  intros Hd.
  assert (Hq : forall d : nat, (0 < d)%nat -> (index <= d)%nat ->
                 -1 <= 1 - 2 * (INR index / INR d) <= 1).
  { intros d H0 Hle. pose proof (ratio_unit index d H0 Hle). lra. }
  unfold SceneB.finiteAnchor, SceneB.anchor. destruct ty; run.
  - destruct Hd as [H0 Hle].
    rewrite div_defined by (apply not_0_INR; lia).
    rewrite acos_defined by (apply Hq; assumption). reflexivity.
  - rewrite div_defined by lra.
    pose proof (Hq 50%nat ltac:(lia) Hd) as H50.
    rewrite (INR_small 50 50 eq_refl) in H50.
    rewrite acos_defined by exact H50. reflexivity.
  - destruct Hd as [H0 Hle].
    rewrite div_defined by (apply not_0_INR; lia).
    rewrite acos_defined by (apply Hq; assumption). reflexivity.
Qed.

(** With [total = 0] the quotient is not a finite number, and for a photo
    slot above 50 the argument of [Math.acos] is below -1: the anchor is
    NaN. *)
Lemma finiteAnchor_NaN :
  (forall ty index rs,
      ty <> SceneB.PHOTO ->
      fst (SceneB.finiteAnchor ty index 0 rs) = None)
  /\ (forall index total rs,
      (50 < index)%nat ->
      fst (SceneB.finiteAnchor SceneB.PHOTO index total rs) = None).
Proof.
  split.
  - intros ty index rs Hty. unfold SceneB.finiteAnchor.
    destruct ty; [|congruence|]; run; cbn [INR]; rewrite div_undefined;
      reflexivity.
  - intros index total rs Hi. unfold SceneB.finiteAnchor. run.
    rewrite div_defined by lra. rewrite acos_undefined; [reflexivity|].
    apply lt_INR in Hi. rewrite (INR_small 50 50 eq_refl) in Hi. left. lra.
Qed.

(** C9, counterexample.  For a single photo (slot 0, total 1) the anchor is
    the finite vector [(0, 0, 22)], which is not the pole [(0, radius, 0)]
    of the specification for any radius. *)
Lemma anchor_pole_is_on_third_axis :
  fst (SceneB.anchor SceneB.PHOTO 0 1 (Random.const 0)) = vec3 0 0 22
  /\ fst (SceneB.finiteAnchor SceneB.PHOTO 0 1 (Random.const 0))
     = Some (vec3 0 0 22)
  /\ forall radius,
       fst (SceneB.anchor SceneB.PHOTO 0 1 (Random.const 0)) <> Spec.pole radius.
Proof.
  assert (E : fst (SceneB.anchor SceneB.PHOTO 0 1 (Random.const 0))
              = vec3 0 0 22).
  { rewrite anchor_PHOTO, phi_0, goldenTheta_0, spherical_pole.
    simpl. f_equal. lra. }
  split; [exact E|]. split.
  - rewrite finiteAnchor_defined by (apply Nat.le_0_l). rewrite E. reflexivity.
  - intros radius. rewrite E. unfold Spec.pole.
    intros H. injection H as H1 H2. lra.
Qed.

(** In [components/Scene.tsx] the constructor draws the anchor; with every
    draw 1/2 the anchor of a decoration is [(-14, 0, 0)]. *)
Lemma newA_scatterPos_half (o : nat) (m : Mesh) (i : nat) :
  SceneA.scatterPos
    (fst (SceneA.new_ParticleItem o m SceneA.DECOR i (Random.const (1 / 2))))
  = vec3 (-14) 0 0.
Proof.
  rewrite newA_scatterPos. unfold Random.const.
  replace (1 / 2 * 2 - 1) with 0 by lra.
  replace (1 / 2 * PI * 2) with PI by lra.
  rewrite acos_0, sin_PI2, cos_PI2, cos_PI, sin_PI. f_equal; lra.
Qed.

(** C9, as amended.  For a kind with a single particle ([total = 1], slot
    0) the anchor computation of [part_002] divides by a divisor that is
    not 0 ([total], and 50 for a photo), the argument of [Math.acos] is 1,
    and the result is a finite vector, the pole of the third axis
    [(0, 0, radius)]: radius 22 for a photo, [12 + 8 r] for a decoration
    and [30 + 10 r] for a dust speck, [r] being the draw of
    [Math.random()]; with draws in [[0, 1)] the radius lies in [[12, 20)],
    resp. [[30, 40)].  The computation does leave the finite numbers
    elsewhere: with [total = 0], and for a photo slot above 50, the anchor
    is NaN.  In [components/Scene.tsx] the anchor depends neither on the
    slot nor on a total: the constructor divides nothing, draws the
    argument [2 r - 1] of [Math.acos] in [[-1, 1)], and a kind's single
    particle gets a random point of its shell, in general not a pole. *)
Theorem anchor_single_particle :
  (JS.div (INR 0) (INR 1) = Some 0 /\ JS.div (INR 0) 50 = Some 0
   /\ JS.acos (1 - 2 * 0) = Some 0)
  /\ (forall rs, fst (SceneB.finiteAnchor SceneB.PHOTO 0 1 rs)
                 = Some (vec3 0 0 22))
  /\ (forall rs, fst (SceneB.finiteAnchor SceneB.DECOR 0 1 rs)
                 = Some (vec3 0 0 (12 + rs 0%nat * 8)))
  /\ (forall rs, fst (SceneB.finiteAnchor SceneB.DUST 0 1 rs)
                 = Some (vec3 0 0 (30 + rs 1%nat * 10)))
  /\ (forall rs, Random.fair rs ->
        12 <= z (fst (SceneB.anchor SceneB.DECOR 0 1 rs)) < 20
        /\ 30 <= z (fst (SceneB.anchor SceneB.DUST 0 1 rs)) < 40)
  /\ (forall rs, fst (SceneB.anchor SceneB.PHOTO 0 1 rs) = vec3 0 0 22)
  /\ (forall rs, fst (SceneB.anchor SceneB.DECOR 0 1 rs)
                 = vec3 0 0 (12 + rs 0%nat * 8))
  /\ (forall rs, fst (SceneB.anchor SceneB.DUST 0 1 rs)
                 = vec3 0 0 (30 + rs 1%nat * 10))
  /\ (forall ty index total rs v,
        fst (SceneB.finiteAnchor ty index total rs) = Some v ->
        fst (SceneB.anchor ty index total rs) = v)
  /\ (forall ty index rs,
        ty <> SceneB.PHOTO ->
        fst (SceneB.finiteAnchor ty index 0 rs) = None)
  /\ (forall index total rs,
        (50 < index)%nat ->
        fst (SceneB.finiteAnchor SceneB.PHOTO index total rs) = None)
  /\ (forall o m ty index rs,
        Random.fair rs ->
        let radius := match ty with
                      | SceneA.PHOTO => 12 + rs 3%nat * 15
                      | _ => 8 + rs 3%nat * 12
                      end in
        let theta := rs 4%nat * PI * 2 in
        exists phi,
          JS.acos (rs 5%nat * 2 - 1) = Some phi
          /\ SceneA.scatterPos (fst (SceneA.new_ParticleItem o m ty index rs))
             = vec3 (radius * sin phi * cos theta)
                    (radius * sin phi * sin theta) (radius * cos phi))
  /\ (forall o m radius,
        Random.fair (Random.const (1 / 2))
        /\ SceneA.scatterPos
             (fst (SceneA.new_ParticleItem o m SceneA.DECOR 0
                     (Random.const (1 / 2))))
           = vec3 (-14) 0 0
        /\ SceneA.scatterPos
             (fst (SceneA.new_ParticleItem o m SceneA.DECOR 0
                     (Random.const (1 / 2))))
           <> vec3 0 0 radius
        /\ SceneA.scatterPos
             (fst (SceneA.new_ParticleItem o m SceneA.DECOR 0
                     (Random.const (1 / 2))))
           <> Spec.pole radius).
Proof.
  assert (HP : forall rs, fst (SceneB.anchor SceneB.PHOTO 0 1 rs) = vec3 0 0 22).
  { intros rs. rewrite anchor_PHOTO, phi_0, goldenTheta_0, spherical_pole.
    simpl. f_equal. lra. }
  assert (HD : forall rs, fst (SceneB.anchor SceneB.DECOR 0 1 rs)
                          = vec3 0 0 (12 + rs 0%nat * 8)).
  { intros rs. rewrite anchor_DECOR, phi_0, goldenTheta_0, spherical_pole.
    reflexivity. }
  assert (HU : forall rs, fst (SceneB.anchor SceneB.DUST 0 1 rs)
                          = vec3 0 0 (30 + rs 1%nat * 10)).
  { intros rs. rewrite anchor_DUST, phi_0, goldenTheta_0, spherical_pole.
    reflexivity. }
  repeat apply conj; try assumption.
  - cbn [INR]. rewrite div_defined by lra. f_equal. lra.
  - cbn [INR]. rewrite div_defined by lra. f_equal. lra.
  - replace (1 - 2 * 0) with 1 by lra. rewrite acos_defined by lra.
    rewrite acos_1. reflexivity.
  - intros rs. rewrite finiteAnchor_defined by (apply Nat.le_0_l).
    rewrite HP. reflexivity.
  - intros rs.
    rewrite finiteAnchor_defined
      by (split; [apply Nat.lt_0_1 | apply Nat.le_0_l]).
    rewrite HD. reflexivity.
  - intros rs.
    rewrite finiteAnchor_defined
      by (split; [apply Nat.lt_0_1 | apply Nat.le_0_l]).
    rewrite HU. reflexivity.
  - intros rs Hf. rewrite HD, HU. cbn [z].
    pose proof (Hf 0%nat). pose proof (Hf 1%nat). lra.
  - intros ty index total rs. apply finiteAnchor_anchor.
  - apply finiteAnchor_NaN.
  - apply finiteAnchor_NaN.
  - intros o m ty index rs Hf radius theta.
    exists (acos (rs 5%nat * 2 - 1)). split.
    + apply acos_defined. pose proof (Hf 5%nat). lra.
    + apply newA_scatterPos.
  - intros o m radius. repeat apply conj.
    + intros n. unfold Random.const. lra.
    + apply newA_scatterPos_half.
    + rewrite newA_scatterPos_half. intros E. injection E as E _. lra.
    + rewrite newA_scatterPos_half. unfold Spec.pole.
      intros E. injection E as E _. lra.
Qed.

Lemma anchor_single_particle_witness :
  12 <= z (fst (SceneB.anchor SceneB.DECOR 0 1 zeroThenHalf)) < 20.
Proof.
  exact (proj1 (proj1 (proj2 (proj2 (proj2 (proj2 anchor_single_particle))))
                  zeroThenHalf zeroThenHalf_fair)).
Defined.

(** ** Gesture classification *)

Lemma avgDistA_extension (hand : Hand) :
  SceneA.avgDist hand = Spec.extension dist2D hand.
Proof. unfold SceneA.avgDist, Spec.extension. simpl. f_equal. ring. Qed.

Lemma avgDistM_meanOfThree (hand : Hand) :
  MediaPipe.avgDist hand = meanOfThree hand.
Proof. unfold MediaPipe.avgDist, meanOfThree. simpl. f_equal. ring. Qed.

Lemma classifyM_cases (hand : Hand) :
  MediaPipe.classify hand
  = Spec.name
      (if Rlt_dec (dist3D (hand 4%nat) (hand 8%nat)) 0.05 then Spec.PINCH
       else if Rlt_dec (meanOfThree hand) 0.25 then Spec.FIST
       else if Rgt_dec (meanOfThree hand) 0.4 then Spec.OPEN
       else Spec.NONE).
Proof.
  unfold MediaPipe.classify, MediaPipe.pinchDist.
  rewrite avgDistM_meanOfThree.
  destruct (Rlt_dec (dist3D (hand 4%nat) (hand 8%nat)) 0.05); [reflexivity|].
  destruct (Rlt_dec (meanOfThree hand) 0.25); [reflexivity|].
  destruct (Rgt_dec (meanOfThree hand) 0.4); reflexivity.
Qed.

Lemma name_injective (g g' : Spec.Gesture) :
  Spec.name g = Spec.name g' -> g = g'.
Proof. destruct g, g'; simpl; intros E; try reflexivity; discriminate. Qed.

(** Distances along one axis. *)
Lemma hypot_exact (a b d : R) : 0 <= d -> a * a + b * b = d * d -> JS.hypot a b = d.
Proof. intros Hd E. unfold JS.hypot. rewrite E. apply sqrt_square. exact Hd. Qed.

Lemma hypot3_exact (a b c d : R) :
  0 <= d -> a * a + b * b + c * c = d * d -> JS.hypot3 a b c = d.
Proof. intros Hd E. unfold JS.hypot3. rewrite E. apply sqrt_square. exact Hd. Qed.

Ltac eval_dist :=
  unfold dist2D, dist3D; cbn [lx ly lz pointingHand deepHand];
  first [ apply hypot_exact | apply hypot3_exact ]; lra.

Lemma pointingHand_dists :
  (dist2D (pointingHand 4%nat) (pointingHand 8%nat) = 0.3
   /\ dist3D (pointingHand 4%nat) (pointingHand 8%nat) = 0.3)
  /\ (dist2D (pointingHand 8%nat) (pointingHand 0%nat) = 0.9
      /\ dist3D (pointingHand 8%nat) (pointingHand 0%nat) = 0.9)
  /\ (forall i, i = 12%nat \/ i = 16%nat \/ i = 20%nat ->
      dist2D (pointingHand i) (pointingHand 0%nat) = 0.2
      /\ dist3D (pointingHand i) (pointingHand 0%nat) = 0.2).
Proof.
  repeat apply conj; try eval_dist.
  intros i [-> | [-> | ->]]; split; eval_dist.
Qed.

Lemma deepHand_dists :
  (dist2D (deepHand 4%nat) (deepHand 8%nat) = 0
   /\ dist3D (deepHand 4%nat) (deepHand 8%nat) = 0.1)
  /\ (forall i, i = 8%nat \/ i = 12%nat \/ i = 16%nat \/ i = 20%nat ->
      dist2D (deepHand i) (deepHand 0%nat) = 0.3
      /\ dist3D (deepHand i) (deepHand 0%nat) = 0.5).
Proof.
  repeat apply conj; try eval_dist.
  intros i [-> | [-> | [-> | ->]]]; split; eval_dist.
Qed.

Ltac decide_R :=
  repeat match goal with
         | |- context [Rlt_dec ?a ?b] => destruct (Rlt_dec a b); try lra
         | |- context [Rgt_dec ?a ?b] => destruct (Rgt_dec a b); try lra
         end.

(** The measurements of the two hands, as the classifiers take them. *)
Lemma pointingHand_measures :
  dist2D (pointingHand 4%nat) (pointingHand 8%nat) = 0.3
  /\ dist3D (pointingHand 4%nat) (pointingHand 8%nat) = 0.3
  /\ Spec.extension dist2D pointingHand = 0.375
  /\ Spec.extension dist3D pointingHand = 0.375
  /\ meanOfThree pointingHand = 0.2.
Proof.
  destruct pointingHand_dists as ((P2 & P3) & (I2 & I3) & Ht).
  destruct (Ht 12%nat) as [A2 A3]; [tauto|].
  destruct (Ht 16%nat) as [B2 B3]; [tauto|].
  destruct (Ht 20%nat) as [C2 C3]; [tauto|].
  unfold Spec.extension, meanOfThree.
  rewrite P2, P3, I2, I3, A2, A3, B2, B3, C2, C3. repeat apply conj; lra.
Qed.

Lemma deepHand_measures :
  dist2D (deepHand 4%nat) (deepHand 8%nat) = 0
  /\ dist3D (deepHand 4%nat) (deepHand 8%nat) = 0.1
  /\ Spec.extension dist2D deepHand = 0.3
  /\ Spec.extension dist3D deepHand = 0.5
  /\ meanOfThree deepHand = 0.3.
Proof.
  destruct deepHand_dists as ((P2 & P3) & Ht).
  destruct (Ht 8%nat) as [I2 I3]; [tauto|].
  destruct (Ht 12%nat) as [A2 A3]; [tauto|].
  destruct (Ht 16%nat) as [B2 B3]; [tauto|].
  destruct (Ht 20%nat) as [C2 C3]; [tauto|].
  unfold Spec.extension, meanOfThree.
  rewrite P2, P3, I2, I3, A2, A3, B2, B3, C2, C3. repeat apply conj; lra.
Qed.

(** C2, counterexample.  On [pointingHand] (no pinch; index finger
    stretched, three fingers curled) [MediaPipeService] answers FIST, because
    it averages the three curled fingertips only; the four-fingertip
    extension is 0.375, so the classifier of the specification answers NONE
    with the code's thresholds and never FIST for thresholds in the stated
    ranges, in 2D and in 3D alike.  On [deepHand] [MediaPipeService] answers
    NONE, mixing a 3D pinch distance (0.1) with a 2D extension (0.3): the 2D
    classifier answers PINCH and the 3D classifier OPEN. *)
Lemma classifier_differs :
  MediaPipe.classify pointingHand = Spec.name Spec.FIST
  /\ Spec.classify dist2D 0.05 0.25 0.4 pointingHand = Spec.NONE
  /\ Spec.classify dist3D 0.05 0.25 0.4 pointingHand = Spec.NONE
  /\ (forall Tp Tf To,
        0.04 <= Tp <= 0.05 -> 0.2 <= Tf <= 0.25 -> 0.35 <= To <= 0.4 ->
        Spec.classify dist2D Tp Tf To pointingHand <> Spec.FIST
        /\ Spec.classify dist3D Tp Tf To pointingHand <> Spec.FIST)
  /\ MediaPipe.classify deepHand = Spec.name Spec.NONE
  /\ Spec.classify dist2D 0.05 0.25 0.4 deepHand = Spec.PINCH
  /\ Spec.classify dist3D 0.05 0.25 0.4 deepHand = Spec.OPEN.
Proof.
  destruct pointingHand_measures as (P2 & P3 & E2 & E3 & M).
  destruct deepHand_measures as (Q2 & Q3 & F2 & F3 & N).
  rewrite !classifyM_cases. unfold Spec.classify.
  rewrite P2, P3, E2, E3, M, Q2, Q3, F2, F3, N.
  repeat apply conj; try (decide_R; reflexivity).
  intros Tp Tf To HTp HTf HTo. split; decide_R; discriminate.
Qed.

Lemma trigger_other (g : String.string) (m : Experience.AppMode)
  (res : MediaPipe.Results) (now : R) (oe : option Experience.Experience)
  (rs : Random.source) :
  String.eqb (MediaPipe.gesture res) g = false ->
  MediaPipe.trigger g m res now oe rs = (oe, rs).
Proof. intros E. unfold MediaPipe.trigger. destruct oe; [rewrite E|]; reflexivity. Qed.

Lemma trigger_same (g : String.string) (m : Experience.AppMode)
  (res : MediaPipe.Results) (now : R) (e : Experience.Experience)
  (rs : Random.source) :
  String.eqb (MediaPipe.gesture res) g = true ->
  MediaPipe.trigger g m res now (Some e) rs = Experience.setMode m now e rs.
Proof. intros E. unfold MediaPipe.trigger. rewrite E. reflexivity. Qed.

(** The gesture loop turns the classifier's answer into a mode request. *)
Lemma onResults_dispatch (res : MediaPipe.Results) (now : R)
  (e : Experience.Experience) (rs : Random.source) :
  let e' := Experience.updateHandData
              ((ly (MediaPipe.center res) - 0.5) * 0.5)
              ((lx (MediaPipe.center res) - 0.5) * 1.5) e in
  forall g, MediaPipe.gesture res = Spec.name g ->
  MediaPipe.onResults (Some res) now e rs
  = match g with
    | Spec.PINCH => Experience.setMode Experience.FOCUS now e' rs
    | Spec.FIST => Experience.setMode Experience.TREE now e' rs
    | Spec.OPEN => Experience.setMode Experience.SCATTER now e' rs
    | Spec.NONE => (Some e', rs)
    end.
Proof.
  intros e' g Hg. unfold MediaPipe.onResults. fold e'. rewrite !bind_run.
  destruct g.
  - rewrite !trigger_other by (rewrite Hg; reflexivity). reflexivity.
  - rewrite (trigger_same _ Experience.FOCUS) by (rewrite Hg; reflexivity).
    rewrite !trigger_other by (rewrite Hg; reflexivity).
    destruct (Experience.setMode Experience.FOCUS now e' rs); reflexivity.
  - rewrite (trigger_other _ Experience.FOCUS) by (rewrite Hg; reflexivity).
    cbn [fst snd].
    rewrite (trigger_same _ Experience.TREE) by (rewrite Hg; reflexivity).
    rewrite !trigger_other by (rewrite Hg; reflexivity).
    destruct (Experience.setMode Experience.TREE now e' rs); reflexivity.
  - rewrite (trigger_other _ Experience.FOCUS) by (rewrite Hg; reflexivity).
    cbn [fst snd].
    rewrite (trigger_other _ Experience.TREE) by (rewrite Hg; reflexivity).
    cbn [fst snd].
    apply trigger_same. rewrite Hg. reflexivity.
Qed.

(** C2, as amended.  For every detected hand, classification first
    measures the distance between thumb tip and index tip and answers PINCH
    (requesting FOCUS) when it is below 0.05, with highest priority;
    otherwise FIST (TREE) when the extension is below 0.25, OPEN (SCATTER)
    when it is above 0.4, and NONE (no request) otherwise.  In
    [components/Scene.tsx] both measurements are 2D and the extension is the
    mean over the four non-thumb fingertips, as in the specification; in
    [MediaPipeService.detectGestures] the pinch distance is 3D while the
    extension is the 2D mean over three fingertips (middle, ring, little). *)
Theorem gesture_classification :
  (forall hand s,
      SceneA.gestures hand s
      = match Spec.classify dist2D 0.05 0.25 0.4 hand with
        | Spec.PINCH => SceneA.pinched s
        | Spec.FIST => Random.ret (SceneA.onModeChange TREE s)
        | Spec.OPEN => Random.ret (SceneA.onModeChange SCATTER s)
        | Spec.NONE => Random.ret s
        end)
  /\ (forall hand,
      let pinch := dist3D (hand 4%nat) (hand 8%nat) in
      let m := meanOfThree hand in
      (MediaPipe.classify hand = Spec.name Spec.PINCH <-> pinch < 0.05)
      /\ (MediaPipe.classify hand = Spec.name Spec.FIST
          <-> ~ pinch < 0.05 /\ m < 0.25)
      /\ (MediaPipe.classify hand = Spec.name Spec.OPEN
          <-> ~ pinch < 0.05 /\ m > 0.4)
      /\ (MediaPipe.classify hand = Spec.name Spec.NONE
          <-> ~ pinch < 0.05 /\ 0.25 <= m <= 0.4))
  /\ (forall hand now e rs,
      MediaPipe.loop true (Some hand) now e rs
      = let e' := Experience.updateHandData
                    ((ly (hand 9%nat) - 0.5) * 0.5)
                    ((lx (hand 9%nat) - 0.5) * 1.5) e in
        if Rlt_dec (dist3D (hand 4%nat) (hand 8%nat)) 0.05
        then Experience.setMode Experience.FOCUS now e' rs
        else if Rlt_dec (meanOfThree hand) 0.25
        then Experience.setMode Experience.TREE now e' rs
        else if Rgt_dec (meanOfThree hand) 0.4
        then Experience.setMode Experience.SCATTER now e' rs
        else (Some e', rs)).
Proof.
  repeat apply conj.
  - intros hand s. unfold SceneA.gestures, Spec.classify, SceneA.pinchDist.
    rewrite avgDistA_extension.
    destruct (Rlt_dec (dist2D (hand 4%nat) (hand 8%nat)) 0.05); [reflexivity|].
    destruct (Rlt_dec (Spec.extension dist2D hand) 0.25); [reflexivity|].
    destruct (Rgt_dec (Spec.extension dist2D hand) 0.4); reflexivity.
  - intros hand pinch m. rewrite classifyM_cases. fold pinch. fold m.
    destruct (Rlt_dec pinch 0.05) as [Hp|Hp];
      [|destruct (Rlt_dec m 0.25) as [Hf|Hf];
        [|destruct (Rgt_dec m 0.4) as [Ho|Ho]]];
      repeat apply conj; intros HP;
      first [ apply name_injective in HP; try discriminate HP;
              repeat split; lra
            | try reflexivity; exfalso; try destruct HP as [HP1 HP2]; lra ].
  - intros hand now e rs. unfold MediaPipe.loop, MediaPipe.detectGestures.
    cbv zeta.
    rewrite (onResults_dispatch
               (MediaPipe.mkResults (MediaPipe.classify hand) (hand 9%nat))
               now e rs _ (classifyM_cases hand)).
    cbn [MediaPipe.center]. decide_R; reflexivity.
Qed.

(** ** Drawing an index: [Math.floor(Math.random() * n)] *)

Lemma floor_random_index (r : R) (n : nat) :
  0 <= r < 1 -> (0 < n)%nat ->
  (0 <= JS.floor (r * INR n) < Z.of_nat n)%Z.
Proof.
  intros Hr Hn. unfold JS.floor.
  destruct (base_Int_part (r * INR n)) as [Hlo Hhi].
  assert (Hpos : 0 < INR n) by (apply lt_0_INR; exact Hn).
  assert (Hx : 0 <= r * INR n < INR n) by nra.
  split.
  - apply Z.lt_succ_r. apply lt_IZR. rewrite succ_IZR. lra.
  - apply lt_IZR. rewrite <- INR_IZR_INZ. lra.
Qed.


Lemma get_in_range {A : Type} (l : list A) (k : Z) :
  (0 <= k < Z.of_nat (length l))%Z -> exists a, JS.get l k = Some a.
Proof.
  intros Hk. unfold JS.get. destruct (Z.ltb_spec k 0); [lia|].
  destruct (nth_error l (Z.to_nat k)) as [a|] eqn:E; [eauto|].
  apply nth_error_None in E. lia.
Qed.

Lemma get_In {A : Type} (l : list A) (k : Z) (a : A) :
  JS.get l k = Some a -> In a l.
Proof.
  unfold JS.get. destruct (k <? 0)%Z; [discriminate|]. apply nth_error_In.
Qed.

(** ** [indexOf] on a registry of distinct objects *)

Lemma indexOfA_from_found (ps : list SceneA.ParticleItem) :
  forall (base : nat) (off : Z) (i : nat) (t : SceneA.ParticleItem),
    (forall j p, nth_error ps j = Some p -> SceneA.oid p = (base + j)%nat) ->
    nth_error ps i = Some t ->
    SceneA.indexOf_from ps (Some t) off = (off + Z.of_nat i)%Z.
Proof.
  induction ps as [|p ps IH]; intros base off i t Hh Hi.
  - destruct i; discriminate.
  - simpl. destruct i as [|i].
    + injection Hi as ->. rewrite Nat.eqb_refl. lia.
    + assert (Hp := Hh 0%nat p eq_refl). assert (Ht := Hh (S i) t Hi).
      destruct (Nat.eqb_spec (SceneA.oid p) (SceneA.oid t)) as [E|_]; [lia|].
      rewrite (IH (S base) (off + 1)%Z i t); [lia | | exact Hi].
      intros j q Hq. rewrite (Hh (S j) q Hq). lia.
Qed.

Lemma indexOfA_found (ps : list SceneA.ParticleItem) (i : nat)
  (t : SceneA.ParticleItem) :
  SceneA.heap_ok ps -> nth_error ps i = Some t ->
  SceneA.indexOf ps (Some t) = Z.of_nat i.
Proof.
  intros Hh Hi. unfold SceneA.indexOf.
  rewrite (indexOfA_from_found ps 0 0%Z i t); [lia | exact Hh | exact Hi].
Qed.

Lemma indexOfA_undefined (ps : list SceneA.ParticleItem) :
  forall off, SceneA.indexOf_from ps None off = (-1)%Z.
Proof. induction ps as [|p ps IH]; intros off; simpl; [reflexivity | apply IH]. Qed.

Lemma indexOfB_from_found (ps : list SceneB.ParticleItem) :
  forall (base : nat) (off : Z) (i : nat) (t : SceneB.ParticleItem),
    (forall j p, nth_error ps j = Some p -> SceneB.oid p = (base + j)%nat) ->
    nth_error ps i = Some t ->
    SceneB.indexOf_from ps (Some t) off = (off + Z.of_nat i)%Z.
Proof.
  induction ps as [|p ps IH]; intros base off i t Hh Hi.
  - destruct i; discriminate.
  - simpl. destruct i as [|i].
    + injection Hi as ->. rewrite Nat.eqb_refl. lia.
    + assert (Hp := Hh 0%nat p eq_refl). assert (Ht := Hh (S i) t Hi).
      destruct (Nat.eqb_spec (SceneB.oid p) (SceneB.oid t)) as [E|_]; [lia|].
      rewrite (IH (S base) (off + 1)%Z i t); [lia | | exact Hi].
      intros j q Hq. rewrite (Hh (S j) q Hq). lia.
Qed.

Lemma indexOfB_found (ps : list SceneB.ParticleItem) (i : nat)
  (t : SceneB.ParticleItem) :
  SceneB.heap_ok ps -> nth_error ps i = Some t ->
  SceneB.indexOf ps (Some t) = Z.of_nat i.
Proof.
  intros Hh Hi. unfold SceneB.indexOf.
  rewrite (indexOfB_from_found ps 0 0%Z i t); [lia | exact Hh | exact Hi].
Qed.

Lemma indexOfB_undefined (ps : list SceneB.ParticleItem) :
  forall off, SceneB.indexOf_from ps None off = (-1)%Z.
Proof. induction ps as [|p ps IH]; intros off; simpl; [reflexivity | apply IH]. Qed.

(** The index [indexOf] returns for a drawn photo is either [-1] or the
    index of a registered photo. *)
Lemma drawnA_photo (ps : list SceneA.ParticleItem) (k : Z) :
  SceneA.heap_ok ps ->
  let i := SceneA.indexOf ps (JS.get (SceneA.photos ps) k) in
  (JS.get (SceneA.photos ps) k = None /\ i = (-1)%Z)
  \/ (exists t, JS.get (SceneA.photos ps) k = Some t
                /\ nth_error ps (Z.to_nat i) = Some t
                /\ SceneA.type t = SceneA.PHOTO /\ (0 <= i)%Z).
Proof.
  intros Hh i. subst i. destruct (JS.get (SceneA.photos ps) k) as [t|] eqn:E.
  - right. exists t. split; [reflexivity|].
    apply get_In in E. apply filter_In in E. destruct E as [Hin Hph].
    apply In_nth_error in Hin. destruct Hin as [j Hj].
    rewrite (indexOfA_found ps j t Hh Hj), Nat2Z.id.
    repeat split; [exact Hj | | lia].
    unfold SceneA.isPHOTO in Hph. destruct (SceneA.type t); congruence.
  - left. split; [reflexivity | apply indexOfA_undefined].
Qed.

Lemma drawnB_photo (ps : list SceneB.ParticleItem) (k : Z) :
  SceneB.heap_ok ps ->
  let i := SceneB.indexOf ps (JS.get (SceneB.photos ps) k) in
  (JS.get (SceneB.photos ps) k = None /\ i = (-1)%Z)
  \/ (exists t, JS.get (SceneB.photos ps) k = Some t
                /\ nth_error ps (Z.to_nat i) = Some t
                /\ SceneB.type t = SceneB.PHOTO /\ (0 <= i)%Z).
Proof.
  intros Hh i. subst i. destruct (JS.get (SceneB.photos ps) k) as [t|] eqn:E.
  - right. exists t. split; [reflexivity|].
    apply get_In in E. apply filter_In in E. destruct E as [Hin Hph].
    apply In_nth_error in Hin. destruct Hin as [j Hj].
    rewrite (indexOfB_found ps j t Hh Hj), Nat2Z.id.
    repeat split; [exact Hj | | lia].
    unfold SceneB.isPHOTO in Hph. destruct (SceneB.type t); congruence.
  - left. split; [reflexivity | apply indexOfB_undefined].
Qed.

(** ** The registry under pointwise rewrites *)

Lemma Forall2_nth_l {A B : Type} (Rel : A -> B -> Prop) (l : list A)
  (l' : list B) :
  Forall2 Rel l l' ->
  forall i a, nth_error l i = Some a ->
              exists b, nth_error l' i = Some b /\ Rel a b.
Proof.
  induction 1 as [|a0 b0 l l' H0 _ IH]; intros i a Hi.
  - destruct i; discriminate.
  - destruct i as [|i]; simpl in *.
    + injection Hi as <-. eauto.
    + apply IH; exact Hi.
Qed.

Lemma Forall2_nth_r {A B : Type} (Rel : A -> B -> Prop) (l : list A)
  (l' : list B) :
  Forall2 Rel l l' ->
  forall i b, nth_error l' i = Some b ->
              exists a, nth_error l i = Some a /\ Rel a b.
Proof.
  induction 1 as [|a0 b0 l l' H0 _ IH]; intros i b Hi.
  - destruct i; discriminate.
  - destruct i as [|i]; simpl in *.
    + injection Hi as <-. eauto.
    + apply IH; exact Hi.
Qed.

Lemma forEach_from_Forall2 {A : Type} (Rel : A -> A -> Prop)
  (f : A -> nat -> A) (l : list A) :
  (forall p i, Rel p (f p i)) ->
  forall i, Forall2 Rel l (JS.forEach_from f i l).
Proof.
  intros Hf. induction l as [|a l IH]; intros i; simpl; constructor; auto.
Qed.

Lemma map_Forall2 {A : Type} (Rel : A -> A -> Prop) (f : A -> A) (l : list A) :
  (forall p, Rel p (f p)) -> Forall2 Rel l (map f l).
Proof. intros Hf. induction l; simpl; constructor; auto. Qed.

Lemma InvA_rewrite (s s' : SceneA.State) :
  Forall2 sameA (SceneA.particles s) (SceneA.particles s') ->
  SceneA.focusedPhotoIndex s' = SceneA.focusedPhotoIndex s ->
  SceneA.Inv s -> SceneA.Inv s'.
Proof.
  intros HF Hi [Hh Hf]. split.
  - intros i p' Hp'. destruct (Forall2_nth_r _ _ _ HF i p' Hp') as (p & Hp & Ho & _).
    rewrite Ho. apply Hh; exact Hp.
  - unfold SceneA.focus_ok. rewrite Hi. intros H0. destruct (Hf H0) as (p & Hp & Ht).
    destruct (Forall2_nth_l _ _ _ HF _ p Hp) as (p' & Hp' & _ & Ht').
    exists p'. split; [exact Hp' | congruence].
Qed.

Lemma InvB_rewrite (s s' : SceneB.State) :
  Forall2 sameB (SceneB.particles s) (SceneB.particles s') ->
  SceneB.focusedPhotoIndex s' = SceneB.focusedPhotoIndex s ->
  SceneB.Inv s -> SceneB.Inv s'.
Proof.
  intros HF Hi [Hh Hf]. split.
  - intros i p' Hp'. destruct (Forall2_nth_r _ _ _ HF i p' Hp') as (p & Hp & Ho & _).
    rewrite Ho. apply Hh; exact Hp.
  - unfold SceneB.focus_ok. rewrite Hi. intros H0. destruct (Hf H0) as (p & Hp & Ht).
    destruct (Forall2_nth_l _ _ _ HF _ p Hp) as (p' & Hp' & _ & Ht').
    exists p'. split; [exact Hp' | congruence].
Qed.

Lemma sameA_refl (ps : list SceneA.ParticleItem) : Forall2 sameA ps ps.
Proof. induction ps; constructor; [split; reflexivity | assumption]. Qed.

Lemma sameB_refl (ps : list SceneB.ParticleItem) : Forall2 sameB ps ps.
Proof. induction ps; constructor; [split; reflexivity | assumption]. Qed.

(** ** The mode machine of [components/Scene.tsx] *)

Lemma SceneMode_eqb_spec (a b : SceneMode) : reflect (a = b) (SceneMode_eqb a b).
Proof. destruct a, b; constructor; congruence. Qed.

(** React's [setMode] with the value the owner already holds. *)
Lemma onModeChangeA_same (s : SceneA.State) :
  SceneA.onModeChange (SceneA.requested s) s = s.
Proof. destruct s; reflexivity. Qed.

(** Without photos the pinch block does nothing. *)
Lemma pinchedA_no_photos (s : SceneA.State) (rs : Random.source) :
  SceneA.photos (SceneA.particles s) = [] -> SceneA.pinched s rs = (s, rs).
Proof.
  intros E. unfold SceneA.pinched. rewrite E.
  destruct (negb (SceneMode_eqb (SceneA.mode s) FOCUS)); reflexivity.
Qed.

(** In FOCUS the pinch block does nothing. *)
Lemma pinchedA_in_focus (s : SceneA.State) (rs : Random.source) :
  SceneA.mode s = FOCUS -> SceneA.pinched s rs = (s, rs).
Proof. intros E. unfold SceneA.pinched. rewrite E. reflexivity. Qed.

(** What the pinch block does otherwise. *)
Lemma pinchedA_enters (s : SceneA.State) (rs : Random.source) :
  SceneA.mode s <> FOCUS -> SceneA.photos (SceneA.particles s) <> [] ->
  SceneA.pinched s rs
  = (SceneA.mkState (SceneA.mode s) (SceneA.particles s)
       (SceneA.indexOf (SceneA.particles s)
          (JS.get (SceneA.photos (SceneA.particles s))
             (JS.floor (rs 0%nat
                        * INR (length (SceneA.photos (SceneA.particles s)))))))
       (SceneA.mainGroupRotX s) (SceneA.mainGroupRotY s) FOCUS,
     fun n => rs (S n)).
Proof.
  intros Hm Hp. unfold SceneA.pinched.
  destruct (SceneMode_eqb_spec (SceneA.mode s) FOCUS) as [E|_];
    [contradiction|].
  cbn [negb].
  destruct (SceneA.photos (SceneA.particles s)); [congruence | reflexivity].
Qed.

Lemma pinchedA_Inv (s : SceneA.State) (rs : Random.source) :
  SceneA.Inv s -> SceneA.Inv (fst (SceneA.pinched s rs)).
Proof.
  intros HI.
  destruct (SceneMode_eqb_spec (SceneA.mode s) FOCUS) as [Em|Em].
  { rewrite pinchedA_in_focus; assumption. }
  destruct (SceneA.photos (SceneA.particles s)) as [|p0 ph] eqn:Ep.
  { rewrite pinchedA_no_photos; assumption. }
  rewrite pinchedA_enters; [| exact Em | congruence].
  cbn [fst]. destruct HI as [Hh Hf]. split; [exact Hh|].
  unfold SceneA.focus_ok. cbn [SceneA.focusedPhotoIndex SceneA.particles].
  intros H0.
  destruct (drawnA_photo (SceneA.particles s)
              (JS.floor (rs 0%nat * INR (length (SceneA.photos (SceneA.particles s)))))
              Hh) as [[_ E]|(t & _ & Ht & Hty & _)].
  - rewrite E in H0. lia.
  - exists t. split; assumption.
Qed.

Lemma pinchedA_focus_set (s : SceneA.State) (rs : Random.source) :
  Random.fair rs -> SceneA.heap_ok (SceneA.particles s) ->
  SceneA.focus_set s -> SceneA.focus_set (fst (SceneA.pinched s rs)).
Proof.
  intros Hr Hh HS.
  destruct (SceneMode_eqb_spec (SceneA.mode s) FOCUS) as [Em|Em].
  { rewrite pinchedA_in_focus; assumption. }
  destruct (SceneA.photos (SceneA.particles s)) as [|p0 ph] eqn:Ep.
  { rewrite pinchedA_no_photos; assumption. }
  rewrite pinchedA_enters; [| exact Em | congruence].
  cbn [fst]. intros _. cbn [SceneA.focusedPhotoIndex].
  destruct (drawnA_photo (SceneA.particles s)
              (JS.floor (rs 0%nat * INR (length (SceneA.photos (SceneA.particles s)))))
              Hh) as [[E _]|(t & _ & _ & _ & H0)]; [|exact H0].
  destruct (get_in_range (SceneA.photos (SceneA.particles s))
              (JS.floor (rs 0%nat * INR (length (SceneA.photos (SceneA.particles s))))))
    as [a Ea]; [|congruence].
  apply floor_random_index; [apply Hr | rewrite Ep; simpl; lia].
Qed.

(** The four ways out of the gesture branch. *)
Lemma gesturesA_cases (hand : Hand) (s : SceneA.State) :
  (SceneA.pinchDist hand < 0.05 /\ SceneA.gestures hand s = SceneA.pinched s)
  \/ (~ SceneA.pinchDist hand < 0.05 /\ SceneA.avgDist hand < 0.25
      /\ SceneA.gestures hand s = Random.ret (SceneA.onModeChange TREE s))
  \/ (~ SceneA.pinchDist hand < 0.05 /\ SceneA.avgDist hand > 0.4
      /\ SceneA.gestures hand s = Random.ret (SceneA.onModeChange SCATTER s))
  \/ (~ SceneA.pinchDist hand < 0.05 /\ 0.25 <= SceneA.avgDist hand <= 0.4
      /\ SceneA.gestures hand s = Random.ret s).
Proof.
  unfold SceneA.gestures.
  destruct (Rlt_dec (SceneA.pinchDist hand) 0.05); [left; tauto|].
  destruct (Rlt_dec (SceneA.avgDist hand) 0.25); [right; left; tauto|].
  destruct (Rgt_dec (SceneA.avgDist hand) 0.4); [right; right; left; tauto|].
  right; right; right. repeat split; [assumption | lra | lra].
Qed.

Lemma gesturesA_Inv (hand : Hand) (s : SceneA.State) (rs : Random.source) :
  SceneA.Inv s -> SceneA.Inv (fst (SceneA.gestures hand s rs)).
Proof.
  intros HI.
  destruct (gesturesA_cases hand s)
    as [[_ E]|[(_ & _ & E)|[(_ & _ & E)|(_ & _ & E)]]]; rewrite E.
  - apply pinchedA_Inv; exact HI.
  - exact HI.
  - exact HI.
  - exact HI.
Qed.

Lemma gesturesA_focus_set (hand : Hand) (s : SceneA.State) (rs : Random.source) :
  Random.fair rs -> SceneA.heap_ok (SceneA.particles s) ->
  SceneA.focus_set s -> SceneA.focus_set (fst (SceneA.gestures hand s rs)).
Proof.
  intros Hr Hh HS.
  destruct (gesturesA_cases hand s)
    as [[_ E]|[(_ & _ & E)|[(_ & _ & E)|(_ & _ & E)]]]; rewrite E.
  - apply pinchedA_focus_set; assumption.
  - exact HS.
  - exact HS.
  - exact HS.
Qed.

(** A request for FOCUS is made only with a set target. *)
Lemma gesturesA_request_set (hand : Hand) (s : SceneA.State)
  (rs : Random.source) :
  Random.fair rs -> SceneA.heap_ok (SceneA.particles s) ->
  SceneA.request_set s -> SceneA.request_set (fst (SceneA.gestures hand s rs)).
Proof.
  intros Hr Hh HS.
  destruct (gesturesA_cases hand s)
    as [[_ E]|[(_ & _ & E)|[(_ & _ & E)|(_ & _ & E)]]]; rewrite E.
  - destruct (SceneMode_eqb_spec (SceneA.mode s) FOCUS) as [Em|Em].
    { rewrite pinchedA_in_focus; assumption. }
    destruct (SceneA.photos (SceneA.particles s)) as [|p0 ph] eqn:Ep.
    { rewrite pinchedA_no_photos; assumption. }
    rewrite pinchedA_enters; [| exact Em | congruence].
    cbn [fst]. intros _. cbn [SceneA.focusedPhotoIndex].
    destruct (drawnA_photo (SceneA.particles s)
                (JS.floor (rs 0%nat
                           * INR (length (SceneA.photos (SceneA.particles s)))))
                Hh) as [[E' _]|(t & _ & _ & _ & H0)]; [|exact H0].
    destruct (get_in_range (SceneA.photos (SceneA.particles s))
                (JS.floor (rs 0%nat
                           * INR (length (SceneA.photos (SceneA.particles s))))))
      as [a Ea]; [|congruence].
    apply floor_random_index; [apply Hr | rewrite Ep; simpl; lia].
  - intros Hm; discriminate Hm.
  - intros Hm; discriminate Hm.
  - exact HS.
Qed.

(** The effect on [mode] keeps the registry and the focus target, and
    turns a request made with a set target into a mode with a set
    target. *)
Lemma modeEffectA_Inv (s : SceneA.State) :
  (SceneA.Inv s -> SceneA.Inv (SceneA.modeEffect s))
  /\ (SceneA.request_set s ->
      SceneA.focus_set (SceneA.modeEffect s)
      /\ SceneA.request_set (SceneA.modeEffect s)).
Proof.
  split.
  - intros HI. exact HI.
  - intros HS. split; exact HS.
Qed.

(** The pinch block and the gesture branch leave the registry alone. *)
Lemma gesturesA_particles (hand : Hand) (s : SceneA.State) (rs : Random.source) :
  SceneA.particles (fst (SceneA.gestures hand s rs)) = SceneA.particles s.
Proof.
  destruct (gesturesA_cases hand s)
    as [[_ E]|[(_ & _ & E)|[(_ & _ & E)|(_ & _ & E)]]]; rewrite E;
    try reflexivity.
  unfold SceneA.pinched.
  destruct (negb (SceneMode_eqb (SceneA.mode s) FOCUS)); [|reflexivity].
  destruct (0 <? length (SceneA.photos (SceneA.particles s)))%nat; reflexivity.
Qed.

Lemma calculateTargetsA_Inv (now : R) (s : SceneA.State) :
  SceneA.Inv s -> SceneA.Inv (SceneA.calculateTargets now s).
Proof.
  apply InvA_rewrite; [|reflexivity]. rewrite calculateTargetsA_particles.
  apply forEach_from_Forall2. intros p i.
  destruct (targetA_frame (SceneA.mode s) (SceneA.focusedPhotoIndex s)
              (now * 0.001) p i) as (Ho & Ht & _).
  split; assumption.
Qed.

Section Frames.

Context `{Orientation}.

(** One frame, spelled out. *)
Lemma animateA_run (ready : bool) (landmarks : option Hand) (now : R)
  (s : SceneA.State) (rs : Random.source) :
  let g := match (if ready then landmarks else None) with
           | Some hand => SceneA.gestures hand (SceneA.palmTracking hand s) rs
           | None => (s, rs)
           end in
  SceneA.animate ready landmarks now s rs
  = (SceneA.set_particles (SceneA.calculateTargets now (fst g))
       (map (SceneA.update (SceneA.mode (fst g)))
            (SceneA.particles (SceneA.calculateTargets now (fst g)))),
     snd g).
Proof.
  unfold SceneA.animate. rewrite bind_run.
  destruct (if ready then landmarks else None); reflexivity.
Qed.

Lemma animateA_Inv (ready : bool) (landmarks : option Hand) (now : R)
  (s : SceneA.State) (rs : Random.source) :
  SceneA.Inv s -> SceneA.Inv (fst (SceneA.animate ready landmarks now s rs)).
Proof.
  intros HI. rewrite animateA_run. cbn [fst].
  match goal with |- SceneA.Inv (SceneA.set_particles (SceneA.calculateTargets _ ?g) _) =>
    assert (Hg : SceneA.Inv g) end.
  { destruct (if ready then landmarks else None) as [hand|]; [|exact HI].
    apply gesturesA_Inv. exact HI. }
  apply calculateTargetsA_Inv with (now := now) in Hg.
  revert Hg. apply InvA_rewrite; [|reflexivity].
  apply map_Forall2. intros p.
  match goal with |- sameA p (SceneA.update ?m p) =>
    destruct (updateA_frame m p) as (_ & _ & Ht & Ho) end.
  split; assumption.
Qed.

Lemma animateA_focus_set (ready : bool) (landmarks : option Hand) (now : R)
  (s : SceneA.State) (rs : Random.source) :
  Random.fair rs -> SceneA.heap_ok (SceneA.particles s) ->
  SceneA.focus_set s ->
  SceneA.focus_set (fst (SceneA.animate ready landmarks now s rs)).
Proof.
  intros Hr Hh HS. rewrite animateA_run. cbn [fst].
  destruct (if ready then landmarks else None) as [hand|]; [|exact HS].
  exact (gesturesA_focus_set hand (SceneA.palmTracking hand s) rs Hr Hh HS).
Qed.

End Frames.

(** The listener, spelled out. *)
Lemma handleAddPhotoA_run (s : SceneA.State) (rs : Random.source) :
  let p := fst (SceneA.new_ParticleItem (length (SceneA.particles s)) newMesh
                  SceneA.PHOTO (length (SceneA.photos (SceneA.particles s))) rs) in
  fst (SceneA.handleAddPhoto s rs)
  = SceneA.mkState (SceneA.mode s) (SceneA.particles s ++ [p])
      (Z.of_nat (length (SceneA.particles s ++ [p])) - 1)
      (SceneA.mainGroupRotX s) (SceneA.mainGroupRotY s) FOCUS.
Proof.
  unfold SceneA.handleAddPhoto, SceneA.addPhotoToScene. run. reflexivity.
Qed.

Lemma handleAddPhotoA_Inv (s : SceneA.State) (rs : Random.source) :
  SceneA.heap_ok (SceneA.particles s) ->
  SceneA.Inv (fst (SceneA.handleAddPhoto s rs))
  /\ SceneA.focus_set (fst (SceneA.handleAddPhoto s rs)).
Proof.
  intros Hh. rewrite handleAddPhotoA_run.
  match goal with |- context [fst (SceneA.new_ParticleItem ?o ?m ?ty ?k ?r)] =>
    destruct (newA_fields o m ty k r) as (Eo & Et & _);
    set (p := fst (SceneA.new_ParticleItem o m ty k r)) in * end.
  assert (El : (Z.of_nat (length (SceneA.particles s ++ [p])) - 1)%Z
               = Z.of_nat (length (SceneA.particles s))).
  { rewrite length_app. simpl. lia. }
  rewrite El. repeat split.
  - apply heapA_push; assumption.
  - intros _. exists p. cbn [SceneA.focusedPhotoIndex SceneA.particles].
    rewrite Nat2Z.id, nth_error_app2, Nat.sub_diag by lia. split; [reflexivity|exact Et].
  - intros _. cbn [SceneA.focusedPhotoIndex]. lia.
Qed.

Lemma initA_Inv (m : SceneMode) (rs : Random.source) :
  SceneA.Inv (fst (SceneA.init m rs))
  /\ (m <> FOCUS -> SceneA.focus_set (fst (SceneA.init m rs))).
Proof.
  destruct (initA_run m rs) as (ps & E & Hh & _). rewrite E. repeat split.
  - exact Hh.
  - intros H0. cbn in H0. lia.
  - intros Hm Hf. cbn in Hf. contradiction.
Qed.

(** ** The mode machine of [part_002] *)

Lemma heapB_push (ps : list SceneB.ParticleItem) (p : SceneB.ParticleItem) :
  SceneB.heap_ok ps -> SceneB.oid p = length ps -> SceneB.heap_ok (ps ++ [p]).
Proof.
  intros Hh Ho i q Hq. destruct (Nat.lt_ge_cases i (length ps)) as [Hi|Hi].
  - rewrite nth_error_app1 in Hq by exact Hi. apply Hh; exact Hq.
  - rewrite nth_error_app2 in Hq by exact Hi.
    destruct (i - length ps)%nat as [|k] eqn:E; simpl in Hq.
    + inversion Hq; subst q. lia.
    + destruct k; discriminate.
Qed.

(** [addPhotoToScene] on the array, spelled out. *)
Lemma push_photoB_run (ps : list SceneB.ParticleItem) (rs : Random.source) :
  exists p,
    fst (SceneB.push_photo ps rs) = ps ++ [p]
    /\ SceneB.oid p = length ps /\ SceneB.type p = SceneB.PHOTO
    /\ SceneB.slotIndex p = length (SceneB.photos ps)
    /\ position (SceneB.mesh p) = vec3 0 (-100) 0.
Proof.
  unfold SceneB.push_photo. run. eexists. split; [reflexivity|].
  match goal with |- context [fst (SceneB.new_ParticleItem ?o ?m ?ty ?k ?r)] =>
    destruct (newB_fields o m ty k r) as (Eo & Et & Es & _) end.
  repeat split; assumption.
Qed.

Lemma setupB_push (p0 p : SceneB.ParticleItem) (n : nat)
  (ps : list SceneB.ParticleItem) :
  SceneB.oid p = length ps -> setupB p0 n ps -> setupB p0 (S n) (ps ++ [p]).
Proof.
  intros Ho [Hh (rest & E & Hl)]. split; [apply heapB_push; assumption|].
  exists (rest ++ [p]). subst ps. split; [reflexivity|].
  rewrite length_app. simpl. lia.
Qed.

Lemma decorB_body_setup (p0 : SceneB.ParticleItem) (base i : nat)
  (ps : list SceneB.ParticleItem) (rs : Random.source) :
  setupB p0 (base + i) ps ->
  setupB p0 (base + S i) (fst (SceneB.decor_body i ps rs)).
Proof.
  intros Hs. unfold SceneB.decor_body. run. rewrite Nat.add_succ_r.
  apply setupB_push; [|exact Hs].
  match goal with |- context [fst (SceneB.new_ParticleItem ?o ?m ?ty ?k ?r)] =>
    destruct (newB_fields o m ty k r) as (Eo & _) end. exact Eo.
Qed.

Lemma dustB_body_setup (p0 : SceneB.ParticleItem) (base i : nat)
  (ps : list SceneB.ParticleItem) (rs : Random.source) :
  setupB p0 (base + i) ps ->
  setupB p0 (base + S i) (fst (SceneB.dust_body i ps rs)).
Proof.
  intros Hs. unfold SceneB.dust_body. run. rewrite Nat.add_succ_r.
  apply setupB_push; [|exact Hs].
  match goal with |- context [fst (SceneB.new_ParticleItem ?o ?m ?ty ?k ?r)] =>
    destruct (newB_fields o m ty k r) as (Eo & _) end. exact Eo.
Qed.

(** The state [init] returns, spelled out: the default photo is the first
    particle. *)
Lemma initB_run (m : SceneMode) (mobile : bool) (rs : Random.source) :
  exists p0 rest,
    fst (SceneB.init m mobile rs) = SceneB.mkState m (p0 :: rest) (-1) mobile 0 0 m
    /\ SceneB.type p0 = SceneB.PHOTO
    /\ SceneB.heap_ok (p0 :: rest)
    /\ length rest = (SceneB.particleCount mobile + SceneB.dustCount mobile)%nat.
Proof.
  destruct (push_photoB_run [] rs) as (p0 & E0 & Eo & Et & _).
  assert (H0 : setupB p0 0 (fst (SceneB.push_photo [] rs))).
  { rewrite E0. split.
    - intros [|i] p Hp; simpl in Hp; [injection Hp as <-; exact Eo|].
      destruct i; discriminate.
    - exists []. split; reflexivity. }
  unfold SceneB.init. run.
  set (n := SceneB.particleCount mobile). set (d := SceneB.dustCount mobile).
  set (ps1 := fst (Random.for_range SceneB.decor_body 0 n _ _)).
  assert (H1 : setupB p0 n ps1).
  { apply (for_range_invariant (fun i => setupB p0 (0 + i))
             SceneB.decor_body (decorB_body_setup p0 0) n 0%nat _ _ H0). }
  match goal with |- context [Random.for_range SceneB.dust_body 0 d ps1 ?r] =>
    assert (H2 : setupB p0 (n + d)
                   (fst (Random.for_range SceneB.dust_body 0 d ps1 r))) end.
  { apply (for_range_invariant (fun i => setupB p0 (n + i))
             SceneB.dust_body (dustB_body_setup p0 n) d 0%nat ps1).
    rewrite Nat.add_0_r. exact H1. }
  destruct H2 as [Hh (rest & E & Hl)].
  exists p0, rest. rewrite E. repeat split; try assumption.
  rewrite <- E. exact Hh.
Qed.

(** React's [setMode] with the value the owner already holds. *)
Lemma onModeChangeB_same (s : SceneB.State) :
  SceneB.onModeChange (SceneB.requested s) s = s.
Proof. destruct s; reflexivity. Qed.

(** The head of [calculateTargets], by cases. *)
Lemma selectFocusB_keeps (s : SceneB.State) (rs : Random.source) :
  SceneB.focusedPhotoIndex s <> (-1)%Z ->
  SceneB.selectFocus FOCUS s rs = (s, rs).
Proof.
  intros Hne. unfold SceneB.selectFocus.
  destruct (Z.eqb_spec (SceneB.focusedPhotoIndex s) (-1)); [contradiction|].
  reflexivity.
Qed.

Lemma selectFocusB_draws (s : SceneB.State) (rs : Random.source) :
  SceneB.focusedPhotoIndex s = (-1)%Z ->
  SceneB.selectFocus FOCUS s rs
  = (SceneB.set_focusedPhotoIndex s
       (SceneB.indexOf (SceneB.particles s)
          (JS.get (SceneB.photos (SceneB.particles s))
             (JS.floor (rs 0%nat
                        * INR (length (SceneB.photos (SceneB.particles s))))))),
     fun n => rs (S n)).
Proof.
  intros E. unfold SceneB.selectFocus. rewrite E. reflexivity.
Qed.

Lemma selectFocusB_clears (m : SceneMode) (s : SceneB.State)
  (rs : Random.source) :
  m <> FOCUS ->
  SceneB.selectFocus m s rs = (SceneB.set_focusedPhotoIndex s (-1), rs).
Proof.
  intros Hm. unfold SceneB.selectFocus.
  destruct m; [reflexivity | reflexivity | congruence].
Qed.

Lemma selectFocusB_frame (m : SceneMode) (s : SceneB.State)
  (rs : Random.source) :
  let s' := fst (SceneB.selectFocus m s rs) in
  SceneB.particles s' = SceneB.particles s /\ SceneB.mode s' = SceneB.mode s
  /\ SceneB.isMobile s' = SceneB.isMobile s.
Proof.
  destruct (SceneMode_eqb_spec m FOCUS) as [->|Hm].
  - destruct (Z.eq_dec (SceneB.focusedPhotoIndex s) (-1)) as [E|E].
    + rewrite selectFocusB_draws by exact E. repeat split.
    + rewrite selectFocusB_keeps by exact E. repeat split.
  - rewrite selectFocusB_clears by exact Hm. repeat split.
Qed.

Lemma selectFocusB_Inv (m : SceneMode) (s : SceneB.State) (rs : Random.source) :
  SceneB.Inv s -> SceneB.Inv (fst (SceneB.selectFocus m s rs)).
Proof.
  intros [Hh Hf]. destruct (SceneMode_eqb_spec m FOCUS) as [->|Hm].
  - destruct (Z.eq_dec (SceneB.focusedPhotoIndex s) (-1)) as [E|E].
    + rewrite selectFocusB_draws by exact E. split; [exact Hh|].
      unfold SceneB.focus_ok. cbn [fst SceneB.set_focusedPhotoIndex
        SceneB.focusedPhotoIndex SceneB.particles]. intros H0.
      destruct (drawnB_photo (SceneB.particles s)
                  (JS.floor (rs 0%nat
                             * INR (length (SceneB.photos (SceneB.particles s)))))
                  Hh) as [[_ E1]|(t & _ & Ht & Hty & _)].
      * rewrite E1 in H0. lia.
      * exists t. split; assumption.
    + rewrite selectFocusB_keeps by exact E. split; assumption.
  - rewrite selectFocusB_clears by exact Hm. split; [exact Hh|].
    intros H0. cbn in H0. lia.
Qed.

(** [calculateTargets], spelled out. *)
Lemma calculateTargetsB_run (m : SceneMode) (now : R) (s : SceneB.State)
  (rs : Random.source) :
  let s1 := fst (SceneB.selectFocus m s rs) in
  SceneB.calculateTargets m now s rs
  = (SceneB.set_particles s1
       (JS.forEach (SceneB.target (SceneB.isMobile s1) m
                      (SceneB.focusedPhotoIndex s1) (now * 0.001))
                   (SceneB.particles s1)),
     snd (SceneB.selectFocus m s rs)).
Proof. unfold SceneB.calculateTargets. rewrite bind_run. reflexivity. Qed.

Lemma calculateTargetsB_Inv (m : SceneMode) (now : R) (s : SceneB.State)
  (rs : Random.source) :
  SceneB.Inv s -> SceneB.Inv (fst (SceneB.calculateTargets m now s rs)).
Proof.
  intros HI. rewrite calculateTargetsB_run. cbn [fst].
  apply (selectFocusB_Inv m s rs) in HI. revert HI.
  apply InvB_rewrite; [|reflexivity].
  cbn [SceneB.particles SceneB.set_particles].
  apply forEach_from_Forall2. intros p i.
  match goal with |- sameB p (SceneB.target ?mob ?md ?f ?t p i) =>
    destruct (targetB_frame mob md f t p i) as (Ho & Ht & _) end.
  split; assumption.
Qed.

(** The gesture branch of [part_002] only records a request. *)
Lemma gesturesB_cases (hand : Hand) (s : SceneB.State) :
  (SceneB.pinch hand < 0.04
   /\ SceneB.gestures hand s = SceneB.onModeChange FOCUS s)
  \/ (~ SceneB.pinch hand < 0.04 /\ SceneB.ext hand < 0.2
      /\ SceneB.gestures hand s = SceneB.onModeChange TREE s)
  \/ (~ SceneB.pinch hand < 0.04 /\ SceneB.ext hand > 0.35
      /\ SceneB.gestures hand s = SceneB.onModeChange SCATTER s)
  \/ (~ SceneB.pinch hand < 0.04 /\ 0.2 <= SceneB.ext hand <= 0.35
      /\ SceneB.gestures hand s = s).
Proof.
  unfold SceneB.gestures.
  destruct (Rlt_dec (SceneB.pinch hand) 0.04); [left; tauto|].
  destruct (Rlt_dec (SceneB.ext hand) 0.2); [right; left; tauto|].
  destruct (Rgt_dec (SceneB.ext hand) 0.35); [right; right; left; tauto|].
  right; right; right. repeat split; [assumption | lra | lra].
Qed.

Lemma gesturesB_frame (hand : Hand) (s : SceneB.State) :
  SceneB.particles (SceneB.gestures hand s) = SceneB.particles s
  /\ SceneB.focusedPhotoIndex (SceneB.gestures hand s)
     = SceneB.focusedPhotoIndex s.
Proof.
  destruct (gesturesB_cases hand s)
    as [[_ E]|[(_ & _ & E)|[(_ & _ & E)|(_ & _ & E)]]]; rewrite E; split;
    reflexivity.
Qed.

Section FramesB.

Context `{Orientation}.

(** One frame, spelled out. *)
Lemma animateB_run (ready : bool) (landmarks : option Hand) (now : R)
  (s : SceneB.State) (rs : Random.source) :
  let g := match (if ready then landmarks else None) with
           | Some hand => SceneB.gestures hand (SceneB.palmTracking hand s)
           | None => SceneB.set_mainGroupRot s (SceneB.mainGroupRotX s)
                       (SceneB.mainGroupRotY s + 0.005)
           end in
  let c := SceneB.calculateTargets (SceneB.mode g) now g rs in
  SceneB.animate ready landmarks now s rs
  = (SceneB.set_particles (fst c)
       (map (SceneB.update (SceneB.mode (fst c))) (SceneB.particles (fst c))),
     snd c).
Proof. unfold SceneB.animate. cbv zeta. rewrite bind_run. reflexivity. Qed.

Lemma animateB_Inv (ready : bool) (landmarks : option Hand) (now : R)
  (s : SceneB.State) (rs : Random.source) :
  SceneB.Inv s -> SceneB.Inv (fst (SceneB.animate ready landmarks now s rs)).
Proof.
  intros HI. rewrite animateB_run. cbn [fst].
  match goal with
  | |- SceneB.Inv (SceneB.set_particles
                     (fst (SceneB.calculateTargets _ _ ?g _)) _) =>
      assert (Hg : SceneB.Inv g)
  end.
  { destruct (if ready then landmarks else None) as [hand|].
    - revert HI. apply InvB_rewrite.
      + rewrite (proj1 (gesturesB_frame hand _)). apply sameB_refl.
      + rewrite (proj2 (gesturesB_frame hand _)). reflexivity.
    - revert HI. apply InvB_rewrite; [apply sameB_refl | reflexivity]. }
  match goal with
  | |- SceneB.Inv (SceneB.set_particles (fst ?c) _) =>
      assert (Hc : SceneB.Inv (fst c)) by (apply calculateTargetsB_Inv; exact Hg);
      revert Hc; generalize (fst c); intros c' Hc
  end.
  revert Hc. apply InvB_rewrite; [|reflexivity].
  apply map_Forall2. intros p.
  match goal with |- sameB p (SceneB.update ?m p) =>
    destruct (updateB_frame m p) as (_ & _ & Ht & Ho) end.
  split; assumption.
Qed.

End FramesB.

(** The listener, spelled out. *)
Lemma handleAddPhotoB_run (s : SceneB.State) (rs : Random.source) :
  exists p,
    fst (SceneB.handleAddPhoto s rs)
    = SceneB.mkState (SceneB.mode s) (SceneB.particles s ++ [p])
        (SceneB.focusedPhotoIndex s) (SceneB.isMobile s)
        (SceneB.mainGroupRotX s) (SceneB.mainGroupRotY s) FOCUS
    /\ SceneB.oid p = length (SceneB.particles s)
    /\ SceneB.type p = SceneB.PHOTO.
Proof.
  destruct (push_photoB_run (SceneB.particles s) rs) as (p & E & Ho & Ht & _).
  exists p. split; [|split; assumption].
  unfold SceneB.handleAddPhoto, SceneB.addPhotoToScene. run. rewrite E.
  reflexivity.
Qed.

Lemma nth_error_app_Some {A : Type} (l l' : list A) (i : nat) (a : A) :
  nth_error l i = Some a -> nth_error (l ++ l') i = Some a.
Proof.
  intros Hi. rewrite nth_error_app1; [exact Hi|].
  apply nth_error_Some. congruence.
Qed.

Lemma handleAddPhotoB_Inv (s : SceneB.State) (rs : Random.source) :
  SceneB.Inv s -> SceneB.Inv (fst (SceneB.handleAddPhoto s rs)).
Proof.
  intros [Hh Hf]. destruct (handleAddPhotoB_run s rs) as (p & E & Ho & Ht).
  rewrite E. split.
  - apply heapB_push; assumption.
  - intros H0. destruct (Hf H0) as (q & Hq & Hty). exists q.
    split; [|exact Hty]. apply nth_error_app_Some. exact Hq.
Qed.

Lemma initB_Inv (m : SceneMode) (mobile : bool) (rs : Random.source) :
  SceneB.Inv (fst (SceneB.init m mobile rs)).
Proof.
  destruct (initB_run m mobile rs) as (p0 & rest & E & _ & Hh & _).
  rewrite E. split; [exact Hh|]. intros H0. cbn in H0. lia.
Qed.

(** C5.  The invariant "a set focus target ([focusedPhotoIndex >= 0]) is
    the index of a registered particle of type PHOTO" (together with the
    distinctness of the registered objects, on which [indexOf] relies) holds
    after set-up and is preserved by every operation of
    [components/Scene.tsx] and of [part_002]: the gesture branch (requesting
    FOCUS on a drawn photo, or TREE, or SCATTER), the
    ['add-photo'] listener, [calculateTargets] (which chooses and clears the
    target in [part_002]), the whole frame, a mode request and the effect
    that copies the owner's mode into the scene. *)
Theorem focus_target_refers_to_photo :
  (forall m rs, SceneA.Inv (fst (SceneA.init m rs)))
  /\ (forall hand s rs,
        SceneA.Inv s -> SceneA.Inv (fst (SceneA.gestures hand s rs)))
  /\ (forall s rs,
        SceneA.Inv s -> SceneA.Inv (fst (SceneA.handleAddPhoto s rs)))
  /\ (forall m s, SceneA.Inv s -> SceneA.Inv (SceneA.onModeChange m s))
  /\ (forall (ops : Orientation) ready landmarks now s rs,
        SceneA.Inv s ->
        SceneA.Inv (fst (SceneA.animate ready landmarks now s rs)))
  /\ (forall m mobile rs, SceneB.Inv (fst (SceneB.init m mobile rs)))
  /\ (forall m now s rs,
        SceneB.Inv s ->
        SceneB.Inv (fst (SceneB.calculateTargets m now s rs)))
  /\ (forall s rs,
        SceneB.Inv s -> SceneB.Inv (fst (SceneB.handleAddPhoto s rs)))
  /\ (forall (ops : Orientation) ready landmarks now s rs,
        SceneB.Inv s ->
        SceneB.Inv (fst (SceneB.animate ready landmarks now s rs)))
  /\ (forall s, SceneA.Inv s -> SceneA.Inv (SceneA.modeEffect s))
  /\ (forall m s, SceneB.Inv s -> SceneB.Inv (SceneB.onModeChange m s))
  /\ (forall s, SceneB.Inv s -> SceneB.Inv (SceneB.modeEffect s)).
Proof.
  repeat apply conj.
  - intros m rs. apply initA_Inv.
  - intros hand s rs. apply gesturesA_Inv.
  - intros s rs [Hh _]. apply handleAddPhotoA_Inv. exact Hh.
  - intros m s. apply InvA_rewrite; [apply sameA_refl | reflexivity].
  - intros ops ready landmarks now s rs. apply animateA_Inv.
  - intros m mobile rs. apply initB_Inv.
  - intros m now s rs. apply calculateTargetsB_Inv.
  - intros s rs. apply handleAddPhotoB_Inv.
  - intros ops ready landmarks now s rs. apply animateB_Inv.
  - intros s HI. exact HI.
  - intros m s HI. exact HI.
  - intros s HI. exact HI.
Qed.

Lemma focus_target_refers_to_photo_witness :
  SceneA.Inv
    (fst (SceneA.handleAddPhoto (fst (SceneA.init TREE (Random.const 0)))
                                (Random.const 0))).
Proof.
  apply (proj1 (proj2 (proj2 focus_target_refers_to_photo))).
  apply (proj1 focus_target_refers_to_photo).
Defined.

(** ** Photo ingestion *)






(** ** The mode machine of [Experience] *)

Lemma AppMode_eqb_spec (a b : Experience.AppMode) :
  reflect (a = b) (Experience.AppMode_eqb a b).
Proof. destruct a, b; constructor; congruence. Qed.

(** Requesting the current mode returns at once. *)
Lemma setMode_same (now : R) (e : Experience.Experience) (rs : Random.source) :
  Experience.setMode (Experience.mode e) now e rs = (Some e, rs).
Proof.
  unfold Experience.setMode.
  destruct (AppMode_eqb_spec (Experience.mode e) (Experience.mode e));
    [reflexivity | congruence].
Qed.

(** Requesting FOCUS without photos falls back to SCATTER. *)
Lemma setMode_no_photos (now : R) (e : Experience.Experience)
  (rs : Random.source) :
  Experience.mode e <> Experience.FOCUS ->
  Experience.photos (Experience.particles e) = [] ->
  Experience.setMode Experience.FOCUS now e rs
  = (Some (Experience.mkExperience (Experience.particles e) Experience.SCATTER
             (Experience.targetRotation e) now (Experience.focusId e)), rs).
Proof.
  intros Hm Hp. unfold Experience.setMode.
  destruct (AppMode_eqb_spec (Experience.mode e) Experience.FOCUS);
    [contradiction|].
  cbn [negb Experience.AppMode_eqb Experience.particles Experience.set_mode
       Experience.set_lastFocusChange].
  rewrite Hp. reflexivity.
Qed.

Lemma ExperienceInv_no_photos (e : Experience.Experience) :
  Experience.Inv e -> Experience.photos (Experience.particles e) = [] ->
  Experience.mode e <> Experience.FOCUS.
Proof.
  intros HI Hp Hm. destruct (HI Hm) as (p & Hin & Ht & _).
  assert (Hph : In p (Experience.photos (Experience.particles e))).
  { apply filter_In. split; [exact Hin|]. unfold Experience.isPHOTO.
    rewrite Ht. reflexivity. }
  rewrite Hp in Hph. exact Hph.
Qed.

Lemma setMode_Inv (m : Experience.AppMode) (now : R)
  (e : Experience.Experience) (rs : Random.source) :
  Random.fair rs -> Experience.Inv e ->
  exists e' rs', Experience.setMode m now e rs = (Some e', rs')
                 /\ Experience.Inv e'.
Proof.
  intros Hr HI. unfold Experience.setMode.
  destruct (AppMode_eqb_spec (Experience.mode e) m) as [Em|Em]; cbn [negb].
  { exists e, rs. split; [reflexivity | exact HI]. }
  destruct (AppMode_eqb_spec m Experience.FOCUS) as [->|Ef].
  2:{ eexists _, rs. split; [reflexivity|]. intros Hm. cbn in Hm. contradiction. }
  cbn [Experience.particles Experience.set_mode Experience.set_lastFocusChange].
  destruct (Experience.photos (Experience.particles e)) as [|p0 ph] eqn:Ep.
  { eexists _, rs. split; [reflexivity|]. intros Hm. discriminate Hm. }
  change (0 <? length (p0 :: ph))%nat with true. cbv iota.
  rewrite bind_run. cbn [Random.random fst snd].
  destruct (get_in_range (p0 :: ph)
              (JS.floor (rs 0%nat * INR (length (p0 :: ph)))))
    as [tgt Et].
  { apply floor_random_index; [apply Hr | simpl; lia]. }
  rewrite Et. eexists _, _. split; [reflexivity|].
  intros _. apply get_In in Et. rewrite <- Ep in Et.
  apply filter_In in Et. destruct Et as [Hin Hph].
  exists (Experience.set_type tgt Experience.PHOTO).
  cbn [Experience.particles Experience.set_focusId Experience.set_particles
       Experience.focusId].
  repeat split.
  apply in_map_iff. exists tgt. split; [|exact Hin].
  rewrite String.eqb_refl. reflexivity.
Qed.

Lemma addPhotoToSceneE_Inv (dateNow : nat) (e : Experience.Experience)
  (rs : Random.source) :
  Experience.Inv e -> Experience.Inv (fst (Experience.addPhotoToScene dateNow e rs)).
Proof.
  intros HI Hm. unfold Experience.addPhotoToScene in *. revert Hm. run.
  intros Hm. destruct (HI Hm) as (p & Hin & Ht & Hf). exists p.
  cbn [Experience.particles Experience.set_particles Experience.focusId].
  repeat split; try assumption. apply in_or_app. left. exact Hin.
Qed.

Lemma ExperienceInv_new : Experience.Inv Experience.new.
Proof. intros Hm. discriminate Hm. Qed.

Lemma pinchingHand_pinches :
  SceneA.pinchDist pinchingHand < 0.05
  /\ dist3D (pinchingHand 4%nat) (pinchingHand 8%nat) < 0.05.
Proof.
  assert (E2 : SceneA.pinchDist pinchingHand = 0).
  { unfold SceneA.pinchDist, dist2D, pinchingHand. cbn [lx ly].
    apply hypot_exact; lra. }
  assert (E3 : dist3D (pinchingHand 4%nat) (pinchingHand 8%nat) = 0).
  { unfold dist3D, pinchingHand. cbn [lx ly lz]. apply hypot3_exact; lra. }
  rewrite E2, E3. split; lra.
Qed.

(** With zero photos, an invariant state of the scene is not in FOCUS. *)
Lemma InvA_no_photos (s : SceneA.State) :
  SceneA.Inv s -> SceneA.focus_set s ->
  SceneA.photos (SceneA.particles s) = [] -> SceneA.mode s <> FOCUS.
Proof.
  intros [_ Hf] HS Hp Hm. destruct (Hf (HS Hm)) as (p & Hn & Ht).
  assert (Hph : In p (SceneA.photos (SceneA.particles s))).
  { apply filter_In. split; [eapply nth_error_In; exact Hn|].
    unfold SceneA.isPHOTO. rewrite Ht. reflexivity. }
  rewrite Hp in Hph. exact Hph.
Qed.

(** C1, counterexample.  In [components/Scene.tsx], right after set-up
    (mode TREE, no photo registered), a pinching hand leaves the mode at
    TREE: the request is rejected, but the mode does not become SCATTER,
    and no SCATTER is requested from the owner either. *)
Lemma pinch_without_photos_keeps_tree :
  let s0 := fst (SceneA.init TREE (Random.const 0)) in
  let s1 := fst (SceneA.gestures pinchingHand s0 (Random.const 0)) in
  SceneA.photos (SceneA.particles s0) = []
  /\ SceneA.pinchDist pinchingHand < 0.05
  /\ SceneA.mode s0 = TREE
  /\ SceneA.mode s1 = TREE
  /\ SceneA.mode s1 <> SCATTER
  /\ SceneA.requested s1 = TREE
  /\ SceneA.requested s1 <> SCATTER.
Proof.
  cbv zeta. pose proof (initA_no_photos TREE (Random.const 0)) as Hp.
  destruct pinchingHand_pinches as [Hpinch _].
  destruct (initA_focus TREE (Random.const 0)) as [_ Hm].
  assert (E : SceneA.gestures pinchingHand
                (fst (SceneA.init TREE (Random.const 0))) (Random.const 0)
              = (fst (SceneA.init TREE (Random.const 0)), Random.const 0)).
  { destruct (gesturesA_cases pinchingHand
                (fst (SceneA.init TREE (Random.const 0))))
      as [[_ E]|[(Hn & _)|[(Hn & _)|(Hn & _)]]]; try contradiction.
    rewrite E. apply pinchedA_no_photos. exact Hp. }
  rewrite E. cbn [fst]. rewrite Hm.
  assert (Hq : SceneA.requested (fst (SceneA.init TREE (Random.const 0)))
               = TREE).
  { destruct (initA_run TREE (Random.const 0)) as (ps & E0 & _).
    rewrite E0. reflexivity. }
  rewrite Hq.
  repeat apply conj; try assumption; try reflexivity; discriminate.
Qed.

(** The loop on a pinching hand requests FOCUS. *)
Lemma loop_pinch (hand : Hand) (now : R) (e : Experience.Experience)
  (rs : Random.source) :
  dist3D (hand 4%nat) (hand 8%nat) < 0.05 ->
  MediaPipe.loop true (Some hand) now e rs
  = Experience.setMode Experience.FOCUS now
      (Experience.updateHandData ((ly (hand 9%nat) - 0.5) * 0.5)
                                 ((lx (hand 9%nat) - 0.5) * 1.5) e) rs.
Proof.
  intros Hp. unfold MediaPipe.loop, MediaPipe.detectGestures.
  assert (Hc : MediaPipe.classify hand = Spec.name Spec.PINCH).
  { rewrite classifyM_cases.
    destruct (Rlt_dec (dist3D (hand 4%nat) (hand 8%nat)) 0.05);
      [reflexivity | contradiction]. }
  exact (onResults_dispatch
           (MediaPipe.mkResults (MediaPipe.classify hand) (hand 9%nat))
           now e rs Spec.PINCH Hc).
Qed.

(** C1, as amended.  When FOCUS is requested while the registry holds no
    PHOTO particle, the request is rejected and the system is not left in
    FOCUS.  [Experience.setMode(FOCUS)], also when reached from a PINCH
    through the gesture loop, falls back to SCATTER and leaves the registry
    and [focusId] alone; the PINCH branch of [animate] in
    [components/Scene.tsx] leaves the state as it is, so the mode stays
    what it was (TREE or SCATTER).  In both, every step from a state where
    FOCUS implies a set target on a registered photo leads to such a state
    again (with [Math.random()] in [[0, 1)]); in [components/Scene.tsx]
    this holds of the mode the scene reads and of the mode the owner
    holds, and across the effect that copies the one into the other. *)
Theorem focus_request_without_photos :
  (forall now e rs,
      Experience.Inv e -> Experience.photos (Experience.particles e) = [] ->
      exists e',
        Experience.setMode Experience.FOCUS now e rs = (Some e', rs)
        /\ Experience.mode e' = Experience.SCATTER
        /\ Experience.particles e' = Experience.particles e
        /\ Experience.focusId e' = Experience.focusId e)
  /\ (forall hand now e rs,
      Experience.Inv e -> Experience.photos (Experience.particles e) = [] ->
      dist3D (hand 4%nat) (hand 8%nat) < 0.05 ->
      exists e',
        MediaPipe.loop true (Some hand) now e rs = (Some e', rs)
        /\ Experience.mode e' = Experience.SCATTER
        /\ Experience.particles e' = Experience.particles e
        /\ Experience.focusId e' = Experience.focusId e)
  /\ (forall hand s rs,
      SceneA.Inv s -> SceneA.focus_set s ->
      SceneA.photos (SceneA.particles s) = [] ->
      SceneA.pinchDist hand < 0.05 ->
      SceneA.gestures hand s rs = (s, rs) /\ SceneA.mode s <> FOCUS)
  /\ (forall m now e rs,
      Random.fair rs -> Experience.Inv e ->
      exists e' rs',
        Experience.setMode m now e rs = (Some e', rs') /\ Experience.Inv e')
  /\ (forall hand s rs,
      Random.fair rs -> SceneA.Inv s -> SceneA.focus_set s ->
      SceneA.Inv (fst (SceneA.gestures hand s rs))
      /\ SceneA.focus_set (fst (SceneA.gestures hand s rs)))
  /\ (forall hand s rs,
      Random.fair rs -> SceneA.Inv s -> SceneA.request_set s ->
      SceneA.request_set (fst (SceneA.gestures hand s rs)))
  /\ (forall s,
      SceneA.Inv s -> SceneA.request_set s ->
      SceneA.Inv (SceneA.modeEffect s)
      /\ SceneA.focus_set (SceneA.modeEffect s)
      /\ SceneA.request_set (SceneA.modeEffect s)).
Proof.
  repeat apply conj.
  - intros now e rs HI Hp.
    rewrite setMode_no_photos;
      [| apply ExperienceInv_no_photos; assumption | exact Hp].
    eexists. split; [reflexivity|]. repeat split.
  - intros hand now e rs HI Hp Hpinch. rewrite loop_pinch by exact Hpinch.
    rewrite setMode_no_photos;
      [| apply (ExperienceInv_no_photos e HI Hp) | exact Hp].
    eexists. split; [reflexivity|]. repeat split.
  - intros hand s rs HI HS Hp Hpinch. split.
    + destruct (gesturesA_cases hand s)
        as [[_ E]|[(Hn & _)|[(Hn & _)|(Hn & _)]]]; try contradiction.
      rewrite E. apply pinchedA_no_photos. exact Hp.
    + apply InvA_no_photos; assumption.
  - intros m now e rs. apply setMode_Inv.
  - intros hand s rs Hr HI HS. split.
    + apply gesturesA_Inv. exact HI.
    + apply gesturesA_focus_set; [exact Hr | apply HI | exact HS].
  - intros hand s rs Hr HI HS.
    apply gesturesA_request_set; [exact Hr | apply HI | exact HS].
  - intros s HI HS. destruct (modeEffectA_Inv s) as [H1 H2].
    split; [exact (H1 HI) | exact (H2 HS)].
Qed.

Lemma focus_request_without_photos_witness :
  SceneA.gestures pinchingHand (fst (SceneA.init TREE (Random.const 0)))
                  (Random.const 0)
  = (fst (SceneA.init TREE (Random.const 0)), Random.const 0)
  /\ SceneA.mode (fst (SceneA.init TREE (Random.const 0))) <> FOCUS.
Proof.
  apply (proj1 (proj2 (proj2 focus_request_without_photos))).
  - apply initA_Inv.
  - apply initA_Inv. discriminate.
  - apply initA_no_photos.
  - apply pinchingHand_pinches.
Defined.

(** ** Requesting the current mode *)

Lemma loop_dispatch (hand : Hand) (now : R) (e : Experience.Experience)
  (rs : Random.source) (g : Spec.Gesture) :
  MediaPipe.classify hand = Spec.name g ->
  MediaPipe.loop true (Some hand) now e rs
  = match Spec.requests Experience.TREE Experience.SCATTER Experience.FOCUS g with
    | Some m =>
        Experience.setMode m now
          (Experience.updateHandData ((ly (hand 9%nat) - 0.5) * 0.5)
                                     ((lx (hand 9%nat) - 0.5) * 1.5) e) rs
    | None =>
        (Some (Experience.updateHandData ((ly (hand 9%nat) - 0.5) * 0.5)
                                         ((lx (hand 9%nat) - 0.5) * 1.5) e), rs)
    end.
Proof.
  intros Hc. unfold MediaPipe.loop, MediaPipe.detectGestures.
  rewrite (onResults_dispatch
             (MediaPipe.mkResults (MediaPipe.classify hand) (hand 9%nat))
             now e rs g Hc).
  destruct g; reflexivity.
Qed.

(** The gesture branch of [components/Scene.tsx] when the request is for
    what is already there: PINCH is guarded by the mode the scene reads,
    FIST and OPEN go to the owner's [setMode]. *)
Lemma gesturesA_same (hand : Hand) (s : SceneA.State) (rs : Random.source)
  (g : Spec.Gesture) :
  Spec.classify dist2D 0.05 0.25 0.4 hand = g ->
  Spec.requests TREE SCATTER FOCUS g
  = Some (match g with
          | Spec.PINCH => SceneA.mode s
          | _ => SceneA.requested s
          end) ->
  SceneA.gestures hand s rs = (s, rs).
Proof.
  intros Hc Hr. unfold SceneA.gestures.
  unfold Spec.classify in Hc. rewrite <- avgDistA_extension in Hc.
  fold (SceneA.pinchDist hand) in Hc.
  destruct (Rlt_dec (SceneA.pinchDist hand) 0.05).
  { subst g. injection Hr as Hr. apply pinchedA_in_focus. congruence. }
  destruct (Rlt_dec (SceneA.avgDist hand) 0.25).
  { subst g. injection Hr as Hr. rewrite Hr. rewrite onModeChangeA_same.
    reflexivity. }
  destruct (Rgt_dec (SceneA.avgDist hand) 0.4).
  { subst g. injection Hr as Hr. rewrite Hr. rewrite onModeChangeA_same.
    reflexivity. }
  reflexivity.
Qed.

Section SameMode.

Context `{Orientation}.

(** A frame of [part_002] in FOCUS with a set target, on a pinching hand. *)
Lemma animateB_pinch_in_focus (hand : Hand) (now : R) (s : SceneB.State)
  (rs : Random.source) :
  SceneB.pinch hand < 0.04 -> SceneB.mode s = FOCUS ->
  SceneB.focusedPhotoIndex s <> (-1)%Z ->
  let r := SceneB.animate true (Some hand) now s rs in
  SceneB.mode (fst r) = FOCUS
  /\ SceneB.focusedPhotoIndex (fst r) = SceneB.focusedPhotoIndex s
  /\ snd r = rs.
Proof.
  intros Hp Hm Hf r. subst r. rewrite animateB_run. cbn [fst snd].
  assert (Eg : SceneB.gestures hand (SceneB.palmTracking hand s)
               = SceneB.onModeChange FOCUS (SceneB.palmTracking hand s)).
  { destruct (gesturesB_cases hand (SceneB.palmTracking hand s))
      as [[_ E]|[(Hn & _)|[(Hn & _)|(Hn & _)]]]; try contradiction.
    exact E. }
  rewrite Eg.
  assert (Em : SceneB.mode (SceneB.onModeChange FOCUS
                              (SceneB.palmTracking hand s)) = FOCUS)
    by exact Hm.
  rewrite Em, calculateTargetsB_run.
  rewrite selectFocusB_keeps by exact Hf. repeat split. exact Hm.
Qed.

End SameMode.

(** C4.  Requesting the mode that is already current changes nothing:
    [Experience.setMode] returns at once, the state as it was and no random
    number drawn, also when the request comes from the gesture loop (which
    only records the palm position).  In the scenes a request goes to the
    owner's [setMode]: in [part_002], and in the FIST and OPEN branches of
    [components/Scene.tsx], a request for the mode the owner already holds
    returns the state unchanged; the PINCH branch of
    [components/Scene.tsx] returns the state unchanged while the mode it
    reads is FOCUS; so the gesture branch of [components/Scene.tsx] changes
    nothing when the owner's mode and the copy read by the scene agree and
    that mode is requested.  A frame of [part_002] in FOCUS with a set
    target keeps mode and target on a pinching hand and draws no random
    number, so the target is never drawn again. *)
Theorem same_mode_request_is_noop :
  (forall now e rs,
      Experience.setMode (Experience.mode e) now e rs = (Some e, rs))
  /\ (forall hand now e rs g,
      MediaPipe.classify hand = Spec.name g ->
      Spec.requests Experience.TREE Experience.SCATTER Experience.FOCUS g
      = Some (Experience.mode e) ->
      exists e',
        MediaPipe.loop true (Some hand) now e rs = (Some e', rs)
        /\ Experience.mode e' = Experience.mode e
        /\ Experience.focusId e' = Experience.focusId e
        /\ Experience.particles e' = Experience.particles e)
  /\ (forall hand s,
      SceneB.requested (SceneB.gestures hand s) = SceneB.requested s ->
      SceneB.gestures hand s = s)
  /\ (forall hand s,
      SceneB.pinch hand < 0.04 -> SceneB.requested s = FOCUS ->
      SceneB.gestures hand s = s)
  /\ (forall s rs,
      SceneB.focusedPhotoIndex s <> (-1)%Z ->
      SceneB.selectFocus FOCUS s rs = (s, rs))
  /\ (forall (ops : Orientation) hand now s rs,
      SceneB.pinch hand < 0.04 -> SceneB.mode s = FOCUS ->
      SceneB.focusedPhotoIndex s <> (-1)%Z ->
      let r := SceneB.animate true (Some hand) now s rs in
      SceneB.mode (fst r) = FOCUS
      /\ SceneB.focusedPhotoIndex (fst r) = SceneB.focusedPhotoIndex s
      /\ snd r = rs)
  /\ (forall hand s rs g,
      Spec.classify dist2D 0.05 0.25 0.4 hand = g ->
      SceneA.requested s = SceneA.mode s ->
      Spec.requests TREE SCATTER FOCUS g = Some (SceneA.mode s) ->
      SceneA.gestures hand s rs = (s, rs))
  /\ (forall hand s rs,
      Spec.classify dist2D 0.05 0.25 0.4 hand = Spec.PINCH ->
      SceneA.mode s = FOCUS ->
      SceneA.gestures hand s rs = (s, rs))
  /\ (forall hand s rs g,
      Spec.classify dist2D 0.05 0.25 0.4 hand = g -> g <> Spec.PINCH ->
      Spec.requests TREE SCATTER FOCUS g = Some (SceneA.requested s) ->
      SceneA.gestures hand s rs = (s, rs)).
Proof.
  repeat apply conj.
  - intros now e rs. apply setMode_same.
  - intros hand now e rs g Hc Hr. rewrite (loop_dispatch hand now e rs g Hc), Hr.
    match goal with |- context [Experience.setMode _ now ?e1 rs] =>
      change (Experience.mode e) with (Experience.mode e1) end.
    rewrite setMode_same. eexists. split; [reflexivity|]. repeat split.
  - intros hand s Hm.
    destruct (gesturesB_cases hand s)
      as [[_ E]|[(_ & _ & E)|[(_ & _ & E)|(_ & _ & E)]]]; rewrite E in *;
      try reflexivity; cbn in Hm; rewrite Hm; apply onModeChangeB_same.
  - intros hand s Hp Hm.
    destruct (gesturesB_cases hand s)
      as [[_ E]|[(Hn & _)|[(Hn & _)|(Hn & _)]]]; try contradiction.
    rewrite E, <- Hm. apply onModeChangeB_same.
  - intros s rs. apply selectFocusB_keeps.
  - intros ops hand now s rs. apply animateB_pinch_in_focus.
  - intros hand s rs g Hc Hq Hr. apply (gesturesA_same hand s rs g Hc).
    destruct g; [discriminate Hr | exact Hr | | ]; rewrite Hq; exact Hr.
  - intros hand s rs Hc Hm. apply (gesturesA_same hand s rs _ Hc).
    cbn [Spec.requests]. rewrite Hm. reflexivity.
  - intros hand s rs g Hc Hg Hr. apply (gesturesA_same hand s rs g Hc).
    destruct g; [exact Hr | congruence | exact Hr | exact Hr].
Qed.

Lemma same_mode_request_is_noop_witness :
  SceneB.gestures pinchingHand
    (SceneB.mkState FOCUS [photoB 0 0] 0 false 0 0 FOCUS)
  = SceneB.mkState FOCUS [photoB 0 0] 0 false 0 0 FOCUS.
Proof.
  apply (proj1 (proj2 (proj2 (proj2 same_mode_request_is_noop)))).
  - unfold SceneB.pinch, dist2D, pinchingHand. cbn [lx ly].
    replace (JS.hypot (0.5 - 0.5) (0.5 - 0.5)) with 0;
      [lra | symmetry; apply hypot_exact; lra].
  - reflexivity.
Defined.

(** * Further properties of the code *)

(** ** Shells and layouts *)

Lemma sphere_point_length (r phi theta : R) :
  0 <= r ->
  JS.hypot3 (r * sin phi * cos theta) (r * sin phi * sin theta) (r * cos phi)
  = r.
Proof.
  intros Hr. apply hypot3_exact; [exact Hr|].
  replace (r * sin phi * cos theta * (r * sin phi * cos theta)
           + r * sin phi * sin theta * (r * sin phi * sin theta)
           + r * cos phi * (r * cos phi))
    with (r * r * (Rsqr (sin phi) * (Rsqr (sin theta) + Rsqr (cos theta))
                   + Rsqr (cos phi)))
    by (unfold Rsqr; ring).
  rewrite sin2_cos2, Rmult_1_r, sin2_cos2. ring.
Qed.

Lemma INR_mod_bound (i b : nat) :
  (0 < b)%nat -> 0 <= INR (i mod b) <= INR b - 1.
Proof.
  intros Hb. split; [apply pos_INR|].
  assert (Hm : (i mod b <= b - 1)%nat)
    by (pose proof (Nat.mod_upper_bound i b); lia).
  apply le_INR in Hm. rewrite minus_INR in Hm by lia. simpl INR in Hm. lra.
Qed.


(** X1.  The constructor of [components/Scene.tsx] puts the scatter anchor
    in a shell around the origin: with draws in [[0, 1)], at distance
    [[12, 27)] for a photo and [[8, 20)] for every other particle. *)
Theorem scatter_shell (o : nat) (m : Mesh) (ty : SceneA.ParticleType)
  (i : nat) (rs : Random.source) :
  Random.fair rs ->
  let p := fst (SceneA.new_ParticleItem o m ty i rs) in
  (ty = SceneA.PHOTO -> 12 <= vlength (SceneA.scatterPos p) < 27)
  /\ (ty <> SceneA.PHOTO -> 8 <= vlength (SceneA.scatterPos p) < 20).
Proof.
  intros Hf p. subst p. rewrite newA_scatterPos. unfold vlength. cbn [x y z].
  pose proof (Hf 3%nat) as H3.
  split; intros Hty.
  - subst ty. rewrite sphere_point_length by lra. lra.
  - destruct ty; try congruence; rewrite sphere_point_length by lra; lra.
Qed.

Lemma scatter_shell_witness :
  8 <= vlength (SceneA.scatterPos
                  (fst (SceneA.new_ParticleItem 0 newMesh SceneA.DECOR 0
                          zeroThenHalf))) < 20.
Proof.
  apply (scatter_shell 0 newMesh SceneA.DECOR 0 zeroThenHalf
           zeroThenHalf_fair).
  discriminate.
Defined.

Lemma spherical_length (r phi theta : R) :
  0 <= r -> vlength (SceneB.spherical r phi theta) = r.
Proof. intros Hr. apply sphere_point_length. exact Hr. Qed.


(** X2.  In [part_002], for a slot within the assumed totals (at most 50
    photos, slot at most [total]) the argument of [Math.acos] stays within
    [[-1, 1]], and with draws in [[0, 1)] the scatter anchor lies at distance
    [22 + 1.2 (slot mod 15)], within [[22, 38.8]], for a photo, within
    [[12, 20)] for a decoration and within [[30, 40)] for a dust speck:
    every photo anchor is farther out than every decoration anchor. *)
Theorem anchor_shells (index total : nat) (rs : Random.source) :
  Random.fair rs -> (0 < total)%nat -> (index <= total)%nat ->
  (index <= 50)%nat ->
  -1 <= 1 - 2 * (INR index / INR total) <= 1
  /\ -1 <= 1 - 2 * (INR index / 50) <= 1
  /\ vlength (fst (SceneB.anchor SceneB.PHOTO index total rs))
     = 22 + INR (index mod 15) * 1.2
  /\ 22 <= vlength (fst (SceneB.anchor SceneB.PHOTO index total rs)) <= 38.8
  /\ 12 <= vlength (fst (SceneB.anchor SceneB.DECOR index total rs)) < 20
  /\ 30 <= vlength (fst (SceneB.anchor SceneB.DUST index total rs)) < 40.
Proof.
  intros Hf Ht Hi H50. pose proof (Hf 0%nat) as H0. pose proof (Hf 1%nat) as H1.
  assert (Hm : 0 <= INR (index mod 15) <= 14).
  { pose proof (INR_mod_bound index 15 ltac:(lia)) as Hb.
    rewrite (INR_small 15 15 eq_refl) in Hb. lra. }
  pose proof (ratio_unit index total Ht Hi) as Hr.
  pose proof (ratio_unit index 50 ltac:(lia) H50) as Hr50.
  rewrite (INR_small 50 50 eq_refl) in Hr50.
  rewrite anchor_PHOTO, anchor_DECOR, anchor_DUST.
  rewrite !spherical_length by lra. repeat split; lra.
Qed.

Lemma anchor_shells_witness :
  12 <= vlength (fst (SceneB.anchor SceneB.DECOR 7 4000 zeroThenHalf)) < 20.
Proof.
  apply (anchor_shells 7 4000 zeroThenHalf zeroThenHalf_fair);
    apply Nat.leb_le; reflexivity.
Defined.

Lemma newA_photoConfig (o : nat) (m : Mesh) (i : nat) (rs : Random.source) :
  SceneA.photoConfig (fst (SceneA.new_ParticleItem o m SceneA.PHOTO i rs))
  = Some (SceneA.mkPhotoConfig (18 + rs 6%nat * 10) (-12 + rs 7%nat * 28)
                               (rs 8%nat * PI * 2)).
Proof. unfold SceneA.new_ParticleItem, SceneA.new_photoConfig. run. reflexivity. Qed.

Lemma treeA_photo (f : Z) (time : R) (p : SceneA.ParticleItem) (idx : nat)
  (cfg : SceneA.PhotoConfig) :
  SceneA.type p = SceneA.PHOTO -> SceneA.photoConfig p = Some cfg ->
  SceneA.target TREE f time p idx
  = SceneA.set_targetScale
      (SceneA.set_targetRot
         (SceneA.set_targetPos p
            (vec3 (cos (SceneA.orbitPhase cfg + time * 0.2) * SceneA.orbitRadius cfg)
                  (SceneA.orbitY cfg)
                  (sin (SceneA.orbitPhase cfg + time * 0.2) * SceneA.orbitRadius cfg)))
         (euler 0 (- (SceneA.orbitPhase cfg + time * 0.2) + PI / 2) 0))
      (vec3 1 1 1).
Proof.
  intros Ht Hc. unfold SceneA.target, SceneA.isDECOR, SceneA.isPHOTO.
  rewrite Ht, Hc. reflexivity.
Qed.

Lemma treeA_dust (f : Z) (time : R) (p : SceneA.ParticleItem) (idx : nat) :
  SceneA.type p = SceneA.DUST ->
  SceneA.target TREE f time p idx
  = SceneA.set_targetPos p
      (vec3 (cos (INR idx * 0.1 + time * 0.3) * (25 + sin (INR idx) * 5))
            (cos (INR idx * 0.5) * 20)
            (sin (INR idx * 0.1 + time * 0.3) * (25 + sin (INR idx) * 5))).
Proof.
  intros Ht. unfold SceneA.target, SceneA.isDECOR, SceneA.isPHOTO.
  rewrite Ht. reflexivity.
Qed.

(** X3.  In TREE mode of [components/Scene.tsx], photos and dust stay
    outside the helix of the decorations (whose radius is at most 13): a
    photo made by the constructor with draws in [[0, 1)] orbits the axis at
    its own radius in [[18, 28)] and height in [[-12, 16)], at whatever
    time; a dust speck circles at a radius in [[20, 30]] and a height in
    [[-20, 20]]. *)
Theorem tree_orbits (rs : Random.source) :
  Random.fair rs ->
  (forall o m i f time idx,
      let p := fst (SceneA.new_ParticleItem o m SceneA.PHOTO i rs) in
      let v := SceneA.targetPos (SceneA.target TREE f time p idx) in
      axisDistance v = 18 + rs 6%nat * 10
      /\ 18 <= axisDistance v < 28 /\ -12 <= y v < 16)
  /\ (forall p f time idx,
      SceneA.type p = SceneA.DUST ->
      let v := SceneA.targetPos (SceneA.target TREE f time p idx) in
      20 <= axisDistance v <= 30 /\ -20 <= y v <= 20).
Proof.
  intros Hf. split.
  - intros o m i f time idx p v. subst v.
    destruct (newA_fields o m SceneA.PHOTO i rs) as (_ & Et & _).
    rewrite (treeA_photo f time p idx _ Et (newA_photoConfig o m i rs)).
    unfold axisDistance.
    cbn [SceneA.targetPos SceneA.set_targetScale SceneA.set_targetRot
         SceneA.set_targetPos x y z SceneA.orbitRadius SceneA.orbitY
         SceneA.orbitPhase].
    pose proof (Hf 6%nat). pose proof (Hf 7%nat).
    rewrite hypot_circle by lra. repeat split; lra.
  - intros p f time idx Ht v. subst v. rewrite (treeA_dust f time p idx Ht).
    unfold axisDistance. cbn [SceneA.targetPos SceneA.set_targetPos x y z].
    pose proof (SIN_bound (INR idx)). pose proof (COS_bound (INR idx * 0.5)).
    rewrite hypot_circle by lra. repeat split; lra.
Qed.

Lemma tree_orbits_witness :
  18 <= axisDistance
          (SceneA.targetPos
             (SceneA.target TREE (-1) 0
                (fst (SceneA.new_ParticleItem 0 newMesh SceneA.PHOTO 0
                        zeroThenHalf)) 0)) < 28.
Proof.
  apply (proj1 (tree_orbits zeroThenHalf zeroThenHalf_fair) 0%nat newMesh
               0%nat (-1)%Z 0 0%nat).
Defined.

Lemma treeB_photo (mob : bool) (f : Z) (time : R) (p : SceneB.ParticleItem)
  (idx : nat) :
  SceneB.type p = SceneB.PHOTO ->
  SceneB.targetPos (SceneB.target mob TREE f time p idx)
  = vec3 (cos (INR (SceneB.slotIndex p) * 1.5 + time * 0.5)
          * (18 + sin (INR (SceneB.slotIndex p)) * 2))
         (INR (SceneB.slotIndex p mod 5) * 6 - 8)
         (sin (INR (SceneB.slotIndex p) * 1.5 + time * 0.5)
          * (18 + sin (INR (SceneB.slotIndex p)) * 2)).
Proof.
  intros Ht. unfold SceneB.target, SceneB.isPHOTO. rewrite Ht. reflexivity.
Qed.

Lemma treeB_dust (mob : bool) (f : Z) (time : R) (p : SceneB.ParticleItem)
  (idx : nat) :
  SceneB.type p = SceneB.DUST ->
  SceneB.target mob TREE f time p idx
  = SceneB.set_targetPos p
      (vec3 (cos (INR idx * 0.1 + time) * 22) (sin (INR idx) * 15)
            (sin (INR idx * 0.1 + time) * 22)).
Proof.
  intros Ht. unfold SceneB.target, SceneB.isPHOTO, SceneB.isDECOR.
  rewrite Ht. reflexivity.
Qed.

(** X4.  In TREE mode of [part_002] a photo orbits the axis at radius
    [18 + 2 sin(slot)], within [[16, 20]], on one of five levels
    [6 (slot mod 5) - 8], within [[-8, 16]]; two photos whose slots differ
    by one are 6 apart in height unless the lower slot is 4 modulo 5. *)
Theorem tree_photo_levels (mob : bool) (f : Z) (time : R)
  (p : SceneB.ParticleItem) (idx : nat) :
  SceneB.type p = SceneB.PHOTO ->
  let v := SceneB.targetPos (SceneB.target mob TREE f time p idx) in
  axisDistance v = 18 + sin (INR (SceneB.slotIndex p)) * 2
  /\ 16 <= axisDistance v <= 20
  /\ y v = INR (SceneB.slotIndex p mod 5) * 6 - 8
  /\ -8 <= y v <= 16
  /\ (forall q idx',
        SceneB.type q = SceneB.PHOTO ->
        SceneB.slotIndex q = S (SceneB.slotIndex p) ->
        (SceneB.slotIndex p mod 5 <> 4)%nat ->
        y (SceneB.targetPos (SceneB.target mob TREE f time q idx')) = y v + 6).
Proof.
  intros Ht v. subst v. rewrite (treeB_photo mob f time p idx Ht).
  unfold axisDistance. cbn [x y z].
  pose proof (SIN_bound (INR (SceneB.slotIndex p))).
  rewrite hypot_circle by lra.
  pose proof (INR_mod_bound (SceneB.slotIndex p) 5 ltac:(lia)) as Hb.
  rewrite (INR_small 5 5 eq_refl) in Hb.
  repeat apply conj; try lra; try reflexivity.
  intros q idx' Hq Hs Hm. rewrite (treeB_photo mob f time q idx' Hq).
  cbn [y]. rewrite Hs.
  assert (E : (S (SceneB.slotIndex p) mod 5
               = S (SceneB.slotIndex p mod 5))%nat).
  { pose proof (Nat.mod_upper_bound (SceneB.slotIndex p) 5 ltac:(lia)).
    replace (S (SceneB.slotIndex p))
      with (S (SceneB.slotIndex p mod 5)
            + (SceneB.slotIndex p / 5) * 5)%nat
      by (pose proof (Nat.div_mod_eq (SceneB.slotIndex p) 5); lia).
    rewrite Nat.Div0.mod_add. apply Nat.mod_small. lia. }
  rewrite E, S_INR. lra.
Qed.

Lemma tree_photo_levels_witness :
  16 <= axisDistance
          (SceneB.targetPos (SceneB.target false TREE (-1) 0 (photoB 0 0) 0))
  <= 20.
Proof.
  apply (tree_photo_levels false (-1) 0 (photoB 0 0) 0 eq_refl).
Defined.

Lemma particleCountC_pos (mob : bool) : (0 < SceneC.particleCount mob)%nat.
Proof. destruct mob; simpl; lia. Qed.

(** X5.  In TREE mode of [part_004] the helix parameter is taken from the
    registry index modulo the number of decorations, so every particle that
    is not dust, a photo added late included, gets a target on the helix:
    height [32 t - 12] in [[-12, 20)] and distance [13 (1 - t)] from the
    axis in [(0, 13]], with [t] in [[0, 1)]. *)
Theorem tree_by_index (mob : bool) (n : nat) (f : Z) (time : R)
  (p : SceneC.ParticleItem) (i : nat) :
  SceneC.type p <> SceneC.DUST ->
  let t := INR (i mod SceneC.particleCount mob)
           / INR (SceneC.particleCount mob) in
  let v := SceneC.targetPos (SceneC.target mob n TREE f time p i) in
  0 <= t < 1
  /\ y v = Spec.helixHeight 32 t + 4
  /\ axisDistance v = Spec.helixRadius 13 t
  /\ -12 <= y v < 20
  /\ 0 < axisDistance v <= 13.
Proof.
  intros Ht t v.
  assert (Hd : SceneC.isDUST p = false).
  { unfold SceneC.isDUST. destruct (SceneC.type p); congruence. }
  assert (Hv : v = vec3 (cos (t * 50 * PI) * (13 * (1 - t))) (t * 32 - 12)
                        (sin (t * 50 * PI) * (13 * (1 - t)))).
  { unfold v, SceneC.target. rewrite Hd. reflexivity. }
  pose proof (particleCountC_pos mob) as Hc.
  assert (Hr : 0 <= t < 1).
  { unfold t.
    pose proof (Nat.mod_upper_bound i (SceneC.particleCount mob) ltac:(lia)) as Hm.
    apply lt_INR in Hm. apply lt_0_INR in Hc.
    pose proof (pos_INR (i mod SceneC.particleCount mob)) as H0.
    split.
    - apply Rmult_le_pos; [exact H0 | apply Rlt_le, Rinv_0_lt_compat; exact Hc].
    - apply (Rmult_lt_reg_r (INR (SceneC.particleCount mob))); [exact Hc|].
      unfold Rdiv. rewrite Rmult_assoc, Rinv_l by lra. lra. }
  rewrite Hv. unfold axisDistance. cbn [x y z].
  rewrite hypot_circle by lra.
  unfold Spec.helixHeight, Spec.helixRadius. repeat split; lra.
Qed.

(** A photo of [part_004] at rest. *)
Lemma tree_by_index_witness :
  let p := SceneC.mkParticle 3501 newMesh (vec3 0 0 0) (euler 0 0 0)
             (vec3 1 1 1) (vec3 0 0 0) SceneC.PHOTO 0 (vec3 0 0 0) in
  -12 <= y (SceneC.targetPos (SceneC.target false 3502 TREE (-1) 0 p 3501)) < 20.
Proof.
  cbv zeta.
  apply (tree_by_index false 3502 (-1) 0
           (SceneC.mkParticle 3501 newMesh (vec3 0 0 0) (euler 0 0 0)
              (vec3 1 1 1) (vec3 0 0 0) SceneC.PHOTO 0 (vec3 0 0 0)) 3501).
  discriminate.
Defined.

Lemma spiral_length (r : R) (i n : nat) :
  0 <= r -> vlength (SceneC.spiral r i n) = r.
Proof. intros Hr. apply sphere_point_length. exact Hr. Qed.

(** X6.  In [part_004] the SCATTER target and the FOCUS push-away target of
    the particle at index [i] of [n] depend on nothing but [i], [n] and the
    screen class: they are the point with polar angle
    [phi = acos(-1 + 2i/n)] and azimuth [sqrt(n pi) phi] on a sphere whose
    radius is [8 + i mod 12] for SCATTER (on a mobile screen [12 + i mod 8])
    and [35 + i mod 15] for the push-away target, whatever the particle,
    the time and the focus target are.  The divisor [n] is not 0 and the
    argument of [Math.acos] lies in [[-1, 1)], so the point is finite.  The
    SCATTER target is at distance within [[8, 19]] and the push-away target
    within [[35, 49]], so every pushed particle is farther out than every
    scattered one. *)
Theorem spiral_shells (mob : bool) (n : nat) (f : Z) (time : R)
  (p : SceneC.ParticleItem) (i : nat) :
  (i < n)%nat ->
  -1 <= -1 + (2 * INR i) / INR n < 1
  /\ JS.div (2 * INR i) (INR n) = Some ((2 * INR i) / INR n)
  /\ JS.acos (-1 + (2 * INR i) / INR n)
     = Some (acos (-1 + (2 * INR i) / INR n))
  /\ SceneC.targetPos (SceneC.target mob n SCATTER f time p i)
     = (let radius := if mob then 12 + INR (i mod 8) else 8 + INR (i mod 12) in
        let phi := acos (-1 + (2 * INR i) / INR n) in
        let theta := sqrt (INR n * PI) * phi in
        vec3 (radius * sin phi * cos theta) (radius * sin phi * sin theta)
             (radius * cos phi))
  /\ (forall f' time' p',
        SceneC.targetPos (SceneC.target mob n SCATTER f' time' p' i)
        = SceneC.targetPos (SceneC.target mob n SCATTER f time p i))
  /\ vlength (SceneC.targetPos (SceneC.target mob n SCATTER f time p i))
     = (if mob then 12 + INR (i mod 8) else 8 + INR (i mod 12))
  /\ 8 <= vlength (SceneC.targetPos (SceneC.target mob n SCATTER f time p i))
     <= 19
  /\ (Z.of_nat i <> f ->
      SceneC.targetPos (SceneC.target mob n FOCUS f time p i)
      = (let radius := 35 + INR (i mod 15) in
         let phi := acos (-1 + (2 * INR i) / INR n) in
         let theta := sqrt (INR n * PI) * phi in
         vec3 (radius * sin phi * cos theta) (radius * sin phi * sin theta)
              (radius * cos phi))
      /\ (forall f' time' p',
            Z.of_nat i <> f' ->
            SceneC.targetPos (SceneC.target mob n FOCUS f' time' p' i)
            = SceneC.targetPos (SceneC.target mob n FOCUS f time p i))
      /\ vlength (SceneC.targetPos (SceneC.target mob n FOCUS f time p i))
         = 35 + INR (i mod 15)
      /\ 35 <= vlength (SceneC.targetPos (SceneC.target mob n FOCUS f time p i))
         <= 49).
Proof.
  intros Hi.
  pose proof (INR_mod_bound i 8 ltac:(lia)) as H8.
  pose proof (INR_mod_bound i 12 ltac:(lia)) as H12.
  pose proof (INR_mod_bound i 15 ltac:(lia)) as H15.
  rewrite (INR_small 8 8 eq_refl) in H8.
  rewrite (INR_small 12 12 eq_refl) in H12.
  rewrite (INR_small 15 15 eq_refl) in H15.
  assert (Hn : 0 < INR n) by (apply lt_0_INR; lia).
  assert (Harg : -1 <= -1 + (2 * INR i) / INR n < 1).
  { pose proof (pos_INR i) as H0. apply lt_INR in Hi.
    assert (Hq : 0 <= INR i / INR n < 1).
    { split.
      - apply Rmult_le_pos; [exact H0 | apply Rlt_le, Rinv_0_lt_compat; exact Hn].
      - apply (Rmult_lt_reg_r (INR n)); [exact Hn|].
        unfold Rdiv. rewrite Rmult_assoc, Rinv_l by lra. lra. }
    replace (2 * INR i / INR n) with (2 * (INR i / INR n))
      by (unfold Rdiv; ring).
    lra. }
  split; [exact Harg|].
  split; [apply div_defined; lra|].
  split; [apply acos_defined; lra|].
  assert (Es : forall f' time' p',
             SceneC.targetPos (SceneC.target mob n SCATTER f' time' p' i)
             = SceneC.spiral (if mob then 12 + INR (i mod 8)
                              else 8 + INR (i mod 12)) i n)
    by reflexivity.
  split; [rewrite Es; reflexivity|].
  split; [intros f' time' p'; rewrite !Es; reflexivity|].
  rewrite Es, spiral_length by (destruct mob; lra).
  split; [reflexivity|]. split; [destruct mob; lra|].
  intros Hne.
  assert (Ef : forall f' time' p',
             Z.of_nat i <> f' ->
             SceneC.targetPos (SceneC.target mob n FOCUS f' time' p' i)
             = SceneC.spiral (35 + INR (i mod 15)) i n).
  { intros f' time' p' Hne'. unfold SceneC.target.
    destruct (Z.eqb_spec (Z.of_nat i) f'); [contradiction | reflexivity]. }
  split; [rewrite Ef by exact Hne; reflexivity|].
  split; [intros f' time' p' Hne'; rewrite !Ef by assumption; reflexivity|].
  rewrite Ef, spiral_length by (exact Hne || lra). split; [reflexivity | lra].
Qed.

Lemma spiral_shells_witness :
  let p := SceneC.mkParticle 7 newMesh (vec3 0 0 0) (euler 0 0 0)
             (vec3 1 1 1) (vec3 0 0 0) SceneC.DECOR 0 (vec3 0 0 0) in
  8 <= vlength (SceneC.targetPos (SceneC.target false 4001 SCATTER (-1) 0 p 7))
  <= 19.
Proof.
  cbv zeta.
  apply (spiral_shells false 4001 (-1) 0
           (SceneC.mkParticle 7 newMesh (vec3 0 0 0) (euler 0 0 0)
              (vec3 1 1 1) (vec3 0 0 0) SceneC.DECOR 0 (vec3 0 0 0)) 7).
  apply Nat.leb_le. reflexivity.
Defined.

(** ** The scene of [Experience] *)

Lemma hypot_circle_abs (a r : R) : JS.hypot (cos a * r) (sin a * r) = Rabs r.
Proof.
  unfold JS.hypot.
  replace (cos a * r * (cos a * r) + sin a * r * (sin a * r))
    with ((Rsqr (sin a) + Rsqr (cos a)) * Rsqr r) by (unfold Rsqr; ring).
  rewrite sin2_cos2, Rmult_1_l. apply sqrt_Rsqr_abs.
Qed.

Lemma isDUST_false (p : Experience.ParticleData) :
  Experience.type p <> Experience.DUST -> ExperienceScene.isDUST p = false.
Proof.
  intros H. unfold ExperienceScene.isDUST.
  destruct (Experience.type p); congruence.
Qed.

(** X7.  In TREE mode [Experience.animate] takes the helix parameter from
    the registry index, [t = i / 1500].  A particle that is not dust at an
    index below 1500 gets the centred helix of height 30 and radius 12
    (height [30 t - 15] in [[-15, 15)], distance from the axis
    [12 (1 - t)] in [(0, 12]]); one at an index from 4000 on, where a photo
    ingested after set-up lands, gets a target at height 65 or more and at
    least 20 from the axis; dust circles at a radius in [[13, 17]] and a
    height in [[-10, 10]]. *)
Theorem tree_by_registry_index (focusId : option String.string) (time : R)
  (p : Experience.ParticleData) (i : nat) :
  let v := fst (ExperienceScene.targetOf Experience.TREE focusId time p i) in
  (Experience.type p <> Experience.DUST -> (i < 1500)%nat ->
   y v = Spec.helixHeight 30 (INR i / 1500)
   /\ axisDistance v = Spec.helixRadius 12 (INR i / 1500)
   /\ -15 <= y v < 15 /\ 0 < axisDistance v <= 12)
  /\ (Experience.type p <> Experience.DUST -> (4000 <= i)%nat ->
      65 <= y v /\ 20 <= axisDistance v)
  /\ (Experience.type p = Experience.DUST ->
      13 <= axisDistance v <= 17 /\ -10 <= y v <= 10).
Proof.
  intros v. repeat apply conj.
  - intros Ht Hi.
    assert (Hv : v = vec3 (cos (INR i / 1500 * 50 * PI) * (12 * (1 - INR i / 1500)))
                          (INR i / 1500 * 30 - 15)
                          (sin (INR i / 1500 * 50 * PI) * (12 * (1 - INR i / 1500)))).
    { unfold v, ExperienceScene.targetOf. rewrite (isDUST_false p Ht).
      reflexivity. }
    apply INR_below in Hi. rewrite INR_1500 in Hi.
    rewrite Hv. unfold axisDistance. cbn [x y z].
    rewrite hypot_circle by lra.
    unfold Spec.helixHeight, Spec.helixRadius. repeat split; lra.
  - intros Ht Hi.
    assert (Hv : v = vec3 (cos (INR i / 1500 * 50 * PI) * (12 * (1 - INR i / 1500)))
                          (INR i / 1500 * 30 - 15)
                          (sin (INR i / 1500 * 50 * PI) * (12 * (1 - INR i / 1500)))).
    { unfold v, ExperienceScene.targetOf. rewrite (isDUST_false p Ht).
      reflexivity. }
    apply le_INR in Hi. rewrite (INR_small 4000 4000 eq_refl) in Hi.
    rewrite Hv. unfold axisDistance. cbn [x y z].
    rewrite hypot_circle_abs, Rabs_left by lra. split; lra.
  - intros Ht.
    assert (Hv : v = vec3 (cos (INR i / 2500 * PI * 2) * (15 + sin (time + INR i) * 2))
                          (sin (time * 0.5 + INR i) * 10)
                          (sin (INR i / 2500 * PI * 2) * (15 + sin (time + INR i) * 2))).
    { unfold v, ExperienceScene.targetOf, ExperienceScene.isDUST. rewrite Ht.
      reflexivity. }
    pose proof (SIN_bound (time + INR i)).
    pose proof (SIN_bound (time * 0.5 + INR i)).
    rewrite Hv. unfold axisDistance. cbn [x y z].
    rewrite hypot_circle by lra. repeat split; lra.
Qed.

Lemma tree_by_registry_index_witness :
  let p := Experience.mkParticleData Experience.PHOTO newMesh (vec3 0 (-10) 0)
             (vec3 0 0 0) (vec3 0 0 0) (euler 0 0 0) 0 (Experience.photoId 0) in
  65 <= y (fst (ExperienceScene.targetOf Experience.TREE None 0 p 4000)).
Proof.
  cbv zeta.
  apply (proj1 (proj2 (tree_by_registry_index None 0
           (Experience.mkParticleData Experience.PHOTO newMesh (vec3 0 (-10) 0)
              (vec3 0 0 0) (vec3 0 0 0) (euler 0 0 0) 0 (Experience.photoId 0))
           4000))).
  - discriminate.
  - apply Nat.le_refl.
Defined.

Section Census.

Variable toString36 : R -> String.string.

(** [addParticleData], spelled out: eleven draws, one particle pushed, the
    mesh placed on its original position inside the cube of side 50. *)
Lemma addParticleData_run (m : Mesh) (ty : Experience.ParticleType)
  (e : Experience.Experience) (rs : Random.source) :
  exists pd,
    ExperienceScene.addParticleData toString36 m ty e rs
    = (Experience.set_particles e (Experience.particles e ++ [pd]),
       fun n => rs (11 + n)%nat)
    /\ Experience.type pd = ty
    /\ Experience.id pd = ExperienceScene.newId toString36 (rs 10%nat)
    /\ position (Experience.mesh pd) = Experience.originalPosition pd
    /\ scale (Experience.mesh pd) = scale m
    /\ Experience.originalPosition pd
       = vec3 ((rs 0%nat - 0.5) * 50) ((rs 1%nat - 0.5) * 50)
              ((rs 2%nat - 0.5) * 50).
Proof.
  eexists. split.
  { unfold ExperienceScene.addParticleData. reflexivity. }
  repeat split.
Qed.

Lemma subject_type (typeRand : R) :
  fst (ExperienceScene.subject typeRand) <> Experience.DUST
  /\ fst (ExperienceScene.subject typeRand) <> Experience.PHOTO.
Proof.
  unfold ExperienceScene.subject.
  repeat match goal with
         | |- context [Rlt_dec ?a ?b] => destruct (Rlt_dec a b)
         end; split; discriminate.
Qed.

Lemma nth_error_push {A : Type} (l : list A) (a b : A) (k : nat) :
  nth_error (l ++ [a]) k = Some b ->
  ((k < length l)%nat /\ nth_error l k = Some b) \/ (k = length l /\ b = a).
Proof.
  intros H. destruct (Nat.lt_ge_cases k (length l)) as [Hlt|Hge].
  - left. rewrite nth_error_app1 in H by exact Hlt. tauto.
  - right. rewrite nth_error_app2 in H by exact Hge.
    destruct (k - length l)%nat as [|j] eqn:E; [|destruct j; discriminate].
    injection H as <-. split; [lia | reflexivity].
Qed.

Lemma censusE_push (e0 e : Experience.Experience) (n : nat)
  (pd : Experience.ParticleData) :
  censusE e0 n e ->
  ((n < 1500)%nat -> Experience.type pd <> Experience.DUST
                     /\ Experience.type pd <> Experience.PHOTO) ->
  ((1500 <= n)%nat -> Experience.type pd = Experience.DUST) ->
  censusE e0 (S n)
    (Experience.set_particles e (Experience.particles e ++ [pd])).
Proof.
  intros (Hl & Hm & Hf & Hk) H1 H2. split; [|split; [|split]].
  - cbn [Experience.particles Experience.set_particles].
    rewrite length_app. simpl. lia.
  - exact Hm.
  - exact Hf.
  - intros k p Hp. cbn [Experience.particles Experience.set_particles] in Hp.
    apply nth_error_push in Hp. destruct Hp as [[_ Hp]|[-> ->]].
    + apply Hk. exact Hp.
    + rewrite Hl. split; assumption.
Qed.

End Census.

Section CreateParticles.

Variable toString36 : R -> String.string.

Lemma subject_body_census (e0 : Experience.Experience) (i : nat)
  (e : Experience.Experience) (rs : Random.source) :
  ((i <= 1500)%nat -> censusE e0 i e) ->
  (S i <= 1500)%nat ->
  censusE e0 (S i) (fst (ExperienceScene.subject_body toString36 i e rs)).
Proof.
  intros HP Hi. unfold ExperienceScene.subject_body. rewrite bind_run.
  cbn [Random.random fst snd].
  destruct (addParticleData_run toString36
              (snd (ExperienceScene.subject (rs 0%nat)))
              (fst (ExperienceScene.subject (rs 0%nat))) e
              (fun n => rs (S n))) as (pd & E & Et & _).
  rewrite E. cbn [fst]. apply censusE_push.
  - apply HP. lia.
  - intros _. rewrite Et. apply subject_type.
  - intros Hge. lia.
Qed.

Lemma dust_body_census (e0 : Experience.Experience) (i : nat)
  (e : Experience.Experience) (rs : Random.source) :
  censusE e0 (1500 + i) e ->
  censusE e0 (1500 + S i)
          (fst (ExperienceScene.dust_body toString36 i e rs)).
Proof.
  intros HP. unfold ExperienceScene.dust_body.
  destruct (addParticleData_run toString36 newMesh Experience.DUST e rs)
    as (pd & E & Et & _).
  rewrite E. cbn [fst]. rewrite Nat.add_succ_r. apply censusE_push.
  - exact HP.
  - intros Hlt. lia.
  - intros _. exact Et.
Qed.

Lemma createParticles_censusE (e0 : Experience.Experience)
  (rs : Random.source) :
  Experience.particles e0 = [] ->
  censusE e0 4000 (fst (ExperienceScene.createParticles toString36 e0 rs)).
Proof.
  intros He. unfold ExperienceScene.createParticles. rewrite bind_run.
  apply (for_range_invariant (fun i => censusE e0 (1500 + i))
           (ExperienceScene.dust_body toString36)
           (fun i acc r => dust_body_census e0 i acc r) 2500 0%nat).
  rewrite Nat.add_0_r.
  apply (for_range_invariant
           (fun i e => (i <= 1500)%nat -> censusE e0 i e)
           (ExperienceScene.subject_body toString36)
           (fun i acc r HP Hi => subject_body_census e0 i acc r HP Hi)
           1500 0%nat e0 rs).
  - intros _. repeat split; try (rewrite He; reflexivity);
      rewrite He in *; destruct k; discriminate.
  - apply Nat.le_refl.
Qed.

(** What the census implies for a registry built on a fresh state. *)
Lemma census_consequences (e0 e : Experience.Experience) :
  censusE e0 4000 e ->
  Experience.mode e0 = Experience.TREE -> Experience.focusId e0 = None ->
  length (Experience.particles e) = 4000%nat
  /\ (forall k p,
        nth_error (Experience.particles e) k = Some p ->
        ((k < 1500)%nat -> Experience.type p <> Experience.DUST
                           /\ Experience.type p <> Experience.PHOTO)
        /\ ((1500 <= k)%nat -> Experience.type p = Experience.DUST))
  /\ Experience.mode e = Experience.TREE
  /\ Experience.focusId e = None
  /\ Experience.photos (Experience.particles e) = []
  /\ (forall now rs',
        exists e',
          Experience.setMode Experience.FOCUS now e rs' = (Some e', rs')
          /\ Experience.mode e' = Experience.SCATTER
          /\ Experience.particles e' = Experience.particles e).
Proof.
  intros (Hl & Hm & Hf & Hk) Hm0 Hf0. rewrite Hm0 in Hm. rewrite Hf0 in Hf.
  assert (Hp : Experience.photos (Experience.particles e) = []).
  { destruct (Experience.photos (Experience.particles e)) as [|p ph] eqn:E;
      [reflexivity|].
    assert (Hin : In p (Experience.photos (Experience.particles e)))
      by (rewrite E; left; reflexivity).
    apply filter_In in Hin. destruct Hin as [Hin Hph].
    apply In_nth_error in Hin. destruct Hin as [k Hn].
    destruct (Hk k p Hn) as [H1 H2]. unfold Experience.isPHOTO in Hph.
    destruct (Nat.lt_ge_cases k 1500) as [Hlt|Hge].
    - destruct (H1 Hlt) as [_ Hnp]. destruct (Experience.type p);
        try discriminate. congruence.
    - rewrite (H2 Hge) in Hph. discriminate. }
  repeat apply conj; try assumption.
  intros now rs'. rewrite setMode_no_photos; [|rewrite Hm; discriminate|exact Hp].
  eexists. repeat split.
Qed.

(** X8.  [createParticles] on a fresh [Experience] registers 4000
    particles: indices 0 to 1499 hold particles that are neither dust nor
    photo, indices 1500 to 3999 hold dust.  The mode stays TREE, nothing is
    focused and no photo is registered, so a first request for FOCUS right
    after set-up ends in SCATTER, whatever the random source. *)
Theorem createParticles_census (rs : Random.source) :
  length (Experience.particles
            (fst (ExperienceScene.createParticles toString36 Experience.new rs)))
  = 4000%nat
  /\ (forall k p,
        nth_error (Experience.particles
                     (fst (ExperienceScene.createParticles toString36
                             Experience.new rs))) k = Some p ->
        ((k < 1500)%nat -> Experience.type p <> Experience.DUST
                           /\ Experience.type p <> Experience.PHOTO)
        /\ ((1500 <= k)%nat -> Experience.type p = Experience.DUST))
  /\ Experience.mode
       (fst (ExperienceScene.createParticles toString36 Experience.new rs))
     = Experience.TREE
  /\ Experience.focusId
       (fst (ExperienceScene.createParticles toString36 Experience.new rs))
     = None
  /\ Experience.photos
       (Experience.particles
          (fst (ExperienceScene.createParticles toString36 Experience.new rs)))
     = []
  /\ (forall now rs',
        exists e',
          Experience.setMode Experience.FOCUS now
            (fst (ExperienceScene.createParticles toString36 Experience.new rs))
            rs' = (Some e', rs')
          /\ Experience.mode e' = Experience.SCATTER
          /\ Experience.particles e'
             = Experience.particles
                 (fst (ExperienceScene.createParticles toString36
                         Experience.new rs))).
Proof.
  exact (census_consequences Experience.new
           (fst (ExperienceScene.createParticles toString36 Experience.new rs))
           (createParticles_censusE Experience.new rs eq_refl)
           eq_refl eq_refl).
Qed.

End CreateParticles.

(** ** The presentation slot *)

Lemma focusA_presented (f : Z) (time : R) (p : SceneA.ParticleItem) (idx : nat) :
  Z.of_nat idx = f ->
  SceneA.target FOCUS f time p idx
  = SceneA.set_targetScale
      (SceneA.set_targetRot (SceneA.set_targetPos p (vec3 0 2 35))
                            (euler 0 0 0))
      (vec3 4.5 4.5 4.5).
Proof.
  intros E. unfold SceneA.target.
  destruct (Z.eqb_spec (Z.of_nat idx) f); [reflexivity | contradiction].
Qed.

(** X9.  In FOCUS mode of [components/Scene.tsx], from a state where the
    focus target is set on a registered photo, [calculateTargets] gives the
    presentation slot (position [(0, 2, 35)], neutral orientation, scale
    4.5) to the particle at [focusedPhotoIndex], which is a photo, and to no
    other: every other particle is sent to the point whose coordinates are
    2.5 times those of its scatter anchor, at scale 0.1. *)
Theorem focus_presents_one (now : R) (s : SceneA.State) :
  SceneA.Inv s -> SceneA.mode s = FOCUS ->
  (0 <= SceneA.focusedPhotoIndex s)%Z ->
  let s' := SceneA.calculateTargets now s in
  (exists p',
      nth_error (SceneA.particles s')
                (Z.to_nat (SceneA.focusedPhotoIndex s)) = Some p'
      /\ SceneA.type p' = SceneA.PHOTO
      /\ SceneA.targetPos p' = vec3 0 2 35
      /\ SceneA.targetRot p' = euler 0 0 0
      /\ SceneA.targetScale p' = vec3 4.5 4.5 4.5)
  /\ (forall i q,
        nth_error (SceneA.particles s) i = Some q ->
        Z.of_nat i <> SceneA.focusedPhotoIndex s ->
        exists q',
          nth_error (SceneA.particles s') i = Some q'
          /\ SceneA.targetPos q' = multiplyScalar (SceneA.scatterPos q) 2.5
          /\ SceneA.targetPos q'
             = vec3 (x (SceneA.scatterPos q) * 2.5)
                    (y (SceneA.scatterPos q) * 2.5)
                    (z (SceneA.scatterPos q) * 2.5)
          /\ SceneA.targetScale q' = vec3 0.1 0.1 0.1
          /\ SceneA.targetScale q' <> vec3 4.5 4.5 4.5).
Proof.
  intros [_ Hf] Hm H0 s'. subst s'. destruct (Hf H0) as (p & Hp & Ht).
  rewrite calculateTargetsA_particles, Hm. split.
  - rewrite forEach_nth, Hp. cbn [option_map].
    rewrite focusA_presented by (rewrite Z2Nat.id; [reflexivity | exact H0]).
    eexists. split; [reflexivity|]. repeat split. exact Ht.
  - intros i q Hq Hne. rewrite forEach_nth, Hq. cbn [option_map].
    rewrite focusA_pushed by exact Hne.
    eexists. split; [reflexivity|]. cbn. repeat split.
    intros E. injection E as E _ _. lra.
Qed.

(** Of two photos with anchor (4, 0, 3), the focused one is presented and
    the other is sent to (10, 0, 7.5). *)
Lemma focus_presents_one_witness :
  (exists p',
      nth_error (SceneA.particles
                   (SceneA.calculateTargets 0
                      (SceneA.mkState FOCUS [photoA 0 0; photoA 1 1] 1 0 0
                                      FOCUS))) 1
      = Some p'
      /\ SceneA.type p' = SceneA.PHOTO
      /\ SceneA.targetPos p' = vec3 0 2 35
      /\ SceneA.targetRot p' = euler 0 0 0
      /\ SceneA.targetScale p' = vec3 4.5 4.5 4.5)
  /\ (exists q',
        nth_error (SceneA.particles
                     (SceneA.calculateTargets 0
                        (SceneA.mkState FOCUS [photoA 0 0; photoA 1 1] 1 0 0
                                        FOCUS))) 0
        = Some q'
        /\ SceneA.targetPos q' = vec3 10 0 7.5
        /\ SceneA.targetScale q' = vec3 0.1 0.1 0.1).
Proof.
  destruct (focus_presents_one 0
              (SceneA.mkState FOCUS [photoA 0 0; photoA 1 1] 1 0 0 FOCUS))
    as [Hp Hq].
  - split.
    + intros [|[|i]] p Hp; simpl in Hp.
      * injection Hp as <-. reflexivity.
      * injection Hp as <-. reflexivity.
      * destruct i; discriminate.
    + intros _. exists (photoA 1 1). split; reflexivity.
  - reflexivity.
  - simpl. lia.
  - split; [exact Hp|].
    destruct (Hq 0%nat (photoA 0 0) eq_refl) as (q' & Hn & _ & Hc & Hs & _).
    { cbn [SceneA.focusedPhotoIndex]. lia. }
    exists q'. repeat apply conj; try assumption.
    rewrite Hc. cbn [photoA SceneA.scatterPos x y z]. f_equal; lra.
Defined.

Lemma focusB_presented (mob : bool) (f : Z) (time : R)
  (p : SceneB.ParticleItem) (idx : nat) :
  Z.of_nat idx = f ->
  SceneB.target mob FOCUS f time p idx
  = SceneB.set_targetScale
      (SceneB.set_targetRot
         (SceneB.set_targetPos p (vec3 0 2 (if mob then 40 else 35)))
         (euler 0 0 0))
      (vec3 (if mob then 3.5 else 4.5) (if mob then 3.5 else 4.5) 1).
Proof.
  intros E. unfold SceneB.target.
  destruct (Z.eqb_spec (Z.of_nat idx) f); [reflexivity | contradiction].
Qed.

(** The focus [selectFocus] leaves in FOCUS, on a registry with a photo. *)
Lemma selectFocusB_sets (s : SceneB.State) (rs : Random.source) :
  SceneB.Inv s -> (-1 <= SceneB.focusedPhotoIndex s)%Z -> Random.fair rs ->
  SceneB.photos (SceneB.particles s) <> [] ->
  let s1 := fst (SceneB.selectFocus FOCUS s rs) in
  (0 <= SceneB.focusedPhotoIndex s1)%Z
  /\ exists p, nth_error (SceneB.particles s)
                         (Z.to_nat (SceneB.focusedPhotoIndex s1)) = Some p
               /\ SceneB.type p = SceneB.PHOTO.
Proof.
  intros [Hh Hf] Hlo Hr Hph s1. subst s1.
  destruct (Z.eq_dec (SceneB.focusedPhotoIndex s) (-1)) as [E|E].
  - rewrite selectFocusB_draws by exact E.
    cbn [fst SceneB.set_focusedPhotoIndex SceneB.focusedPhotoIndex].
    set (k := JS.floor (rs 0%nat
                        * INR (length (SceneB.photos (SceneB.particles s))))).
    destruct (drawnB_photo (SceneB.particles s) k Hh)
      as [[En _]|(t & _ & Ht & Hty & H0)].
    + exfalso.
      destruct (get_in_range (SceneB.photos (SceneB.particles s)) k)
        as [a Ea]; [|congruence].
      apply floor_random_index; [apply Hr|].
      destruct (SceneB.photos (SceneB.particles s)); [congruence | simpl; lia].
    + split; [exact H0|]. exists t. split; assumption.
  - rewrite selectFocusB_keeps by exact E. cbn [fst].
    assert (H0 : (0 <= SceneB.focusedPhotoIndex s)%Z) by lia.
    split; [exact H0 | exact (Hf H0)].
Qed.

(** X10.  The focus of [part_002] follows the mode.  A target computation
    in any mode but FOCUS clears [focusedPhotoIndex] and draws no random
    number.  In FOCUS, from a state with at least one photo and
    [Math.random()] in [[0, 1)], it leaves the focus on a registered photo,
    drawing it only when none was set, and that photo gets the presentation
    slot: position [(0, 2, 35)] ([(0, 2, 40)] on a mobile screen) and scale
    [(4.5, 4.5, 1)] (resp. [(3.5, 3.5, 1)]). *)
Theorem focus_follows_mode (m : SceneMode) (now : R) (s : SceneB.State)
  (rs : Random.source) :
  SceneB.Inv s -> (-1 <= SceneB.focusedPhotoIndex s)%Z -> Random.fair rs ->
  SceneB.photos (SceneB.particles s) <> [] ->
  let r := SceneB.calculateTargets m now s rs in
  (m <> FOCUS -> SceneB.focusedPhotoIndex (fst r) = (-1)%Z /\ snd r = rs)
  /\ (m = FOCUS ->
      (0 <= SceneB.focusedPhotoIndex (fst r))%Z
      /\ (SceneB.focusedPhotoIndex s <> (-1)%Z ->
          SceneB.focusedPhotoIndex (fst r) = SceneB.focusedPhotoIndex s
          /\ snd r = rs)
      /\ exists p',
           nth_error (SceneB.particles (fst r))
                     (Z.to_nat (SceneB.focusedPhotoIndex (fst r))) = Some p'
           /\ SceneB.type p' = SceneB.PHOTO
           /\ SceneB.targetPos p'
              = vec3 0 2 (if SceneB.isMobile s then 40 else 35)
           /\ SceneB.targetScale p'
              = vec3 (if SceneB.isMobile s then 3.5 else 4.5)
                     (if SceneB.isMobile s then 3.5 else 4.5) 1).
Proof.
  intros HI Hlo Hr Hph r. subst r. rewrite calculateTargetsB_run. split.
  - intros Hm. rewrite selectFocusB_clears by exact Hm. split; reflexivity.
  - intros ->. cbn [fst snd SceneB.set_particles SceneB.focusedPhotoIndex
                    SceneB.particles].
    destruct (selectFocusB_sets s rs HI Hlo Hr Hph) as (H0 & p & Hp & Ht).
    destruct (selectFocusB_frame FOCUS s rs) as (Eps & _ & Emob).
    split; [exact H0|]. split.
    + intros Hne. rewrite selectFocusB_keeps by exact Hne. split; reflexivity.
    + rewrite forEach_nth, Eps, Hp. cbn [option_map].
      rewrite focusB_presented by (rewrite Z2Nat.id; [reflexivity | exact H0]).
      rewrite Emob. eexists. split; [reflexivity|]. repeat split. exact Ht.
Qed.

Lemma focus_follows_mode_witness :
  SceneB.focusedPhotoIndex
    (fst (SceneB.calculateTargets TREE 0
            (SceneB.mkState TREE [photoB 0 0] 0 false 0 0 TREE) zeroThenHalf))
  = (-1)%Z
  /\ snd (SceneB.calculateTargets TREE 0
            (SceneB.mkState TREE [photoB 0 0] 0 false 0 0 TREE) zeroThenHalf)
     = zeroThenHalf.
Proof.
  apply (focus_follows_mode TREE 0
           (SceneB.mkState TREE [photoB 0 0] 0 false 0 0 TREE) zeroThenHalf).
  - split.
    + intros [|i] p Hp; simpl in Hp.
      * injection Hp as <-. reflexivity.
      * destruct i; discriminate.
    + intros _. exists (photoB 0 0). split; reflexivity.
  - simpl. lia.
  - exact zeroThenHalf_fair.
  - discriminate.
  - discriminate.
Defined.

(** ** Frames without a hand *)

Lemma targetA_key (md : SceneMode) (f : Z) (time : R)
  (p : SceneA.ParticleItem) (idx : nat) :
  keyA (SceneA.target md f time p idx) = keyA p
  /\ SceneA.mesh (SceneA.target md f time p idx) = SceneA.mesh p.
Proof.
  unfold SceneA.target. destruct md.
  - destruct (SceneA.isDECOR p); [split; reflexivity|].
    destruct (if SceneA.isPHOTO p then SceneA.photoConfig p else None);
      split; reflexivity.
  - split; reflexivity.
  - destruct (Z.of_nat idx =? f)%Z; split; reflexivity.
Qed.

Lemma targetA_scatter (f : Z) (time : R) (p : SceneA.ParticleItem) (idx : nat) :
  SceneA.targetPos (SceneA.target SCATTER f time p idx) = SceneA.scatterPos p
  /\ SceneA.targetScale (SceneA.target SCATTER f time p idx) = vec3 1 1 1.
Proof. split; reflexivity. Qed.

Lemma nth_map_forEach {A : Type} (f : A -> A) (g : A -> nat -> A)
  (l : list A) (i : nat) :
  nth_error (map f (JS.forEach g l)) i
  = option_map (fun p => f (g p i)) (nth_error l i).
Proof.
  rewrite nth_error_map, forEach_nth. destruct (nth_error l i); reflexivity.
Qed.

Section IdleFrames.

Context `{Orientation}.

Lemma updateA_key (md : SceneMode) (p : SceneA.ParticleItem) :
  keyA (SceneA.update md p) = keyA p.
Proof. unfold SceneA.update. destruct (SceneMode_eqb md SCATTER); reflexivity. Qed.

(** A frame in which no hand is seen. *)
Lemma animateA_idle (f : Loop.FrameInput) (s : SceneA.State)
  (rs : Random.source) :
  Loop.seen f = None ->
  let r := SceneA.animate (Loop.ready f) (Loop.landmarks f) (Loop.now f) s rs in
  snd r = rs
  /\ SceneA.mode (fst r) = SceneA.mode s
  /\ SceneA.focusedPhotoIndex (fst r) = SceneA.focusedPhotoIndex s
  /\ SceneA.mainGroupRotX (fst r) = SceneA.mainGroupRotX s
  /\ SceneA.mainGroupRotY (fst r) = SceneA.mainGroupRotY s
  /\ forall i,
       nth_error (SceneA.particles (fst r)) i
       = option_map
           (fun p => SceneA.update (SceneA.mode s)
                       (SceneA.target (SceneA.mode s)
                          (SceneA.focusedPhotoIndex s)
                          (Loop.now f * 0.001) p i))
           (nth_error (SceneA.particles s) i).
Proof.
  intros Hs r. subst r. rewrite animateA_run. unfold Loop.seen in Hs.
  rewrite Hs. cbn [fst snd]. repeat split.
  intros i. cbn [SceneA.particles SceneA.set_particles].
  rewrite calculateTargetsA_particles. apply nth_map_forEach.
Qed.

Lemma framesA_idle (inputs : list Loop.FrameInput) :
  Forall (fun f => Loop.seen f = None) inputs ->
  forall (s : SceneA.State) (rs : Random.source),
    let r := Loop.framesA inputs s rs in
    snd r = rs
    /\ SceneA.mode (fst r) = SceneA.mode s
    /\ SceneA.focusedPhotoIndex (fst r) = SceneA.focusedPhotoIndex s
    /\ SceneA.mainGroupRotX (fst r) = SceneA.mainGroupRotX s
    /\ SceneA.mainGroupRotY (fst r) = SceneA.mainGroupRotY s
    /\ (forall i p,
          nth_error (SceneA.particles s) i = Some p ->
          exists p',
            nth_error (SceneA.particles (fst r)) i = Some p'
            /\ keyA p' = keyA p
            /\ (SceneA.mode s = SCATTER ->
                distanceTo (position (SceneA.mesh p')) (SceneA.scatterPos p)
                = distanceTo (position (SceneA.mesh p)) (SceneA.scatterPos p)
                  * (1 - 0.07) ^ length inputs
                /\ distanceTo (scale (SceneA.mesh p')) (vec3 1 1 1)
                   = distanceTo (scale (SceneA.mesh p)) (vec3 1 1 1)
                     * (1 - 0.07) ^ length inputs))
    /\ (forall i, nth_error (SceneA.particles s) i = None ->
                  nth_error (SceneA.particles (fst r)) i = None).
Proof.
  induction 1 as [|f inputs Hf _ IH]; intros s rs r; subst r.
  - cbn [Loop.framesA Random.ret fst snd length pow]. repeat split.
    + intros i p Hp. exists p. repeat split; [exact Hp | ring | ring].
    + tauto.
  - cbn [Loop.framesA]. rewrite bind_run.
    destruct (animateA_idle f s rs Hf) as (Er & Em & Ei & Ex & Ey & En).
    set (s1 := fst (SceneA.animate (Loop.ready f) (Loop.landmarks f)
                                   (Loop.now f) s rs)) in *.
    rewrite Er.
    destruct (IH s1 rs) as (Jr & Jm & Ji & Jx & Jy & Jn & Jz).
    repeat split; try congruence.
    + intros i p Hp. specialize (En i). rewrite Hp in En. cbn [option_map] in En.
      destruct (Jn i _ En) as (p' & Hp' & Hk & Hc).
      exists p'. split; [exact Hp'|].
      destruct (targetA_key (SceneA.mode s) (SceneA.focusedPhotoIndex s)
                  (Loop.now f * 0.001) p i) as [Kt Mt].
      pose proof (updateA_key (SceneA.mode s)
                    (SceneA.target (SceneA.mode s) (SceneA.focusedPhotoIndex s)
                       (Loop.now f * 0.001) p i)) as Ku.
      split; [congruence|].
      intros Hm. rewrite Hm in *. destruct (Hc Em) as [Hd Hsc].
      assert (Es : SceneA.scatterPos p' = SceneA.scatterPos p).
      { unfold keyA in Hk, Ku, Kt. congruence. }
      assert (E1 : SceneA.scatterPos
                     (SceneA.update SCATTER
                        (SceneA.target SCATTER (SceneA.focusedPhotoIndex s)
                           (Loop.now f * 0.001) p i)) = SceneA.scatterPos p).
      { unfold keyA in Ku, Kt. congruence. }
      rewrite E1 in Hd.
      rewrite updateA_position in Hd. rewrite updateA_scale in Hsc.
      destruct (targetA_scatter (SceneA.focusedPhotoIndex s)
                  (Loop.now f * 0.001) p i) as [Tp Ts].
      rewrite Tp, Mt in Hd. rewrite Ts, Mt in Hsc.
      rewrite lerp_distance in Hd by lra. rewrite lerp_distance in Hsc by lra.
      cbn [length pow]. split; [rewrite Hd | rewrite Hsc]; ring.
    + intros i Hn. apply Jz. rewrite (En i), Hn. reflexivity.
Qed.

(** Frames without a hand make no mode request. *)
Lemma framesA_idle_requested (inputs : list Loop.FrameInput) :
  Forall (fun f => Loop.seen f = None) inputs ->
  forall (s : SceneA.State) (rs : Random.source),
    SceneA.requested (fst (Loop.framesA inputs s rs)) = SceneA.requested s.
Proof.
  induction 1 as [|f inputs Hf _ IH]; intros s rs; [reflexivity|].
  cbn [Loop.framesA]. rewrite bind_run, IH, animateA_run.
  unfold Loop.seen in Hf. rewrite Hf. reflexivity.
Qed.

(** X11.  Frames of the first scene in which no hand is seen (the landmarker
    is not ready, or it reports no hand) change neither the mode, nor the
    mode the owner holds, nor the focused index, nor the rotation of the
    group, and draw no random
    number; no particle is added or removed, and every particle keeps its
    identity, type, slot, scatter position and photo placement.  In SCATTER
    mode the distance of every particle to its scatter position, and of
    its scale to (1,1,1), is multiplied by 0.93 in each such frame. *)
Theorem idle_frames (inputs : list Loop.FrameInput) (s : SceneA.State)
  (rs : Random.source) :
  Forall (fun f => Loop.seen f = None) inputs ->
  snd (Loop.framesA inputs s rs) = rs
  /\ SceneA.mode (fst (Loop.framesA inputs s rs)) = SceneA.mode s
  /\ SceneA.requested (fst (Loop.framesA inputs s rs)) = SceneA.requested s
  /\ SceneA.focusedPhotoIndex (fst (Loop.framesA inputs s rs))
     = SceneA.focusedPhotoIndex s
  /\ SceneA.mainGroupRotX (fst (Loop.framesA inputs s rs))
     = SceneA.mainGroupRotX s
  /\ SceneA.mainGroupRotY (fst (Loop.framesA inputs s rs))
     = SceneA.mainGroupRotY s
  /\ length (SceneA.particles (fst (Loop.framesA inputs s rs)))
     = length (SceneA.particles s)
  /\ forall i p,
       nth_error (SceneA.particles s) i = Some p ->
       exists p',
         nth_error (SceneA.particles (fst (Loop.framesA inputs s rs))) i
         = Some p'
         /\ keyA p' = keyA p
         /\ (SceneA.mode s = SCATTER ->
             distanceTo (position (SceneA.mesh p')) (SceneA.scatterPos p)
             = distanceTo (position (SceneA.mesh p)) (SceneA.scatterPos p)
               * (1 - 0.07) ^ length inputs
             /\ distanceTo (scale (SceneA.mesh p')) (vec3 1 1 1)
                = distanceTo (scale (SceneA.mesh p)) (vec3 1 1 1)
                  * (1 - 0.07) ^ length inputs).
Proof.
  intros Hi.
  destruct (framesA_idle inputs Hi s rs) as (Er & Em & Ef & Ex & Ey & En & Ez).
  pose proof (framesA_idle_requested inputs Hi s rs) as Eq.
  repeat apply conj; try assumption.
  set (l' := SceneA.particles (fst (Loop.framesA inputs s rs))) in *.
  set (l := SceneA.particles s) in *.
  destruct (Nat.lt_trichotomy (length l') (length l)) as [Hl|[Hl|Hl]].
  - destruct (nth_error l (length l')) as [p|] eqn:Hp.
    + destruct (En _ _ Hp) as (p' & Hp' & _).
      apply nth_error_Some in Hl.
      assert (nth_error l' (length l') = None)
        by (apply nth_error_None; apply Nat.le_refl).
      congruence.
    + apply nth_error_None in Hp. lia.
  - exact Hl.
  - assert (Hn : nth_error l (length l) = None)
      by (apply nth_error_None; apply Nat.le_refl).
    apply Ez in Hn. apply nth_error_None in Hn. fold l' in Hn. lia.
Qed.

End IdleFrames.

Lemma idle_frames_witness :
  SceneA.mode
    (fst (@Loop.framesA stillOrientation
            [Loop.mkFrameInput false (Some pinchingHand) 0;
             Loop.mkFrameInput true None 16]
            (SceneA.mkState SCATTER [decorA 0; photoA 1 0] (-1) 0 0 SCATTER)
            (Random.const 0)))
  = SCATTER.
Proof.
  refine (proj1 (proj2 (@idle_frames stillOrientation
           [Loop.mkFrameInput false (Some pinchingHand) 0;
            Loop.mkFrameInput true None 16]
           (SceneA.mkState SCATTER [decorA 0; photoA 1 0] (-1) 0 0 SCATTER)
           (Random.const 0) _))).
  repeat constructor.
Defined.

(** ** Palm tracking *)

Lemma gesturesA_rotation (hand : Hand) (s : SceneA.State) (rs : Random.source) :
  SceneA.mainGroupRotX (fst (SceneA.gestures hand s rs)) = SceneA.mainGroupRotX s
  /\ SceneA.mainGroupRotY (fst (SceneA.gestures hand s rs))
     = SceneA.mainGroupRotY s.
Proof.
  destruct (gesturesA_cases hand s)
    as [[_ E]|[(_ & _ & E)|[(_ & _ & E)|(_ & _ & E)]]]; rewrite E;
    try (split; reflexivity).
  unfold SceneA.pinched.
  destruct (negb (SceneMode_eqb (SceneA.mode s) FOCUS)); [|split; reflexivity].
  destruct (0 <? length (SceneA.photos (SceneA.particles s)))%nat;
    split; reflexivity.
Qed.

Lemma lerp_between (a b lo hi t : R) :
  0 <= t <= 1 -> lo <= a <= hi -> lo <= b <= hi -> lo <= JS.lerp a b t <= hi.
Proof. intros Ht Ha Hb. unfold JS.lerp. split; nra. Qed.

Section PalmTracking.

Context `{Orientation}.

Lemma animateA_rotation (ready : bool) (landmarks : option Hand) (now : R)
  (s : SceneA.State) (rs : Random.source) :
  let r := SceneA.animate ready landmarks now s rs in
  match (if ready then landmarks else None) with
  | Some hand =>
      SceneA.mainGroupRotX (fst r)
      = JS.lerp (SceneA.mainGroupRotX s) ((ly (hand 9%nat) - 0.5) * 2) 0.1
      /\ SceneA.mainGroupRotY (fst r)
         = JS.lerp (SceneA.mainGroupRotY s) ((lx (hand 9%nat) - 0.5) * 4) 0.1
  | None =>
      SceneA.mainGroupRotX (fst r) = SceneA.mainGroupRotX s
      /\ SceneA.mainGroupRotY (fst r) = SceneA.mainGroupRotY s
  end.
Proof.
  intros r. subst r. rewrite animateA_run.
  destruct (if ready then landmarks else None) as [hand|]; cbn [fst].
  - destruct (gesturesA_rotation hand (SceneA.palmTracking hand s) rs)
      as [Ex Ey].
    split; [exact Ex | exact Ey].
  - split; reflexivity.
Qed.

(** X12.  In [components/Scene.tsx] the rotation of the group follows the
    palm (landmark 9) by a tenth of the remaining way in each frame with a
    hand, and stays in frames without one.  So with landmarks in the unit
    square, a rotation that starts with the first component in [-1, 1] and
    the second in [-2, 2] (as it does after set-up, at (0, 0)) stays there
    over any sequence of frames, whatever the gestures do. *)
Theorem tilt_bounded (inputs : list Loop.FrameInput) (s : SceneA.State)
  (rs : Random.source) :
  Forall (fun f => forall hand, Loop.seen f = Some hand -> palm_normalized hand)
         inputs ->
  -1 <= SceneA.mainGroupRotX s <= 1 ->
  -2 <= SceneA.mainGroupRotY s <= 2 ->
  -1 <= SceneA.mainGroupRotX (fst (Loop.framesA inputs s rs)) <= 1
  /\ -2 <= SceneA.mainGroupRotY (fst (Loop.framesA inputs s rs)) <= 2.
Proof.
  intros Hi. revert s rs.
  induction Hi as [|f inputs Hf _ IH]; intros s rs Hx Hy.
  - cbn [Loop.framesA Random.ret fst]. split; assumption.
  - cbn [Loop.framesA]. rewrite bind_run.
    pose proof (animateA_rotation (Loop.ready f) (Loop.landmarks f)
                  (Loop.now f) s rs) as Hr.
    cbv zeta in Hr. fold (Loop.seen f) in Hr.
    destruct (Loop.seen f) as [hand|] eqn:Es.
    + destruct (Hf hand eq_refl) as [Hpx Hpy]. destruct Hr as [Ex Ey].
      apply IH.
      * rewrite Ex. apply lerp_between; lra.
      * rewrite Ey. apply lerp_between; lra.
    + destruct Hr as [Ex Ey]. apply IH; [rewrite Ex | rewrite Ey]; assumption.
Qed.

End PalmTracking.

Lemma tilt_bounded_witness :
  -1 <= SceneA.mainGroupRotX
          (fst (@Loop.framesA stillOrientation
                  [Loop.mkFrameInput true (Some pinchingHand) 0]
                  (SceneA.mkState TREE [decorA 0] (-1) 0 0 TREE)
                  (Random.const 0))) <= 1
  /\ -2 <= SceneA.mainGroupRotY
             (fst (@Loop.framesA stillOrientation
                     [Loop.mkFrameInput true (Some pinchingHand) 0]
                     (SceneA.mkState TREE [decorA 0] (-1) 0 0 TREE)
                     (Random.const 0))) <= 2.
Proof.
  apply (@tilt_bounded stillOrientation
           [Loop.mkFrameInput true (Some pinchingHand) 0]
           (SceneA.mkState TREE [decorA 0] (-1) 0 0 TREE) (Random.const 0)).
  - constructor; [|constructor].
    intros hand Eh. injection Eh as <-.
    unfold palm_normalized, pinchingHand. cbn [lx ly]. lra.
  - cbn [SceneA.mainGroupRotX]. lra.
  - cbn [SceneA.mainGroupRotY]. lra.
Defined.

(** ** Frames of [part_004] without a hand *)

Lemma selectFocusC_frame (m : SceneMode) (s : SceneC.State)
  (rs : Random.source) :
  SceneC.mode (fst (SceneC.selectFocus m s rs)) = SceneC.mode s
  /\ SceneC.particles (fst (SceneC.selectFocus m s rs)) = SceneC.particles s
  /\ SceneC.mainGroupRotX (fst (SceneC.selectFocus m s rs))
     = SceneC.mainGroupRotX s
  /\ SceneC.mainGroupRotY (fst (SceneC.selectFocus m s rs))
     = SceneC.mainGroupRotY s.
Proof.
  unfold SceneC.selectFocus.
  destruct (SceneMode_eqb m FOCUS && (SceneC.focusedPhotoIndex s =? -1)%Z).
  - run. repeat split.
  - destruct (negb (SceneMode_eqb m FOCUS)); repeat split.
Qed.

Section FramesC.

Context `{Orientation}.

(** What a frame of [part_004] leaves of the state [processHand] made. *)
Lemma animateC_frame (ready : bool) (landmarks : option Hand) (now : R)
  (s : SceneC.State) (rs : Random.source) :
  let g := SceneC.processHand ready landmarks s in
  let r := SceneC.animate ready landmarks now s rs in
  SceneC.mode (fst r) = SceneC.mode g
  /\ SceneC.mainGroupRotX (fst r) = SceneC.mainGroupRotX g
  /\ SceneC.mainGroupRotY (fst r) = SceneC.mainGroupRotY g
  /\ length (SceneC.particles (fst r)) = length (SceneC.particles s).
Proof.
  intros g r. subst r. unfold SceneC.animate. fold g. cbv zeta.
  rewrite bind_run. unfold SceneC.calculateTargets. rewrite bind_run.
  unfold Random.ret. cbn [fst snd].
  destruct (selectFocusC_frame (SceneC.mode g) g rs) as (Em & Ep & Ex & Ey).
  cbn [SceneC.mode SceneC.set_particles SceneC.mainGroupRotX
       SceneC.mainGroupRotY SceneC.particles].
  rewrite !forEach_length, Ep.
  repeat apply conj; try assumption.
  subst g. unfold SceneC.processHand.
  destruct ready; [|reflexivity].
  destruct landmarks as [hand|]; [|reflexivity].
  destruct (Rlt_dec (SceneC.pinchDist hand) 0.04).
  { match goal with |- context [if ?b then _ else _] => destruct b end;
      reflexivity. }
  destruct (Rlt_dec (SceneC.avgDist hand) 0.2).
  { match goal with |- context [if ?b then _ else _] => destruct b end;
      reflexivity. }
  destruct (Rgt_dec (SceneC.avgDist hand) 0.35); [|reflexivity].
  match goal with |- context [if ?b then _ else _] => destruct b end;
    reflexivity.
Qed.

Lemma selectFocusC_requested (m : SceneMode) (s : SceneC.State)
  (rs : Random.source) :
  SceneC.requested (fst (SceneC.selectFocus m s rs)) = SceneC.requested s.
Proof.
  unfold SceneC.selectFocus.
  destruct (SceneMode_eqb m FOCUS && (SceneC.focusedPhotoIndex s =? -1)%Z).
  - run. reflexivity.
  - destruct (negb (SceneMode_eqb m FOCUS)); reflexivity.
Qed.

(** Frames without a hand make no mode request. *)
Lemma framesC_idle_requested (inputs : list Loop.FrameInput) :
  Forall (fun f => Loop.seen f = None) inputs ->
  forall (s : SceneC.State) (rs : Random.source),
    SceneC.requested (fst (framesC inputs s rs)) = SceneC.requested s.
Proof.
  induction 1 as [|f inputs Hf _ IH]; intros s rs; [reflexivity|].
  cbn [framesC]. rewrite bind_run, IH.
  unfold SceneC.animate. cbv zeta. rewrite bind_run.
  unfold SceneC.calculateTargets. rewrite bind_run.
  unfold Random.ret. cbn [fst snd SceneC.requested SceneC.set_particles].
  rewrite selectFocusC_requested.
  unfold Loop.seen in Hf. unfold SceneC.processHand.
  destruct (Loop.ready f); [rewrite Hf|]; reflexivity.
Qed.

Lemma framesC_idle (inputs : list Loop.FrameInput)
  (s : SceneC.State) (rs : Random.source) :
  Forall (fun f => Loop.seen f = None) inputs ->
  SceneC.mode (fst (framesC inputs s rs)) = SceneC.mode s
  /\ length (SceneC.particles (fst (framesC inputs s rs)))
     = length (SceneC.particles s)
  /\ SceneC.mainGroupRotX (fst (framesC inputs s rs))
     = SceneC.mainGroupRotX s * (1 - 0.05) ^ length (filter Loop.ready inputs)
  /\ SceneC.mainGroupRotY (fst (framesC inputs s rs))
     = SceneC.mainGroupRotY s
       + 0.006 * INR (length (filter Loop.ready inputs)).
Proof.
  intros Hi. revert s rs.
  induction Hi as [|f inputs Hf _ IH]; intros s rs.
  - cbn [framesC Random.ret fst filter length pow INR].
    repeat split; ring.
  - cbn [framesC]. rewrite bind_run.
    destruct (animateC_frame (Loop.ready f) (Loop.landmarks f) (Loop.now f)
                s rs) as (Em & Ex & Ey & El).
    set (s1 := fst (SceneC.animate (Loop.ready f) (Loop.landmarks f)
                                   (Loop.now f) s rs)) in *.
    destruct (IH s1 (snd (SceneC.animate (Loop.ready f) (Loop.landmarks f)
                                         (Loop.now f) s rs)))
      as (Jm & Jl & Jx & Jy).
    rewrite Jm, Jl, Jx, Jy, Em, Ex, Ey, El. clear Jm Jl Jx Jy Em Ex Ey El IH.
    unfold Loop.seen in Hf. unfold SceneC.processHand. cbn [filter].
    destruct (Loop.ready f).
    + rewrite Hf.
      cbn [SceneC.mode SceneC.set_mainGroupRot SceneC.mainGroupRotX
           SceneC.mainGroupRotY length pow].
      rewrite S_INR. unfold JS.lerp. repeat split; ring.
    + repeat split.
Qed.

(** X13.  Frames of [part_004] in which no hand is seen keep the mode and
    the number of particles, and make no mode request.  A frame in which
    the tracker is ready but
    finds no hand brings the tilt of the group 5% closer to level and turns
    the group by 0.006; a frame in which the tracker or the video is not
    ready leaves the rotation as it is.  After such frames, [k] of them
    with a ready tracker, the tilt is the initial one times 0.95^k and the
    turn the initial one plus 0.006 k. *)
Theorem searching_frames_level (inputs : list Loop.FrameInput)
  (s : SceneC.State) (rs : Random.source) :
  Forall (fun f => Loop.seen f = None) inputs ->
  SceneC.mode (fst (framesC inputs s rs)) = SceneC.mode s
  /\ length (SceneC.particles (fst (framesC inputs s rs)))
     = length (SceneC.particles s)
  /\ SceneC.mainGroupRotX (fst (framesC inputs s rs))
     = SceneC.mainGroupRotX s * (1 - 0.05) ^ length (filter Loop.ready inputs)
  /\ SceneC.mainGroupRotY (fst (framesC inputs s rs))
     = SceneC.mainGroupRotY s
       + 0.006 * INR (length (filter Loop.ready inputs))
  /\ SceneC.requested (fst (framesC inputs s rs)) = SceneC.requested s.
Proof.
  intros Hi.
  destruct (framesC_idle inputs s rs Hi) as (Em & El & Ex & Ey).
  pose proof (framesC_idle_requested inputs Hi s rs) as Eq.
  repeat apply conj; assumption.
Qed.

End FramesC.

Lemma searching_frames_level_witness :
  SceneC.mainGroupRotX
    (fst (@framesC stillOrientation
            [Loop.mkFrameInput true None 0; Loop.mkFrameInput false None 16]
            (SceneC.mkState TREE [] (-1) false 1 0 TREE) (Random.const 0)))
  = 1 * (1 - 0.05) ^ 1.
Proof.
  refine (proj1 (proj2 (proj2 (@searching_frames_level stillOrientation
            [Loop.mkFrameInput true None 0; Loop.mkFrameInput false None 16]
            (SceneC.mkState TREE [] (-1) false 1 0 TREE) (Random.const 0) _)))).
  repeat constructor.
Defined.

(** ** FOCUS in [Experience]: the photo is found by its id *)

Lemma targetOf_FOCUS (fid : option String.string) (time : R)
  (p : Experience.ParticleData) (i : nat) :
  ExperienceScene.targetOf Experience.FOCUS fid time p i
  = if ExperienceScene.isTarget fid p then (vec3 0 2 35, 4.5)
    else (multiplyScalar
            (ExperienceScene.normalize (Experience.originalPosition p)) 40,
          0.5).
Proof. reflexivity. Qed.

(** X14.  A FOCUS request to [Experience] that finds a photo, made outside
    FOCUS with [Math.random()] in [[0, 1)], does not raise: it draws one
    number, enters FOCUS, stamps the time, and stores the id of one
    registered PHOTO particle.  The registry keeps its length, and every
    particle its id, mesh and original position; the particles carrying
    the stored id are typed PHOTO.  In the frames that follow the particles
    carrying the stored id - all of them, should ids coincide - are
    presented at (0, 2, 35) with scale 4.5, and every other particle is
    sent along its original position with scale 0.5. *)
Theorem focus_by_id (now : R) (e : Experience.Experience)
  (rs : Random.source) :
  Random.fair rs ->
  Experience.mode e <> Experience.FOCUS ->
  Experience.photos (Experience.particles e) <> [] ->
  exists e' tgt,
    Experience.setMode Experience.FOCUS now e rs
    = (Some e', fun n => rs (S n))
    /\ In tgt (Experience.particles e)
    /\ Experience.type tgt = Experience.PHOTO
    /\ Experience.mode e' = Experience.FOCUS
    /\ Experience.focusId e' = Some (Experience.id tgt)
    /\ Experience.lastFocusChange e' = now
    /\ Experience.targetRotation e' = Experience.targetRotation e
    /\ length (Experience.particles e') = length (Experience.particles e)
    /\ forall i p,
         nth_error (Experience.particles e) i = Some p ->
         exists p',
           nth_error (Experience.particles e') i = Some p'
           /\ Experience.id p' = Experience.id p
           /\ Experience.mesh p' = Experience.mesh p
           /\ Experience.originalPosition p' = Experience.originalPosition p
           /\ Experience.type p'
              = (if String.eqb (Experience.id p) (Experience.id tgt)
                 then Experience.PHOTO else Experience.type p)
           /\ forall time,
                ExperienceScene.targetOf Experience.FOCUS
                  (Experience.focusId e') time p' i
                = if String.eqb (Experience.id p) (Experience.id tgt)
                  then (vec3 0 2 35, 4.5)
                  else (multiplyScalar
                          (ExperienceScene.normalize
                             (Experience.originalPosition p)) 40, 0.5).
Proof.
  intros Hr Hm Hp. unfold Experience.setMode.
  destruct (AppMode_eqb_spec (Experience.mode e) Experience.FOCUS);
    [contradiction|].
  cbn [negb Experience.AppMode_eqb Experience.particles Experience.set_mode
       Experience.set_lastFocusChange].
  destruct (Experience.photos (Experience.particles e)) as [|p0 ph] eqn:Ep;
    [congruence|].
  change (0 <? length (p0 :: ph))%nat with true. cbv iota.
  rewrite bind_run. cbn [Random.random fst snd].
  destruct (get_in_range (p0 :: ph)
              (JS.floor (rs 0%nat * INR (length (p0 :: ph)))))
    as [tgt Et].
  { apply floor_random_index; [apply Hr | simpl; lia]. }
  rewrite Et. apply get_In in Et. rewrite <- Ep in Et.
  apply filter_In in Et. destruct Et as [Hin Hph].
  eexists _, tgt. split; [reflexivity|].
  cbn [Experience.particles Experience.set_focusId Experience.set_particles
       Experience.focusId Experience.mode Experience.lastFocusChange
       Experience.targetRotation].
  repeat apply conj; try reflexivity.
  - exact Hin.
  - unfold Experience.isPHOTO in Hph.
    destruct (Experience.type tgt); try discriminate. reflexivity.
  - apply length_map.
  - intros i p Hi. rewrite nth_error_map, Hi. cbn [option_map].
    eexists. split; [reflexivity|].
    destruct (String.eqb (Experience.id p) (Experience.id tgt)) eqn:Eid;
      repeat apply conj; try reflexivity;
      intros time; rewrite targetOf_FOCUS;
      unfold ExperienceScene.isTarget;
      cbn [Experience.id Experience.set_type Experience.originalPosition];
      rewrite Eid; reflexivity.
Qed.

Lemma focus_by_id_witness :
  exists e' tgt,
    Experience.setMode Experience.FOCUS 7
      (fst (Experience.addPhotoToScene 42 Experience.new
              (Random.const 0))) (Random.const 0)
    = (Some e', fun n => Random.const 0 (S n))
    /\ In tgt (Experience.particles
                 (fst (Experience.addPhotoToScene 42 Experience.new
                         (Random.const 0))))
    /\ Experience.type tgt = Experience.PHOTO
    /\ Experience.mode e' = Experience.FOCUS.
Proof.
  destruct (focus_by_id 7
              (fst (Experience.addPhotoToScene 42 Experience.new
                      (Random.const 0))) (Random.const 0))
    as (e' & tgt & E & Hin & Ht & Hm & _).
  - intros n. unfold Random.const. lra.
  - discriminate.
  - discriminate.
  - exists e', tgt. repeat apply conj; assumption.
Defined.

(** ** FOCUS in [Experience]: where the others go *)

Lemma normalize_scaled (v : Vector3) (r : R) :
  v <> vec3 0 0 0 -> 0 <= r ->
  vlength (multiplyScalar (ExperienceScene.normalize v) r) = r.
Proof.
  intros Hv Hr. destruct v as [a b c].
  unfold ExperienceScene.normalize, vlength, multiplyScalar. cbn [x y z].
  assert (Hq : 0 <= a * a + b * b + c * c).
  { assert (0 <= a * a) by nra. assert (0 <= b * b) by nra.
    assert (0 <= c * c) by nra. lra. }
  set (l := sqrt (a * a + b * b + c * c)).
  assert (Hl : l * l = a * a + b * b + c * c) by (apply sqrt_sqrt; exact Hq).
  destruct (Req_dec_T l 0) as [E0|N0].
  - exfalso. apply Hv. rewrite E0 in Hl.
    assert (a * a = 0) by nra. assert (b * b = 0) by nra.
    assert (c * c = 0) by nra.
    assert (a = 0) by nra. assert (b = 0) by nra. assert (c = 0) by nra.
    congruence.
  - apply hypot3_exact; [exact Hr|].
    replace (a * (1 / l) * r * (a * (1 / l) * r)
             + b * (1 / l) * r * (b * (1 / l) * r)
             + c * (1 / l) * r * (c * (1 / l) * r))
      with ((a * a + b * b + c * c) * (r * r) / (l * l))
      by (field; exact N0).
    rewrite <- Hl. field. exact N0.
Qed.

Lemma normalize_zero :
  ExperienceScene.normalize (vec3 0 0 0) = vec3 0 0 0.
Proof.
  unfold ExperienceScene.normalize, multiplyScalar. cbn [x y z].
  f_equal; ring.
Qed.

(** X15.  In FOCUS, [Experience.animate] sends every particle whose id is
    not the stored one to the sphere of radius 40 around the origin, with
    scale 0.5 - unless its original position is the origin, in which case
    ([normalize] dividing by 1 instead of 0) its target is the origin
    itself.  A photo, whose original position is (0, -10, 0), goes to
    (0, -40, 0). *)
Theorem focus_push_sphere (fid : option String.string) (time : R)
  (p : Experience.ParticleData) (i : nat) :
  ExperienceScene.isTarget fid p = false ->
  snd (ExperienceScene.targetOf Experience.FOCUS fid time p i) = 0.5
  /\ (Experience.originalPosition p <> vec3 0 0 0 ->
      vlength (fst (ExperienceScene.targetOf Experience.FOCUS fid time p i))
      = 40)
  /\ (Experience.originalPosition p = vec3 0 0 0 ->
      fst (ExperienceScene.targetOf Experience.FOCUS fid time p i)
      = vec3 0 0 0)
  /\ (Experience.originalPosition p = vec3 0 (-10) 0 ->
      fst (ExperienceScene.targetOf Experience.FOCUS fid time p i)
      = vec3 0 (-40) 0).
Proof.
  intros Ht. rewrite targetOf_FOCUS, Ht. cbn [fst snd].
  repeat apply conj.
  - reflexivity.
  - intros Hv. apply normalize_scaled; [exact Hv | lra].
  - intros ->. rewrite normalize_zero. unfold multiplyScalar. cbn [x y z].
    f_equal; ring.
  - intros ->. unfold ExperienceScene.normalize, multiplyScalar. cbn [x y z].
    replace (0 * 0 + -10 * -10 + 0 * 0) with (10 * 10) by ring.
    rewrite sqrt_square by lra.
    destruct (Req_dec_T 10 0) as [E|_]; [lra|].
    f_equal; field.
Qed.

Lemma focus_push_sphere_witness :
  snd (ExperienceScene.targetOf Experience.FOCUS None 0
         (Experience.mkParticleData Experience.PHOTO newMesh (vec3 0 (-10) 0)
            (vec3 0 0 0) (vec3 0 0 0) (euler 0 0 0) 0
            (Experience.photoId 0)) 0) = 0.5.
Proof.
  apply (proj1 (focus_push_sphere None 0
           (Experience.mkParticleData Experience.PHOTO newMesh
              (vec3 0 (-10) 0) (vec3 0 0 0) (vec3 0 0 0) (euler 0 0 0) 0
              (Experience.photoId 0)) 0 eq_refl)).
Defined.

(** ** The frames of [Experience] *)

(** The target depends on the particle through its type, id and original
    position only, and on the time for dust in TREE only. *)
Lemma targetOf_static (md : Experience.AppMode) (fid : option String.string)
  (time time' : R) (p p' : Experience.ParticleData) (i : nat) :
  keyE p' = keyE p ->
  (md = Experience.TREE -> ExperienceScene.isDUST p = false) ->
  ExperienceScene.targetOf md fid time' p' i
  = ExperienceScene.targetOf md fid time p i.
Proof.
  unfold keyE. intros Hk Hd. injection Hk as Ety Eid Eor.
  unfold ExperienceScene.targetOf, ExperienceScene.isDUST,
    ExperienceScene.isTarget in *.
  rewrite Ety, Eid, Eor. destruct md; try reflexivity.
  rewrite (Hd eq_refl). reflexivity.
Qed.

Section FramesE.

Context `{Orientation}.

Lemma step_mesh (md : Experience.AppMode) (fid : option String.string)
  (time : R) (p : Experience.ParticleData) (i : nat) :
  let q := ExperienceScene.step md fid time p i in
  let tgt := ExperienceScene.targetOf md fid time p i in
  keyE q = keyE p
  /\ position (Experience.mesh q)
     = lerp (position (Experience.mesh p)) (fst tgt) 0.05
  /\ x (scale (Experience.mesh q))
     = JS.lerp (x (scale (Experience.mesh p))) (snd tgt) 0.1
  /\ y (scale (Experience.mesh q)) = x (scale (Experience.mesh q))
  /\ z (scale (Experience.mesh q)) = x (scale (Experience.mesh q)).
Proof.
  intros q tgt. subst q tgt. unfold ExperienceScene.step.
  destruct (Experience.AppMode_eqb md Experience.SCATTER);
    repeat apply conj; reflexivity.
Qed.

Lemma framesE_converge (nows : list R) :
  forall v : ExperienceScene.View,
    let e := ExperienceScene.core v in
    let e' := ExperienceScene.core (framesE nows v) in
    let cur := ExperienceScene.currentRotation v in
    let cur' := ExperienceScene.currentRotation (framesE nows v) in
    let tg := Experience.targetRotation e in
    Experience.mode e' = Experience.mode e
    /\ Experience.focusId e' = Experience.focusId e
    /\ Experience.targetRotation e' = tg
    /\ fst cur' - fst tg = (fst cur - fst tg) * (1 - 0.05) ^ length nows
    /\ snd cur' - snd tg = (snd cur - snd tg) * (1 - 0.05) ^ length nows
    /\ (forall i p,
          nth_error (Experience.particles e) i = Some p ->
          exists p',
            nth_error (Experience.particles e') i = Some p'
            /\ keyE p' = keyE p
            /\ ((Experience.mode e = Experience.TREE ->
                 ExperienceScene.isDUST p = false) ->
                forall time,
                  distanceTo (position (Experience.mesh p'))
                    (fst (ExperienceScene.targetOf (Experience.mode e)
                            (Experience.focusId e) time p i))
                  = distanceTo (position (Experience.mesh p))
                      (fst (ExperienceScene.targetOf (Experience.mode e)
                              (Experience.focusId e) time p i))
                    * (1 - 0.05) ^ length nows
                  /\ x (scale (Experience.mesh p'))
                     - snd (ExperienceScene.targetOf (Experience.mode e)
                              (Experience.focusId e) time p i)
                     = (x (scale (Experience.mesh p))
                        - snd (ExperienceScene.targetOf (Experience.mode e)
                                 (Experience.focusId e) time p i))
                       * (1 - 0.1) ^ length nows))
    /\ (forall i, nth_error (Experience.particles e) i = None ->
                  nth_error (Experience.particles e') i = None).
Proof.
  induction nows as [|now nows IH]; intros v; cbv zeta.
  - cbn [framesE length pow]. repeat apply conj; try reflexivity; try ring.
    + intros i p Hp. exists p. split; [exact Hp|]. split; [reflexivity|].
      intros _ time. split; ring.
    + tauto.
  - cbn [framesE length].
    destruct (IH (ExperienceScene.animate now v))
      as (Jm & Jf & Jt & Jx & Jy & Jn & Jz).
    set (v' := framesE nows (ExperienceScene.animate now v)) in *.
    cbn [ExperienceScene.animate ExperienceScene.core
         ExperienceScene.currentRotation Experience.set_particles
         Experience.mode Experience.focusId Experience.targetRotation
         Experience.particles fst snd] in Jm, Jf, Jt, Jx, Jy, Jn, Jz.
    repeat apply conj.
    + exact Jm.
    + exact Jf.
    + exact Jt.
    + rewrite Jx. cbn [pow]. ring.
    + rewrite Jy. cbn [pow]. ring.
    + intros i p Hp.
      specialize (Jn i). rewrite forEach_nth, Hp in Jn. cbn [option_map] in Jn.
      destruct (Jn _ eq_refl) as (p' & Hp' & Hk & Hc).
      destruct (step_mesh (Experience.mode (ExperienceScene.core v))
                  (Experience.focusId (ExperienceScene.core v))
                  (now * 0.001) p i) as (Ks & Ps & Ss & _).
      cbv zeta in Ks, Ps, Ss.
      exists p'. split; [exact Hp'|]. split; [congruence|].
      intros Hd time.
      assert (Hd' : Experience.mode (ExperienceScene.core v) = Experience.TREE ->
                    ExperienceScene.isDUST
                      (ExperienceScene.step
                         (Experience.mode (ExperienceScene.core v))
                         (Experience.focusId (ExperienceScene.core v))
                         (now * 0.001) p i) = false).
      { intros Em. exact (Hd Em). }
      destruct (Hc Hd' time) as [Hpos Hsc].
      rewrite (targetOf_static _ _ time time _ _ i Ks Hd) in Hpos, Hsc.
      rewrite (targetOf_static _ _ time (now * 0.001) p p i eq_refl Hd)
        in Ps, Ss.
      rewrite Hpos, Hsc, Ps, Ss.
      rewrite lerp_distance by lra. unfold JS.lerp. cbn [pow].
      split; ring.
    + intros i Hn. apply Jz. rewrite forEach_nth, Hn. reflexivity.
Qed.

(** X16.  Over the frames of [Experience.animate] (no mode request in
    between) the mode, the stored id and the rotation asked for stay, no
    particle is added or removed, and every particle keeps its type, id
    and original position.  The smoothed rotation closes 5% of its
    distance to the rotation asked for in every frame.  Except for dust in
    TREE, the target of a particle does not depend on the time, and the
    particle closes 5% of the distance of its position to the target, and
    10% of the distance of its scale to the target scale, in every
    frame. *)
Theorem experience_frames_converge (nows : list R)
  (v : ExperienceScene.View) :
  Experience.mode (ExperienceScene.core (framesE nows v))
  = Experience.mode (ExperienceScene.core v)
  /\ Experience.focusId (ExperienceScene.core (framesE nows v))
     = Experience.focusId (ExperienceScene.core v)
  /\ Experience.targetRotation (ExperienceScene.core (framesE nows v))
     = Experience.targetRotation (ExperienceScene.core v)
  /\ fst (ExperienceScene.currentRotation (framesE nows v))
     - fst (Experience.targetRotation (ExperienceScene.core v))
     = (fst (ExperienceScene.currentRotation v)
        - fst (Experience.targetRotation (ExperienceScene.core v)))
       * (1 - 0.05) ^ length nows
  /\ snd (ExperienceScene.currentRotation (framesE nows v))
     - snd (Experience.targetRotation (ExperienceScene.core v))
     = (snd (ExperienceScene.currentRotation v)
        - snd (Experience.targetRotation (ExperienceScene.core v)))
       * (1 - 0.05) ^ length nows
  /\ length (Experience.particles (ExperienceScene.core (framesE nows v)))
     = length (Experience.particles (ExperienceScene.core v))
  /\ forall i p,
       nth_error (Experience.particles (ExperienceScene.core v)) i = Some p ->
       exists p',
         nth_error (Experience.particles
                      (ExperienceScene.core (framesE nows v))) i = Some p'
         /\ keyE p' = keyE p
         /\ ((Experience.mode (ExperienceScene.core v) = Experience.TREE ->
              ExperienceScene.isDUST p = false) ->
             forall time,
               distanceTo (position (Experience.mesh p'))
                 (fst (ExperienceScene.targetOf
                         (Experience.mode (ExperienceScene.core v))
                         (Experience.focusId (ExperienceScene.core v))
                         time p i))
               = distanceTo (position (Experience.mesh p))
                   (fst (ExperienceScene.targetOf
                           (Experience.mode (ExperienceScene.core v))
                           (Experience.focusId (ExperienceScene.core v))
                           time p i))
                 * (1 - 0.05) ^ length nows
               /\ x (scale (Experience.mesh p'))
                  - snd (ExperienceScene.targetOf
                           (Experience.mode (ExperienceScene.core v))
                           (Experience.focusId (ExperienceScene.core v))
                           time p i)
                  = (x (scale (Experience.mesh p))
                     - snd (ExperienceScene.targetOf
                              (Experience.mode (ExperienceScene.core v))
                              (Experience.focusId (ExperienceScene.core v))
                              time p i))
                    * (1 - 0.1) ^ length nows).
Proof.
  destruct (framesE_converge nows v) as (Em & Ef & Et & Ex & Ey & En & Ez).
  repeat apply conj; try assumption.
  set (l' := Experience.particles (ExperienceScene.core (framesE nows v))) in *.
  set (l := Experience.particles (ExperienceScene.core v)) in *.
  destruct (Nat.lt_trichotomy (length l') (length l)) as [Hl|[Hl|Hl]].
  - destruct (nth_error l (length l')) as [p|] eqn:Hp.
    + destruct (En _ _ Hp) as (p' & Hp' & _).
      assert (nth_error l' (length l') = None)
        by (apply nth_error_None; apply Nat.le_refl).
      congruence.
    + apply nth_error_None in Hp. lia.
  - exact Hl.
  - assert (Hn : nth_error l (length l) = None)
      by (apply nth_error_None; apply Nat.le_refl).
    apply Ez in Hn. apply nth_error_None in Hn. fold l' in Hn. lia.
Qed.

End FramesE.

(** ** A new photo on its way to the presentation slot *)

Section Presentation.

Context `{Orientation}.

(** Frames without a hand in FOCUS: every particle closes in on the target
    its index gives it. *)
Lemma framesA_idle_focus (inputs : list Loop.FrameInput) :
  Forall (fun f => Loop.seen f = None) inputs ->
  forall (s : SceneA.State) (rs : Random.source),
    SceneA.mode s = FOCUS ->
    forall i p,
      nth_error (SceneA.particles s) i = Some p ->
      exists p',
        nth_error (SceneA.particles (fst (Loop.framesA inputs s rs))) i
        = Some p'
        /\ keyA p' = keyA p
        /\ distanceTo (position (SceneA.mesh p'))
             (if (Z.of_nat i =? SceneA.focusedPhotoIndex s)%Z
              then vec3 0 2 35
              else multiplyScalar (SceneA.scatterPos p) 2.5)
           = distanceTo (position (SceneA.mesh p))
               (if (Z.of_nat i =? SceneA.focusedPhotoIndex s)%Z
                then vec3 0 2 35
                else multiplyScalar (SceneA.scatterPos p) 2.5)
             * (1 - 0.07) ^ length inputs
        /\ distanceTo (scale (SceneA.mesh p'))
             (if (Z.of_nat i =? SceneA.focusedPhotoIndex s)%Z
              then vec3 4.5 4.5 4.5 else vec3 0.1 0.1 0.1)
           = distanceTo (scale (SceneA.mesh p))
               (if (Z.of_nat i =? SceneA.focusedPhotoIndex s)%Z
                then vec3 4.5 4.5 4.5 else vec3 0.1 0.1 0.1)
             * (1 - 0.07) ^ length inputs.
Proof.
  induction 1 as [|f inputs Hf _ IH]; intros s rs Hm i p Hp.
  - cbn [Loop.framesA Random.ret fst length pow]. exists p.
    repeat apply conj; [exact Hp | reflexivity | ring | ring].
  - cbn [Loop.framesA]. rewrite bind_run.
    destruct (animateA_idle f s rs Hf) as (Er & Em & Ei & _ & _ & En).
    set (s1 := fst (SceneA.animate (Loop.ready f) (Loop.landmarks f)
                                   (Loop.now f) s rs)) in *.
    rewrite Er. specialize (En i). rewrite Hp, Hm in En. cbn [option_map] in En.
    assert (Hm1 : SceneA.mode s1 = FOCUS) by congruence.
    destruct (IH s1 rs Hm1 i _ En) as (p' & Hp' & Hk & Hd & Hsc).
    exists p'. split; [exact Hp'|].
    destruct (targetA_key FOCUS (SceneA.focusedPhotoIndex s)
                (Loop.now f * 0.001) p i) as [Kt Mt].
    pose proof (updateA_key FOCUS
                  (SceneA.target FOCUS (SceneA.focusedPhotoIndex s)
                     (Loop.now f * 0.001) p i)) as Ku.
    split; [congruence|].
    assert (E1 : SceneA.scatterPos
                   (SceneA.update FOCUS
                      (SceneA.target FOCUS (SceneA.focusedPhotoIndex s)
                         (Loop.now f * 0.001) p i)) = SceneA.scatterPos p).
    { unfold keyA in Ku, Kt. congruence. }
    rewrite E1, Ei in Hd. rewrite Ei in Hsc.
    rewrite updateA_position in Hd. rewrite updateA_scale in Hsc.
    rewrite Mt in Hd, Hsc. rewrite Hd, Hsc. cbn [length pow].
    destruct (Z.eqb_spec (Z.of_nat i) (SceneA.focusedPhotoIndex s)) as [E|E].
    + rewrite (focusA_presented _ _ _ _ E).
      cbn [SceneA.targetPos SceneA.targetScale SceneA.set_targetScale
           SceneA.set_targetRot SceneA.set_targetPos].
      rewrite !lerp_distance by lra. split; ring.
    + rewrite (focusA_pushed _ _ _ _ E).
      cbn [SceneA.targetPos SceneA.targetScale SceneA.set_targetScale
           SceneA.set_targetRot SceneA.set_targetPos SceneA.scatterPos].
      rewrite !lerp_distance by lra. split; ring.
Qed.

Lemma multiplyScalar_coordinates (v : Vector3) (k : R) :
  multiplyScalar v k = vec3 (x v * k) (y v * k) (z v * k).
Proof. reflexivity. Qed.

(** X17.  An ['add-photo'] event in [components/Scene.tsx], with no hand
    seen in the frames around it.  Until the owner has re-rendered, the
    frames still run in the old mode, though the focus target is already
    the new photo, the last particle of the registry; with no frame in
    between the photo is still at the origin with scale 1.  Once the
    effect on [mode] has run the scene is in FOCUS on the new photo, and
    in every frame the photo closes 7% of its distance to the presentation
    slot (0, 2, 35) and of its scale to 4.5, while every particle
    registered before closes 7% of its distance to the point whose
    coordinates are 2.5 times those of its scatter position. *)
Theorem added_photo_presented (pre post : list Loop.FrameInput)
  (s : SceneA.State) (rs : Random.source) :
  Forall (fun f => Loop.seen f = None) pre ->
  Forall (fun f => Loop.seen f = None) post ->
  let s1 := fst (fst (Loop.uploadA pre post s rs)) in
  let s3 := snd (fst (Loop.uploadA pre post s rs)) in
  let n := length (SceneA.particles s) in
  SceneA.mode s1 = SceneA.mode s
  /\ SceneA.requested s1 = FOCUS
  /\ SceneA.focusedPhotoIndex s1 = Z.of_nat n
  /\ SceneA.mode s3 = FOCUS
  /\ SceneA.focusedPhotoIndex s3 = Z.of_nat n
  /\ (exists p1 p3,
        nth_error (SceneA.particles s1) n = Some p1
        /\ nth_error (SceneA.particles s3) n = Some p3
        /\ SceneA.type p3 = SceneA.PHOTO
        /\ (pre = [] ->
            position (SceneA.mesh p1) = vec3 0 0 0
            /\ scale (SceneA.mesh p1) = vec3 1 1 1)
        /\ distanceTo (position (SceneA.mesh p3)) (vec3 0 2 35)
           = distanceTo (position (SceneA.mesh p1)) (vec3 0 2 35)
             * (1 - 0.07) ^ length post
        /\ distanceTo (scale (SceneA.mesh p3)) (vec3 4.5 4.5 4.5)
           = distanceTo (scale (SceneA.mesh p1)) (vec3 4.5 4.5 4.5)
             * (1 - 0.07) ^ length post)
  /\ forall i p,
       nth_error (SceneA.particles s) i = Some p ->
       exists q1 q3,
         nth_error (SceneA.particles s1) i = Some q1
         /\ nth_error (SceneA.particles s3) i = Some q3
         /\ keyA q1 = keyA p /\ keyA q3 = keyA p
         /\ (pre = [] -> q1 = p)
         /\ distanceTo (position (SceneA.mesh q3))
              (vec3 (x (SceneA.scatterPos p) * 2.5)
                    (y (SceneA.scatterPos p) * 2.5)
                    (z (SceneA.scatterPos p) * 2.5))
            = distanceTo (position (SceneA.mesh q1))
                (vec3 (x (SceneA.scatterPos p) * 2.5)
                      (y (SceneA.scatterPos p) * 2.5)
                      (z (SceneA.scatterPos p) * 2.5))
              * (1 - 0.07) ^ length post.
Proof.
  intros Hpre Hpost. cbv zeta. unfold Loop.uploadA. rewrite !bind_run.
  unfold Random.ret. cbn [fst snd].
  set (s0 := fst (SceneA.handleAddPhoto s rs)).
  set (rs0 := snd (SceneA.handleAddPhoto s rs)).
  pose proof (handleAddPhotoA_run s rs) as E0. cbv zeta in E0. fold s0 in E0.
  destruct (newA_fields (length (SceneA.particles s)) newMesh SceneA.PHOTO
              (length (SceneA.photos (SceneA.particles s))) rs)
    as (_ & Et & _ & Eme).
  set (p0 := fst (SceneA.new_ParticleItem (length (SceneA.particles s)) newMesh
                    SceneA.PHOTO
                    (length (SceneA.photos (SceneA.particles s))) rs)) in *.
  assert (Ef0 : SceneA.focusedPhotoIndex s0
                = Z.of_nat (length (SceneA.particles s))).
  { rewrite E0. cbn [SceneA.focusedPhotoIndex]. rewrite length_app.
    cbn [length]. lia. }
  assert (Em0 : SceneA.mode s0 = SceneA.mode s) by (rewrite E0; reflexivity).
  assert (Er0 : SceneA.requested s0 = FOCUS) by (rewrite E0; reflexivity).
  assert (Ep0 : SceneA.particles s0 = SceneA.particles s ++ [p0])
    by (rewrite E0; reflexivity).
  destruct (framesA_idle pre Hpre s0 rs0) as (_ & Jm & Jf & _ & _ & Jn & _).
  pose proof (framesA_idle_requested pre Hpre s0 rs0) as Jr.
  set (s1 := fst (Loop.framesA pre s0 rs0)) in *.
  set (rs1 := snd (Loop.framesA pre s0 rs0)).
  assert (Em2 : SceneA.mode (SceneA.modeEffect s1) = FOCUS).
  { unfold SceneA.modeEffect. cbn [SceneA.mode SceneA.set_mode]. congruence. }
  destruct (framesA_idle post Hpost (SceneA.modeEffect s1) rs1)
    as (_ & Km & Kf & _).
  assert (Hnew : nth_error (SceneA.particles s0) (length (SceneA.particles s))
                 = Some p0).
  { rewrite Ep0, nth_error_app2, Nat.sub_diag by apply Nat.le_refl.
    reflexivity. }
  assert (Hfocus : SceneA.focusedPhotoIndex (SceneA.modeEffect s1)
                   = Z.of_nat (length (SceneA.particles s))).
  { unfold SceneA.modeEffect. cbn [SceneA.focusedPhotoIndex SceneA.set_mode].
    congruence. }
  repeat apply conj.
  - congruence.
  - congruence.
  - congruence.
  - congruence.
  - congruence.
  - destruct (Jn _ _ Hnew) as (p1 & Hp1 & Hk1 & _).
    destruct (framesA_idle_focus post Hpost (SceneA.modeEffect s1) rs1 Em2
                (length (SceneA.particles s)) p1 Hp1)
      as (p3 & Hp3 & Hk3 & Hd & Hsc).
    rewrite Hfocus, Z.eqb_refl in Hd, Hsc.
    exists p1, p3. repeat apply conj; try assumption.
    + unfold keyA in Hk1, Hk3. congruence.
    + intros Ee. unfold s1 in Hp1. rewrite Ee in Hp1.
      cbn [Loop.framesA Random.ret fst] in Hp1.
      rewrite Hnew in Hp1. injection Hp1 as <-. rewrite Eme.
      split; reflexivity.
  - intros i p Hp.
    assert (Hlt : (i < length (SceneA.particles s))%nat)
      by (apply nth_error_Some; congruence).
    assert (Hp0 : nth_error (SceneA.particles s0) i = Some p).
    { rewrite Ep0, nth_error_app1 by exact Hlt. exact Hp. }
    destruct (Jn _ _ Hp0) as (q1 & Hq1 & Hk1 & _).
    destruct (framesA_idle_focus post Hpost (SceneA.modeEffect s1) rs1 Em2
                i q1 Hq1) as (q3 & Hq3 & Hk3 & Hd & _).
    rewrite Hfocus in Hd.
    destruct (Z.eqb_spec (Z.of_nat i) (Z.of_nat (length (SceneA.particles s))));
      [lia|].
    assert (Es : SceneA.scatterPos q1 = SceneA.scatterPos p)
      by (unfold keyA in Hk1; congruence).
    rewrite Es, multiplyScalar_coordinates in Hd.
    exists q1, q3. repeat apply conj; try assumption.
    + congruence.
    + intros Ee. unfold s1 in Hq1. rewrite Ee in Hq1.
      cbn [Loop.framesA Random.ret fst] in Hq1. congruence.
Qed.

End Presentation.

Lemma added_photo_presented_witness :
  SceneA.mode
    (snd (fst (@Loop.uploadA stillOrientation
                 [Loop.mkFrameInput true None 0]
                 [Loop.mkFrameInput true None 16]
                 (SceneA.mkState TREE [decorA 0] (-1) 0 0 TREE)
                 (Random.const 0)))) = FOCUS.
Proof.
  refine (proj1 (proj2 (proj2 (proj2
            (@added_photo_presented stillOrientation
               [Loop.mkFrameInput true None 0]
               [Loop.mkFrameInput true None 16]
               (SceneA.mkState TREE [decorA 0] (-1) 0 0 TREE)
               (Random.const 0) _ _))))); repeat constructor.
Defined.

(** ** Frames of [part_002] without a hand *)

Lemma selectFocusB_rotation (m : SceneMode) (s : SceneB.State)
  (rs : Random.source) :
  SceneB.mainGroupRotX (fst (SceneB.selectFocus m s rs)) = SceneB.mainGroupRotX s
  /\ SceneB.mainGroupRotY (fst (SceneB.selectFocus m s rs))
     = SceneB.mainGroupRotY s.
Proof.
  destruct (SceneMode_eqb_spec m FOCUS) as [->|Hm].
  - destruct (Z.eq_dec (SceneB.focusedPhotoIndex s) (-1)) as [E|E].
    + rewrite selectFocusB_draws by exact E. split; reflexivity.
    + rewrite selectFocusB_keeps by exact E. split; reflexivity.
  - rewrite selectFocusB_clears by exact Hm. split; reflexivity.
Qed.

Section SpinB.

Context `{Orientation}.

Lemma animateB_idle (f : Loop.FrameInput) (s : SceneB.State)
  (rs : Random.source) :
  Loop.seen f = None ->
  let r := SceneB.animate (Loop.ready f) (Loop.landmarks f) (Loop.now f) s rs in
  SceneB.mode (fst r) = SceneB.mode s
  /\ length (SceneB.particles (fst r)) = length (SceneB.particles s)
  /\ SceneB.mainGroupRotX (fst r) = SceneB.mainGroupRotX s
  /\ SceneB.mainGroupRotY (fst r) = SceneB.mainGroupRotY s + 0.005.
Proof.
  intros Hs r. subst r. rewrite animateB_run. unfold Loop.seen in Hs.
  rewrite Hs. cbv zeta. rewrite calculateTargetsB_run. cbv zeta.
  cbn [fst snd SceneB.mode SceneB.set_particles SceneB.particles
       SceneB.mainGroupRotX SceneB.mainGroupRotY SceneB.set_mainGroupRot].
  match goal with |- context [SceneB.selectFocus ?m ?g rs] =>
    destruct (selectFocusB_frame m g rs) as (Ep & Em & _);
    destruct (selectFocusB_rotation m g rs) as (Ex & Ey)
  end.
  cbv zeta in Ep, Em.
  rewrite length_map, forEach_length, Ep, Em, Ex, Ey.
  repeat split.
Qed.

Lemma selectFocusB_requested (m : SceneMode) (s : SceneB.State)
  (rs : Random.source) :
  SceneB.requested (fst (SceneB.selectFocus m s rs)) = SceneB.requested s.
Proof.
  destruct (SceneMode_eqb_spec m FOCUS) as [->|Hm].
  - destruct (Z.eq_dec (SceneB.focusedPhotoIndex s) (-1)) as [E|E].
    + rewrite selectFocusB_draws by exact E. reflexivity.
    + rewrite selectFocusB_keeps by exact E. reflexivity.
  - rewrite selectFocusB_clears by exact Hm. reflexivity.
Qed.

(** Frames without a hand make no mode request. *)
Lemma framesB_idle_requested (inputs : list Loop.FrameInput) :
  Forall (fun f => Loop.seen f = None) inputs ->
  forall (s : SceneB.State) (rs : Random.source),
    SceneB.requested (fst (Loop.framesB inputs s rs)) = SceneB.requested s.
Proof.
  induction 1 as [|f inputs Hf _ IH]; intros s rs; [reflexivity|].
  cbn [Loop.framesB]. rewrite bind_run, IH, animateB_run.
  unfold Loop.seen in Hf. rewrite Hf. cbv zeta.
  rewrite calculateTargetsB_run. cbv zeta.
  cbn [fst snd SceneB.requested SceneB.set_particles].
  rewrite selectFocusB_requested. reflexivity.
Qed.

Lemma framesB_idle (inputs : list Loop.FrameInput) (s : SceneB.State)
  (rs : Random.source) :
  Forall (fun f => Loop.seen f = None) inputs ->
  SceneB.mode (fst (Loop.framesB inputs s rs)) = SceneB.mode s
  /\ length (SceneB.particles (fst (Loop.framesB inputs s rs)))
     = length (SceneB.particles s)
  /\ SceneB.mainGroupRotX (fst (Loop.framesB inputs s rs))
     = SceneB.mainGroupRotX s
  /\ SceneB.mainGroupRotY (fst (Loop.framesB inputs s rs))
     = SceneB.mainGroupRotY s + 0.005 * INR (length inputs).
Proof.
  intros Hi. revert s rs.
  induction Hi as [|f inputs Hf _ IH]; intros s rs.
  - cbn [Loop.framesB Random.ret fst length INR]. repeat split; ring.
  - cbn [Loop.framesB]. rewrite bind_run.
    destruct (animateB_idle f s rs Hf) as (Em & El & Ex & Ey).
    destruct (IH (fst (SceneB.animate (Loop.ready f) (Loop.landmarks f)
                                      (Loop.now f) s rs))
                 (snd (SceneB.animate (Loop.ready f) (Loop.landmarks f)
                                      (Loop.now f) s rs)))
      as (Jm & Jl & Jx & Jy).
    rewrite Jm, Jl, Jx, Jy, Em, El, Ex, Ey.
    change (length (f :: inputs)) with (S (length inputs)). rewrite S_INR.
    repeat split; ring.
Qed.

(** X18.  Frames of [part_002] in which no hand is seen - the tracker or
    the video is not ready, or no hand is detected - keep the mode, the
    number of particles and the tilt of the group, make no mode request,
    and turn the group by 0.005 each: after [N] of them the turn is the
    initial one plus 0.005 N. *)
Theorem idle_spin (inputs : list Loop.FrameInput) (s : SceneB.State)
  (rs : Random.source) :
  Forall (fun f => Loop.seen f = None) inputs ->
  SceneB.mode (fst (Loop.framesB inputs s rs)) = SceneB.mode s
  /\ length (SceneB.particles (fst (Loop.framesB inputs s rs)))
     = length (SceneB.particles s)
  /\ SceneB.mainGroupRotX (fst (Loop.framesB inputs s rs))
     = SceneB.mainGroupRotX s
  /\ SceneB.mainGroupRotY (fst (Loop.framesB inputs s rs))
     = SceneB.mainGroupRotY s + 0.005 * INR (length inputs)
  /\ SceneB.requested (fst (Loop.framesB inputs s rs)) = SceneB.requested s.
Proof.
  intros Hi.
  destruct (framesB_idle inputs s rs Hi) as (Em & El & Ex & Ey).
  pose proof (framesB_idle_requested inputs Hi s rs) as Eq.
  repeat apply conj; assumption.
Qed.

End SpinB.

Lemma idle_spin_witness :
  SceneB.mainGroupRotY
    (fst (@Loop.framesB stillOrientation
            [Loop.mkFrameInput false None 0; Loop.mkFrameInput true None 16]
            (SceneB.mkState TREE [photoB 0 0] (-1) false 0 0 TREE)
            (Random.const 0)))
  = 0 + 0.005 * INR 2.
Proof.
  refine (proj1 (proj2 (proj2 (proj2 (@idle_spin stillOrientation
            [Loop.mkFrameInput false None 0; Loop.mkFrameInput true None 16]
            (SceneB.mkState TREE [photoB 0 0] (-1) false 0 0 TREE)
            (Random.const 0) _))))).
  repeat constructor.
Defined.

(** ** A session of [Experience] *)

(** What a mode request does to an [Experience], with [Math.random()] in
    [[0, 1)]. *)
Lemma setMode_frame (m : Experience.AppMode) (now : R)
  (e : Experience.Experience) (rs : Random.source) :
  Random.fair rs -> Experience.Inv e ->
  exists e' rs',
    Experience.setMode m now e rs = (Some e', rs')
    /\ Experience.Inv e' /\ Random.fair rs'
    /\ Experience.targetRotation e' = Experience.targetRotation e
    /\ length (Experience.particles e') = length (Experience.particles e).
Proof.
  intros Hr HI. unfold Experience.setMode.
  destruct (AppMode_eqb_spec (Experience.mode e) m) as [Em|Em]; cbn [negb].
  { exists e, rs. repeat apply conj; try assumption; reflexivity. }
  destruct (AppMode_eqb_spec m Experience.FOCUS) as [->|Ef].
  2:{ eexists _, rs. split; [reflexivity|].
      repeat apply conj; try assumption; try reflexivity.
      intros Hm. cbn in Hm. contradiction. }
  cbn [Experience.particles Experience.set_mode Experience.set_lastFocusChange].
  destruct (Experience.photos (Experience.particles e)) as [|p0 ph] eqn:Ep.
  { eexists _, rs. split; [reflexivity|].
    repeat apply conj; try assumption; try reflexivity.
    intros Hm. discriminate Hm. }
  change (0 <? length (p0 :: ph))%nat with true. cbv iota.
  rewrite bind_run. cbn [Random.random fst snd].
  destruct (get_in_range (p0 :: ph)
              (JS.floor (rs 0%nat * INR (length (p0 :: ph)))))
    as [tgt Et].
  { apply floor_random_index; [apply Hr | simpl; lia]. }
  rewrite Et. eexists _, _. split; [reflexivity|].
  apply get_In in Et. rewrite <- Ep in Et.
  apply filter_In in Et. destruct Et as [Hin Hph].
  cbn [Experience.particles Experience.set_focusId Experience.set_particles
       Experience.focusId Experience.targetRotation].
  repeat apply conj.
  - intros _. exists (Experience.set_type tgt Experience.PHOTO).
    cbn [Experience.particles Experience.focusId].
    repeat split.
    apply in_map_iff. exists tgt. split; [|exact Hin].
    rewrite String.eqb_refl. reflexivity.
  - apply fair_tail. exact Hr.
  - reflexivity.
  - apply length_map.
Qed.

Lemma updateHandData_Inv (a b : R) (e : Experience.Experience) :
  Experience.Inv e -> Experience.Inv (Experience.updateHandData a b e).
Proof. intros HI Hm. exact (HI Hm). Qed.

(** One turn of the gesture loop, with [Math.random()] in [[0, 1)]. *)
Lemma loop_frame (ready : bool) (landmarks : option Hand) (now : R)
  (e : Experience.Experience) (rs : Random.source) :
  Random.fair rs -> Experience.Inv e ->
  exists e' rs',
    MediaPipe.loop ready landmarks now e rs = (Some e', rs')
    /\ Experience.Inv e' /\ Random.fair rs'
    /\ length (Experience.particles e') = length (Experience.particles e)
    /\ Experience.targetRotation e'
       = match Session.hand_of (Session.Turn ready landmarks now) with
         | Some hand => ((ly (hand 9%nat) - 0.5) * 0.5,
                         (lx (hand 9%nat) - 0.5) * 1.5)
         | None => Experience.targetRotation e
         end.
Proof.
  intros Hr HI. cbn [Session.hand_of].
  destruct ready.
  2:{ exists e, rs. repeat apply conj; try assumption; reflexivity. }
  destruct landmarks as [hand|].
  2:{ exists e, rs. repeat apply conj; try assumption; reflexivity. }
  rewrite (loop_dispatch hand now e rs _ (classifyM_cases hand)).
  set (e1 := Experience.updateHandData ((ly (hand 9%nat) - 0.5) * 0.5)
                                       ((lx (hand 9%nat) - 0.5) * 1.5) e).
  assert (H1 : Experience.Inv e1) by (apply updateHandData_Inv; exact HI).
  match goal with
  | |- context [Spec.requests _ _ _ ?g] => destruct (Spec.requests _ _ _ g) as [m|]
  end.
  - destruct (setMode_frame m now e1 rs Hr H1)
      as (e' & rs' & E & HI' & Hr' & Et & El).
    exists e', rs'. repeat apply conj; assumption.
  - exists e1, rs. repeat apply conj; try assumption; reflexivity.
Qed.

Section SessionE.

Context `{Orientation}.

Lemma animateE_Inv (now : R) (v : ExperienceScene.View) :
  Experience.Inv (ExperienceScene.core v) ->
  Experience.Inv (ExperienceScene.core (ExperienceScene.animate now v)).
Proof.
  intros HI Hm. destruct (HI Hm) as (p & Hin & Ht & Hf).
  apply In_nth_error in Hin. destruct Hin as [i Hi].
  exists (ExperienceScene.step (Experience.mode (ExperienceScene.core v))
            (Experience.focusId (ExperienceScene.core v)) (now * 0.001) p i).
  repeat split; try assumption.
  cbn [ExperienceScene.animate ExperienceScene.core Experience.particles
       Experience.set_particles].
  apply (nth_error_In _ i). rewrite forEach_nth, Hi. reflexivity.
Qed.

(** X19.  A session of [Experience] - turns of the gesture loop, frames and
    photo uploads in any order - started where FOCUS implies a stored id of
    a registered photo (as after construction) and run with
    [Math.random()] in [[0, 1)]: no callback raises, FOCUS still implies a
    stored id of a registered PHOTO particle at the end, and the registry
    has grown by exactly one particle per upload.  If moreover landmark 9
    of every hand seen lies in the unit square, the rotation asked for and
    the smoothed rotation of the group, once within [-0.25, 0.25] x
    [-0.75, 0.75], stay there. *)
Theorem session_safe (events : list Session.Event)
  (v : ExperienceScene.View) (rs : Random.source) :
  Random.fair rs -> Experience.Inv (ExperienceScene.core v) ->
  exists v' rs',
    Session.run events v rs = (Some v', rs')
    /\ Experience.Inv (ExperienceScene.core v')
    /\ length (Experience.particles (ExperienceScene.core v'))
       = (length (Experience.particles (ExperienceScene.core v))
          + length (filter Session.isUpload events))%nat
    /\ (Forall (fun ev => forall hand, Session.hand_of ev = Some hand ->
                                       palm_normalized hand) events ->
        rotation_in_range (Experience.targetRotation (ExperienceScene.core v)) ->
        rotation_in_range (ExperienceScene.currentRotation v) ->
        rotation_in_range (Experience.targetRotation (ExperienceScene.core v'))
        /\ rotation_in_range (ExperienceScene.currentRotation v')).
Proof.
  revert v rs. induction events as [|ev events IH]; intros v rs Hr HI.
  - exists v, rs. cbn [Session.run filter length].
    repeat apply conj; try assumption; try reflexivity.
    + rewrite Nat.add_0_r. reflexivity.
    + intros _ HT HC. split; assumption.
  - cbn [Session.run]. rewrite bind_run.
    assert (Hstep : exists v1 rs1,
               Session.handle ev v rs = (Some v1, rs1)
               /\ Experience.Inv (ExperienceScene.core v1) /\ Random.fair rs1
               /\ length (Experience.particles (ExperienceScene.core v1))
                  = (length (Experience.particles (ExperienceScene.core v))
                     + (if Session.isUpload ev then 1 else 0))%nat
               /\ ((forall hand, Session.hand_of ev = Some hand ->
                                 palm_normalized hand) ->
                   rotation_in_range
                     (Experience.targetRotation (ExperienceScene.core v)) ->
                   rotation_in_range (ExperienceScene.currentRotation v) ->
                   rotation_in_range
                     (Experience.targetRotation (ExperienceScene.core v1))
                   /\ rotation_in_range (ExperienceScene.currentRotation v1))).
    { destruct ev as [ready landmarks now | now | d].
      - destruct (loop_frame ready landmarks now (ExperienceScene.core v) rs
                    Hr HI) as (e' & rs' & E & HI' & Hr' & El & Et).
        exists (ExperienceScene.mkView e' (ExperienceScene.currentRotation v)),
          rs'.
        cbn [Session.handle]. rewrite bind_run, E.
        cbn [fst snd option_map Random.ret ExperienceScene.core
             ExperienceScene.currentRotation Session.isUpload].
        repeat apply conj; try assumption; try reflexivity.
        + rewrite El, Nat.add_0_r. reflexivity.
        + intros Hh HT HC. split; [|exact HC]. rewrite Et.
          destruct (Session.hand_of (Session.Turn ready landmarks now))
            as [hand|]; [|exact HT].
          destruct (Hh hand eq_refl) as [Hx Hy].
          unfold rotation_in_range. cbn [fst snd]. lra.
      - exists (ExperienceScene.animate now v), rs.
        cbn [Session.handle Session.isUpload]. split; [reflexivity|].
        repeat apply conj; try assumption.
        + apply animateE_Inv. exact HI.
        + cbn [ExperienceScene.animate ExperienceScene.core
               Experience.particles Experience.set_particles].
          rewrite forEach_length, Nat.add_0_r. reflexivity.
        + intros _ [Tx Ty] [Cx Cy].
          cbn [ExperienceScene.animate ExperienceScene.core
               ExperienceScene.currentRotation Experience.targetRotation
               Experience.set_particles].
          split; [split; assumption|].
          unfold rotation_in_range. cbn [fst snd]. lra.
      - eexists _, _. cbn [Session.handle Session.isUpload].
        rewrite bind_run. unfold Random.ret. cbn [fst snd].
        split; [reflexivity|].
        cbn [ExperienceScene.core ExperienceScene.currentRotation].
        repeat apply conj.
        + apply addPhotoToSceneE_Inv. exact HI.
        + unfold Experience.addPhotoToScene. run. apply fair_tail. exact Hr.
        + unfold Experience.addPhotoToScene. run.
          cbn [Experience.particles Experience.set_particles].
          rewrite length_app. reflexivity.
        + intros _ HT HC. split; [|exact HC].
          unfold Experience.addPhotoToScene. run. exact HT. }
    destruct Hstep as (v1 & rs1 & E & HI1 & Hr1 & El & Hrot).
    rewrite E. cbn [fst snd].
    destruct (IH v1 rs1 Hr1 HI1) as (v' & rs' & E' & HI' & El' & Hrot').
    exists v', rs'. repeat apply conj; try assumption.
    + rewrite El', El. cbn [filter].
      destruct (Session.isUpload ev); cbn [length]; lia.
    + intros Hall HT HC. inversion Hall as [|ev0 evs Hev Hevs]; subst.
      destruct (Hrot Hev HT HC) as [HT1 HC1].
      apply Hrot'; assumption.
Qed.

End SessionE.

Lemma session_safe_witness :
  exists v' rs',
    @Session.run stillOrientation
      [Session.Upload 7; Session.Turn true (Some pinchingHand) 16;
       Session.Frame 32]
      (ExperienceScene.mkView Experience.new (0, 0)) (Random.const 0)
    = (Some v', rs')
    /\ Experience.Inv (ExperienceScene.core v').
Proof.
  destruct (@session_safe stillOrientation
              [Session.Upload 7; Session.Turn true (Some pinchingHand) 16;
               Session.Frame 32]
              (ExperienceScene.mkView Experience.new (0, 0)) (Random.const 0))
    as (v' & rs' & E & HI & _).
  - intros n. unfold Random.const. lra.
  - apply ExperienceInv_new.
  - exists v', rs'. split; assumption.
Defined.

(** ** The set-up of [part_004] and the first focus *)

Lemma newC_fields (o : nat) (m : Mesh) (ty : SceneC.ParticleType)
  (rs : Random.source) :
  SceneC.oid (fst (SceneC.new_ParticleItem o m ty rs)) = o
  /\ SceneC.type (fst (SceneC.new_ParticleItem o m ty rs)) = ty
  /\ SceneC.mesh (fst (SceneC.new_ParticleItem o m ty rs)) = m.
Proof. unfold SceneC.new_ParticleItem. run. repeat split. Qed.

Lemma push_photoC_run (ps : list SceneC.ParticleItem) (rs : Random.source) :
  exists p,
    fst (SceneC.push_photo ps rs) = ps ++ [p]
    /\ SceneC.oid p = length ps /\ SceneC.type p = SceneC.PHOTO
    /\ position (SceneC.mesh p) = vec3 0 (-50) 0.
Proof.
  unfold SceneC.push_photo. run.
  destruct (newC_fields (length ps) newMesh SceneC.PHOTO rs) as (Eo & Et & _).
  eexists. split; [reflexivity|].
  cbn [SceneC.oid SceneC.type SceneC.mesh SceneC.set_mesh position
       set_position].
  repeat split; assumption.
Qed.

Lemma censusC_push (p0 p : SceneC.ParticleItem) (n k : nat)
  (ps : list SceneC.ParticleItem) :
  censusC p0 n k ps ->
  SceneC.oid p = length ps ->
  SceneC.type p = (if (k <? n)%nat then SceneC.DECOR else SceneC.DUST) ->
  censusC p0 n (S k) (ps ++ [p]).
Proof.
  intros (rest & -> & Hl & Hc) Ho Ht. exists (rest ++ [p]).
  split; [reflexivity|]. split; [rewrite length_app; simpl; lia|].
  intros j q Hq.
  destruct (Nat.lt_ge_cases j (length rest)) as [Hlt|Hge].
  - rewrite nth_error_app1 in Hq by exact Hlt. apply Hc. exact Hq.
  - rewrite nth_error_app2 in Hq by exact Hge.
    destruct (j - length rest)%nat as [|d] eqn:Ed.
    + simpl in Hq. injection Hq as <-.
      assert (j = k) by lia. subst j. split; [|exact Ht].
      rewrite Ho. simpl. lia.
    + simpl in Hq. destruct d; discriminate.
Qed.

Lemma censusC_widen (p0 : SceneC.ParticleItem) (k : nat)
  (ps : list SceneC.ParticleItem) (n : nat) :
  censusC p0 k k ps -> (k <= n)%nat -> censusC p0 n k ps.
Proof.
  intros (rest & -> & Hl & Hc) Hle. exists rest. repeat split; try assumption.
  - apply (Hc j p H).
  - destruct (Hc j p H) as [_ Ht].
    assert (Hj : (j < k)%nat).
    { rewrite <- Hl. apply nth_error_Some. congruence. }
    destruct (Nat.ltb_spec j k); [|lia].
    destruct (Nat.ltb_spec j n); [exact Ht | lia].
Qed.

Lemma decorC_body_census (p0 : SceneC.ParticleItem) (i : nat)
  (ps : list SceneC.ParticleItem) (rs : Random.source) :
  censusC p0 i i ps -> censusC p0 (S i) (S i) (fst (SceneC.decor_body i ps rs)).
Proof.
  intros HC. unfold SceneC.decor_body. run.
  match goal with
  | |- context [SceneC.new_ParticleItem ?o ?m ?ty ?r] =>
      destruct (newC_fields o m ty r) as (Eo & Et & _)
  end.
  apply censusC_push; [apply censusC_widen; [exact HC | lia] | exact Eo |].
  rewrite Et. destruct (Nat.ltb_spec i (S i)); [reflexivity | lia].
Qed.

Lemma dustC_body_census (p0 : SceneC.ParticleItem) (n i : nat)
  (ps : list SceneC.ParticleItem) (rs : Random.source) :
  censusC p0 n (n + i) ps ->
  censusC p0 n (n + S i) (fst (SceneC.dust_body i ps rs)).
Proof.
  intros HC. unfold SceneC.dust_body. run.
  match goal with
  | |- context [SceneC.new_ParticleItem ?o ?m ?ty ?r] =>
      destruct (newC_fields o m ty r) as (Eo & Et & _)
  end.
  rewrite Nat.add_succ_r.
  apply censusC_push; [exact HC | exact Eo |].
  rewrite Et. destruct (Nat.ltb_spec (n + i) n); [lia | reflexivity].
Qed.

Lemma initC_run (m : SceneMode) (mobile : bool) (rs : Random.source) :
  exists p0 ps,
    fst (SceneC.init m mobile rs) = SceneC.mkState m ps (-1) mobile 0 0 m
    /\ SceneC.oid p0 = 0%nat /\ SceneC.type p0 = SceneC.PHOTO
    /\ position (SceneC.mesh p0) = vec3 0 (-50) 0
    /\ censusC p0 (SceneC.particleCount mobile)
         (SceneC.particleCount mobile + SceneC.dustCount mobile) ps.
Proof.
  destruct (push_photoC_run [] rs) as (p0 & E0 & Eo & Et & Ep).
  assert (H0 : censusC p0 0 0 (fst (SceneC.push_photo [] rs))).
  { rewrite E0. exists []. repeat split; destruct j; discriminate. }
  unfold SceneC.init. run.
  set (n := SceneC.particleCount mobile). set (d := SceneC.dustCount mobile).
  set (ps1 := fst (Random.for_range SceneC.decor_body 0 n _ _)).
  assert (H1 : censusC p0 n n ps1).
  { apply (for_range_invariant (fun i => censusC p0 (0 + i) (0 + i))
             SceneC.decor_body (decorC_body_census p0) n 0%nat _ _ H0). }
  match goal with |- context [Random.for_range SceneC.dust_body 0 d ps1 ?r] =>
    assert (H2 : censusC p0 n (n + d)
                   (fst (Random.for_range SceneC.dust_body 0 d ps1 r))) end.
  { apply (for_range_invariant (fun i => censusC p0 n (n + i))
             SceneC.dust_body (dustC_body_census p0 n) d 0%nat ps1).
    rewrite Nat.add_0_r. exact H1. }
  exists p0. eexists. split; [reflexivity|].
  repeat apply conj; assumption.
Qed.

Lemma censusC_photos (p0 : SceneC.ParticleItem) (n k : nat)
  (ps : list SceneC.ParticleItem) :
  SceneC.type p0 = SceneC.PHOTO -> censusC p0 n k ps ->
  SceneC.photos ps = [p0].
Proof.
  intros Ht (rest & -> & _ & Hc). unfold SceneC.photos. cbn [filter].
  unfold SceneC.isPHOTO at 1. rewrite Ht. f_equal.
  assert (Hall : Forall (fun p => SceneC.isPHOTO p = false) rest).
  { apply Forall_forall. intros p Hin. apply In_nth_error in Hin.
    destruct Hin as [j Hj]. destruct (Hc j p Hj) as [_ Hty].
    unfold SceneC.isPHOTO. rewrite Hty.
    destruct (j <? n)%nat; reflexivity. }
  clear Hc. induction Hall as [|p rest Hp _ IH]; [reflexivity|].
  cbn [filter]. rewrite Hp. exact IH.
Qed.

(** X20.  The set-up of [part_004] registers the default photo first, at
    position (0, -50, 0), then 1500 decorations and 2500 dust particles
    (800 and 1200 on a mobile screen), every particle a distinct object in
    allocation order; no focus is set and the group is not rotated.  The
    default photo being the only one, the first target computation in
    FOCUS, with [Math.random()] in [[0, 1)], draws once and focuses on it:
    index 0. *)
Theorem setup_then_first_focus (m : SceneMode) (mobile : bool)
  (rs : Random.source) :
  exists p0 rest,
    fst (SceneC.init m mobile rs)
    = SceneC.mkState m (p0 :: rest) (-1) mobile 0 0 m
    /\ SceneC.oid p0 = 0%nat /\ SceneC.type p0 = SceneC.PHOTO
    /\ position (SceneC.mesh p0) = vec3 0 (-50) 0
    /\ length rest
       = (SceneC.particleCount mobile + SceneC.dustCount mobile)%nat
    /\ (forall j p, nth_error rest j = Some p ->
                    SceneC.oid p = S j
                    /\ SceneC.type p
                       = if (j <? SceneC.particleCount mobile)%nat
                         then SceneC.DECOR else SceneC.DUST)
    /\ forall now rs',
         Random.fair rs' ->
         SceneC.focusedPhotoIndex
           (fst (SceneC.calculateTargets FOCUS now
                   (SceneC.mkState m (p0 :: rest) (-1) mobile 0 0 m) rs'))
         = 0%Z
         /\ snd (SceneC.calculateTargets FOCUS now
                   (SceneC.mkState m (p0 :: rest) (-1) mobile 0 0 m) rs')
            = fun n => rs' (S n).
Proof.
  destruct (initC_run m mobile rs) as (p0 & ps & E & Eo & Et & Ep & HC).
  pose proof (censusC_photos p0 _ _ ps Et HC) as Hph.
  destruct HC as (rest & -> & Hl & Hc).
  exists p0, rest. repeat apply conj; try assumption.
  intros now rs' Hr.
  unfold SceneC.calculateTargets, SceneC.selectFocus.
  cbn [SceneMode_eqb SceneC.focusedPhotoIndex andb Z.eqb Pos.eqb
       SceneC.particles].
  rewrite Hph. run. cbn [Random.random fst snd length].
  cbn [SceneC.focusedPhotoIndex SceneC.set_particles
       SceneC.set_focusedPhotoIndex SceneC.particles].
  assert (Hk : JS.floor (rs' 0%nat * INR 1) = 0%Z).
  { pose proof (floor_random_index (rs' 0%nat) 1 (Hr 0%nat) Nat.lt_0_1) as Hf.
    change (Z.of_nat 1) with 1%Z in Hf. lia. }
  rewrite Hk. unfold JS.get. cbn [Z.ltb Z.compare Z.to_nat nth_error].
  unfold SceneC.indexOf. cbn [SceneC.indexOf_from].
  rewrite Nat.eqb_refl. split; reflexivity.
Qed.

Lemma setup_then_first_focus_witness :
  exists p0 rest,
    fst (SceneC.init TREE false (Random.const 0))
    = SceneC.mkState TREE (p0 :: rest) (-1) false 0 0 TREE
    /\ SceneC.focusedPhotoIndex
         (fst (SceneC.calculateTargets FOCUS 0
                 (SceneC.mkState TREE (p0 :: rest) (-1) false 0 0 TREE)
                 (Random.const 0)))
       = 0%Z.
Proof.
  destruct (setup_then_first_focus TREE false (Random.const 0))
    as (p0 & rest & E & _ & _ & _ & _ & _ & Hf).
  exists p0, rest. split; [exact E|].
  apply (Hf 0 (Random.const 0)). intros n. unfold Random.const. lra.
Defined.
